(** * Cache synchronisation and cluster RPC of the gateway client

    A shallow embedding of the dispatch handlers of [src/gateway/handler.ts],
    of the [Member] structure, and of the evaluate protocol of
    [src/cluster/process.ts] and [src/cluster/processchild.ts], followed by
    the properties the specification states about them (C1 to C10) and by
    further properties of the same code (X1 and on).

    Conventions.  A JavaScript [Map] or [Set] is a [gmap] or [gset]: every
    loop of the modelled code over a collection only deletes from it or
    updates its entries one by one, so the insertion order of [Map] does not
    show in the results; the accessors of a member that pick a role while
    they go through the role collection take its entries as a list, in the
    order the collection yields them, and the sending set of the member
    chunks, which is sent as an array, is a list in the order of insertion.
    A property that may be [undefined] or [null] is an [option].  Numbers
    that count things are integers in [Z]; adding and subtracting one
    rounds as the doubles of JavaScript do, which is exact up to [2 ^ 53]
    ([Number_add], [Number_sub]). *)

From Stdlib Require Import ZArith.
From stdpp Require Import gmap strings pretty list fin_maps.

(** ** JavaScript truthiness of identifiers *)

Module Js.

(** A string is truthy unless it is empty. *)
Definition truthy (s : string) : bool := negb (String.eqb s "").

(** [a || b] on identifiers that may be absent. *)
Definition or_else (a b : option string) : option string :=
  match a with
  | Some s => if truthy s then Some s else b
  | None => b
  end.

(** [!value] for an identifier that may be absent. *)
Definition falsy (a : option string) : bool :=
  match a with
  | Some s => negb (truthy s)
  | None => true
  end.

End Js.

(** ** Numbers *)

(** A number of the language is a double.  The counters of the model hold
    integers; [Number_round] is the integer a double holds in place of an
    exact integer result: the result itself up to a magnitude of [2 ^ 53],
    and past it the nearest integer with a significand of 53 bits, a tie
    going to the even significand.  (A magnitude past the largest double,
    where the result is [Infinity], is outside what a counter of the model
    holds.) *)
Definition Number_round (z : Z) : Z :=
  let a := Z.abs z in
  if (a <=? 2 ^ 53)%Z then z
  else
    let e := (Z.log2 a - 52)%Z in
    let q := (a / 2 ^ e)%Z in
    let r := (a mod 2 ^ e)%Z in
    let half := (2 ^ (e - 1))%Z in
    let q' :=
      if (r <? half)%Z then q
      else if (half <? r)%Z then (q + 1)%Z
      else if Z.even q then q else (q + 1)%Z in
    (Z.sgn z * (q' * 2 ^ e))%Z.

(** [a + b] *)
Definition Number_add (a b : Z) : Z := Number_round (a + b).

(** [a - b] *)
Definition Number_sub (a b : Z) : Z := Number_round (a - b).

(** ** Entity stores *)

Section Store.
Context {K : Type} `{Countable K} {V : Type}.

(** Modelled from the spec: the collection classes behind [client.guilds],
    [client.members] and the other stores are not part of the sources at
    hand.  The spec (4.1) gives their contract: [has], [get], [insert],
    [delete] per key, and a store that is disabled ignores inserts and
    answers every read with absent. *)
Record Store : Type := mkStore {
  enabled : bool;
  cache : gmap K V;
}.

Definition store_get (s : Store) (k : K) : option V :=
  if enabled s then cache s !! k else None.

Definition store_has (s : Store) (k : K) : bool :=
  match store_get s k with Some _ => true | None => false end.

Definition store_insert (k : K) (v : V) (s : Store) : Store :=
  if enabled s then mkStore (enabled s) (<[k := v]> (cache s)) else s.

Definition store_delete (k : K) (s : Store) : Store :=
  mkStore (enabled s) (delete k (cache s)).

Definition store_clear (s : Store) : Store := mkStore (enabled s) ∅.

(** In-place mutation of an object that sits in the store. *)
Definition store_update (k : K) (f : V → V) (s : Store) : Store :=
  mkStore (enabled s) (alter f k (cache s)).

End Store.

Arguments Store K {_ _} V.

Section Store2.
Context {K : Type} `{Countable K} {V : Type}.

(** Modelled from the spec: a composite-key store (members, voice states,
    messages, typings) is a store of inner collections, with the two-level
    [has/get/delete(outerKey, innerKey)], and [delete(outerKey)] dropping
    the whole inner collection. *)
Definition store_get2 (s : Store K (gmap string V)) (k : K) (i : string)
  : option V :=
  store_get s k ≫= λ inner, inner !! i.

Definition store_has2 (s : Store K (gmap string V)) (k : K) (i : string)
  : bool :=
  match store_get2 s k i with Some _ => true | None => false end.

Definition store_insert2 (k : K) (i : string) (v : V)
    (s : Store K (gmap string V)) : Store K (gmap string V) :=
  if enabled s
  then mkStore (enabled s)
         (<[k := <[i := v]> (default ∅ (cache s !! k))]> (cache s))
  else s.

Definition store_delete2 (k : K) (i : string)
    (s : Store K (gmap string V)) : Store K (gmap string V) :=
  mkStore (enabled s) (alter (delete i) k (cache s)).

Definition store_update2 (k : K) (i : string) (f : V → V)
    (s : Store K (gmap string V)) : Store K (gmap string V) :=
  mkStore (enabled s) (alter (alter f i) k (cache s)).

(** [collection.length] of the inner collection under [k]. *)
Definition store_length2 (s : Store K (gmap string V)) (k : K) : Z :=
  match store_get s k with
  | Some inner => Z.of_nat (size inner)
  | None => 0%Z
  end.

End Store2.

(** ** Structures *)

Record Role : Type := mkRole {
  role_id : string;
  role_guildId : string;
  role_color : Z;
  role_permissions : Z;
  role_position : Z;
}.

Record RawUser : Type := mkRawUser {
  raw_user_id : string;
  raw_username : option string;
  raw_bot : option bool;
}.

Record User : Type := mkUser {
  user_id : string;
  username : string;
  bot : bool;
}.

Record RawGuild : Type := mkRawGuild {
  raw_guild_id : string;
  raw_member_count : option Z;
  raw_roles : option (list Role);
  raw_unavailable : option bool;
}.

Record Guild : Type := mkGuild {
  guild_id : string;
  memberCount : Z;
  guild_roles : gmap string Role;
  unavailable : bool;
}.

(** The keys of [keysMember], each with a defined value of the shape the
    gateway sends for it.  A first [option] in [RawMember] below is the key
    being absent ([undefined]); an [option] here is [null].  A timestamp is
    carried as the epoch milliseconds [new Date(value).getTime()] yields,
    [None] standing for a falsy value. *)
Inductive MemberField : Type :=
| DEAF (value : bool)
| GUILD_ID (value : string)
| HOISTED_ROLE (value : option string)
| JOINED_AT (value : option Z)
| MUTE (value : bool)
| NICK (value : option string)
| PREMIUM_SINCE (value : option Z)
| ROLES (value : list string)
| USER (value : RawUser).

Record RawMember : Type := mkRawMember {
  raw_deaf : option bool;
  raw_member_guild_id : option string;
  raw_hoisted_role : option (option string);
  raw_joined_at : option (option Z);
  raw_mute : option bool;
  raw_nick : option (option string);
  raw_premium_since : option (option Z);
  raw_member_roles : option (list string);
  raw_member_user : RawUser;
}.

(** The member holds its user as the user was when it was last merged into
    the member; in the code it is the object of the user store, so that a
    later merge into that object shows through every member of the user.
    Of the user of a member the handlers modelled read the id only. *)
Record Member : Type := mkMember {
  _roles : option (gmap string (option Role));
  deaf : bool;
  guildId : string;
  hoistedRoleId : option string;
  joinedAtUnix : Z;
  mute : bool;
  nick : option string;
  premiumSinceUnix : Z;
  user : User;
}.

Record Channel : Type := mkChannel {
  channel_id : string;
  channel_guildId : option string;
  recipients : gset string;
}.

Record Reaction : Type := mkReaction {
  reaction_emoji : string;
  count : Z;
  me : bool;
}.

Record Message : Type := mkMessage {
  message_id : string;
  message_author : string;
  message_channelId : string;
  message_guildId : option string;
  _reactions : option (gmap string Reaction);
}.

Record Presence : Type := mkPresence {
  presence_user : string;
  guildIds : gset string;
}.

Record VoiceState : Type := mkVoiceState {
  voice_channelId : option string;
  voice_guildId : option string;
  voice_userId : string;
}.

Module MessageCacheTypes.
Inductive t : Type := CHANNEL | GUILD | USER.
End MessageCacheTypes.

Module ClientEvents.
Inductive t : Type :=
| GATEWAY_READY
| GUILD_CREATE
| GUILD_DELETE
| GUILD_MEMBER_ADD
| GUILD_ROLE_DELETE
| MESSAGE_REACTION_ADD
| MESSAGE_REACTION_REMOVE
| MESSAGE_REACTION_REMOVE_ALL
| VOICE_STATE_UPDATE
| CHANNEL_DELETE
| GUILD_MEMBER_REMOVE
| GUILD_ROLE_CREATE
| MESSAGE_DELETE
| MESSAGE_DELETE_BULK
| RAW
| UNKNOWN
| WARN.
End ClientEvents.

(** ** The client context *)

(** The stores of [ShardClient] the modelled handlers touch, the calls made
    on its gateway ([requestGuildMembers]) and the names of the events it
    emitted, latest first. *)
Record ShardClient : Type := mkShardClient {
  client_user : option User;
  users : Store string User;
  guilds : Store string Guild;
  members : Store string (gmap string Member);
  channels : Store string Channel;
  messages_type : MessageCacheTypes.t;
  messages : Store string (gmap string Message);
  presences : Store string Presence;
  relationships : Store string string;
  typings : gmap string (gmap string unit);
  voiceStates : Store (option string) (gmap string VoiceState);
  guildSubscriptions : bool;
  requestedGuildMembers : list (list string);
  emitted : list ClientEvents.t;
}.

Definition set_users (f : Store string User → Store string User)
    (c : ShardClient) : ShardClient :=
  mkShardClient (client_user c) (f (users c)) (guilds c) (members c)
    (channels c) (messages_type c) (messages c) (presences c)
    (relationships c) (typings c) (voiceStates c) (guildSubscriptions c)
    (requestedGuildMembers c) (emitted c).

Definition set_guilds (f : Store string Guild → Store string Guild)
    (c : ShardClient) : ShardClient :=
  mkShardClient (client_user c) (users c) (f (guilds c)) (members c)
    (channels c) (messages_type c) (messages c) (presences c)
    (relationships c) (typings c) (voiceStates c) (guildSubscriptions c)
    (requestedGuildMembers c) (emitted c).

Definition set_members
    (f : Store string (gmap string Member) → Store string (gmap string Member))
    (c : ShardClient) : ShardClient :=
  mkShardClient (client_user c) (users c) (guilds c) (f (members c))
    (channels c) (messages_type c) (messages c) (presences c)
    (relationships c) (typings c) (voiceStates c) (guildSubscriptions c)
    (requestedGuildMembers c) (emitted c).

Definition set_channels (f : Store string Channel → Store string Channel)
    (c : ShardClient) : ShardClient :=
  mkShardClient (client_user c) (users c) (guilds c) (members c)
    (f (channels c)) (messages_type c) (messages c) (presences c)
    (relationships c) (typings c) (voiceStates c) (guildSubscriptions c)
    (requestedGuildMembers c) (emitted c).

Definition set_messages
    (f : Store string (gmap string Message) → Store string (gmap string Message))
    (c : ShardClient) : ShardClient :=
  mkShardClient (client_user c) (users c) (guilds c) (members c)
    (channels c) (messages_type c) (f (messages c)) (presences c)
    (relationships c) (typings c) (voiceStates c) (guildSubscriptions c)
    (requestedGuildMembers c) (emitted c).

Definition set_presences
    (f : Store string Presence → Store string Presence)
    (c : ShardClient) : ShardClient :=
  mkShardClient (client_user c) (users c) (guilds c) (members c)
    (channels c) (messages_type c) (messages c) (f (presences c))
    (relationships c) (typings c) (voiceStates c) (guildSubscriptions c)
    (requestedGuildMembers c) (emitted c).

Definition set_relationships
    (f : Store string string → Store string string)
    (c : ShardClient) : ShardClient :=
  mkShardClient (client_user c) (users c) (guilds c) (members c)
    (channels c) (messages_type c) (messages c) (presences c)
    (f (relationships c)) (typings c) (voiceStates c) (guildSubscriptions c)
    (requestedGuildMembers c) (emitted c).

Definition set_typings
    (f : gmap string (gmap string unit) → gmap string (gmap string unit))
    (c : ShardClient) : ShardClient :=
  mkShardClient (client_user c) (users c) (guilds c) (members c)
    (channels c) (messages_type c) (messages c) (presences c)
    (relationships c) (f (typings c)) (voiceStates c) (guildSubscriptions c)
    (requestedGuildMembers c) (emitted c).

Definition set_voiceStates
    (f : Store (option string) (gmap string VoiceState)
         → Store (option string) (gmap string VoiceState))
    (c : ShardClient) : ShardClient :=
  mkShardClient (client_user c) (users c) (guilds c) (members c)
    (channels c) (messages_type c) (messages c) (presences c)
    (relationships c) (typings c) (f (voiceStates c)) (guildSubscriptions c)
    (requestedGuildMembers c) (emitted c).

(** [client.gateway.requestGuildMembers(guildIds, {limit: 0, presences: true,
    query: ''})]: the options are the same at every call site. *)
Definition requestGuildMembers (guildIds : list string) (c : ShardClient)
    : ShardClient :=
  mkShardClient (client_user c) (users c) (guilds c) (members c)
    (channels c) (messages_type c) (messages c) (presences c)
    (relationships c) (typings c) (voiceStates c) (guildSubscriptions c)
    (guildIds :: requestedGuildMembers c) (emitted c).

Definition emit (e : ClientEvents.t) (c : ShardClient) : ShardClient :=
  mkShardClient (client_user c) (users c) (guilds c) (members c)
    (channels c) (messages_type c) (messages c) (presences c)
    (relationships c) (typings c) (voiceStates c) (guildSubscriptions c)
    (requestedGuildMembers c) (e :: emitted c).

(** ** Guild and user structures *)

(** Modelled from the spec: the [User] structure is not part of the sources
    at hand.  Its merge follows the merge contract of the spec (4.1): every
    field the payload carries is assigned, the others are kept. *)
Definition User_merge (raw : RawUser) (u : User) : User :=
  mkUser (raw_user_id raw)
    (default (username u) (raw_username raw))
    (default (bot u) (raw_bot raw)).

Definition User_new (raw : RawUser) : User :=
  User_merge raw (mkUser "" "" false).

(** Modelled from the spec: the [Guild] structure is not part of the sources
    at hand.  Its default role is the role every member has implicitly: the
    one keyed by the guild's own id (the key under which [Member.roles]
    files it, and which [Member.permissionsIn] skips as the default). *)
Definition Guild_defaultRole (g : Guild) : option Role :=
  guild_roles g !! guild_id g.

(** Modelled from the spec: the merge of a guild payload, by the merge
    contract of the spec (4.1), over the attributes of the spec's data
    model: member count, roles and the unavailable flag. *)
Definition Guild_merge (raw : RawGuild) (g : Guild) : Guild :=
  mkGuild (raw_guild_id raw)
    (default (memberCount g) (raw_member_count raw))
    (match raw_roles raw with
     | Some rs =>
         foldl (λ acc r,
                  <[role_id r := mkRole (role_id r) (raw_guild_id raw)
                                   (role_color r) (role_permissions r)
                                   (role_position r)]> acc)
           (guild_roles g) rs
     | None => guild_roles g
     end)
    (default (unavailable g) (raw_unavailable raw)).

Definition Guild_new (raw : RawGuild) : Guild :=
  Guild_merge raw (mkGuild "" 0 ∅ false).

(** Modelled from the spec: [guild.members.length], the number of members of
    the guild actually cached (4.3). *)
Definition Guild_members_length (c : ShardClient) (g : Guild) : Z :=
  store_length2 (members c) (guild_id g).

(** ** The member structure *)

Definition Member_id (m : Member) : string := user_id (user m).

Definition Member_with_roles (r : option (gmap string (option Role)))
    (m : Member) : Member :=
  mkMember r (deaf m) (guildId m) (hoistedRoleId m) (joinedAtUnix m)
    (mute m) (nick m) (premiumSinceUnix m) (user m).

(** [get guild()] *)
Definition Member_guild (c : ShardClient) (m : Member) : option Guild :=
  store_get (guilds c) (guildId m).

(** [get roles()]: the stored collection when there is one, else a fresh
    collection holding the default role under the guild id. *)
Definition Member_roles (c : ShardClient) (m : Member)
    : gmap string (option Role) :=
  match _roles m with
  | Some roles => roles
  | None =>
      let guild := Member_guild c m in
      <[guildId m := guild ≫= Guild_defaultRole]> ∅
  end.

(** [mergeValue(key, value)] for a defined [value]; [merge] below does not
    call it for a key the payload lacks, which is the [value !== undefined]
    test.  The last five cases end in the generic field assignment of the
    base structure. *)
Definition Member_mergeValue (c : ShardClient) (m : Member)
    (field : MemberField) : ShardClient * Member :=
  match field with
  | HOISTED_ROLE value =>
      (c, mkMember (_roles m) (deaf m) (guildId m) value (joinedAtUnix m)
            (mute m) (nick m) (premiumSinceUnix m) (user m))
  | JOINED_AT value =>
      (c, mkMember (_roles m) (deaf m) (guildId m) (hoistedRoleId m)
            (default 0%Z value) (mute m) (nick m) (premiumSinceUnix m)
            (user m))
  | PREMIUM_SINCE value =>
      (c, mkMember (_roles m) (deaf m) (guildId m) (hoistedRoleId m)
            (joinedAtUnix m) (mute m) (nick m) (default 0%Z value) (user m))
  | ROLES value =>
      match value with
      | _ :: _ =>
          let guild := Member_guild c m in
          let cleared : gmap string (option Role) := ∅ in
          let withDefault :=
            <[guildId m := guild ≫= Guild_defaultRole]> cleared in
          (c, Member_with_roles
                (Some (foldl (λ roles roleId,
                                <[roleId := guild ≫= λ g, guild_roles g !! roleId]>
                                  roles)
                         withDefault value)) m)
      | [] => (c, Member_with_roles None m)
      end
  | USER value =>
      let '(c', u) :=
        match store_get (users c) (raw_user_id value) with
        | Some u =>
            let u' := User_merge value u in
            (set_users (store_update (raw_user_id value) (λ _, u')) c, u')
        | None =>
            let u := User_new value in
            (set_users (store_insert (user_id u) u) c, u)
        end in
      (c', mkMember (_roles m) (deaf m) (guildId m) (hoistedRoleId m)
             (joinedAtUnix m) (mute m) (nick m) (premiumSinceUnix m) u)
  | DEAF value =>
      (c, mkMember (_roles m) value (guildId m) (hoistedRoleId m)
            (joinedAtUnix m) (mute m) (nick m) (premiumSinceUnix m) (user m))
  | GUILD_ID value =>
      (c, mkMember (_roles m) (deaf m) value (hoistedRoleId m)
            (joinedAtUnix m) (mute m) (nick m) (premiumSinceUnix m) (user m))
  | MUTE value =>
      (c, mkMember (_roles m) (deaf m) (guildId m) (hoistedRoleId m)
            (joinedAtUnix m) value (nick m) (premiumSinceUnix m) (user m))
  | NICK value =>
      (c, mkMember (_roles m) (deaf m) (guildId m) (hoistedRoleId m)
            (joinedAtUnix m) (mute m) value (premiumSinceUnix m) (user m))
  end.

(** The fields whose merge touches neither the client nor the identity of
    the member. *)
Definition plain_field (f : MemberField) : Prop :=
  match f with
  | GUILD_ID _ | USER _ => False
  | _ => True
  end.

(** The fields a payload carries, the keys of [keysMergeMember] (the guild
    id) first, then the other keys of [keysMember] in their order. *)
Definition RawMember_fields (data : RawMember) : list MemberField :=
  omap id
    [ GUILD_ID <$> raw_member_guild_id data;
      DEAF <$> raw_deaf data;
      HOISTED_ROLE <$> raw_hoisted_role data;
      JOINED_AT <$> raw_joined_at data;
      MUTE <$> raw_mute data;
      NICK <$> raw_nick data;
      PREMIUM_SINCE <$> raw_premium_since data;
      ROLES <$> raw_member_roles data;
      Some (USER (raw_member_user data)) ].

(** Modelled from the spec: [merge] of the base structure is not part of the
    sources at hand.  By the merge contract (4.1) it hands every allow-listed
    key of the payload to [mergeValue], the keys of the merge-first set
    before the others. *)
Definition Member_merge (data : RawMember) (cm : ShardClient * Member)
    : ShardClient * Member :=
  foldl (λ acc field, Member_mergeValue acc.1 acc.2 field) cm
    (RawMember_fields data).

(** [new Member(client, data)]: the field initialisers, then [merge]. *)
Definition Member_new (c : ShardClient) (data : RawMember)
    : ShardClient * Member :=
  Member_merge data
    (c, mkMember None false "" None 0 false None 0 (mkUser "" "" false)).

(** [client.members.insert(member)]: filed under the member's guild id and
    user id. *)
Definition members_insert (m : Member) (c : ShardClient) : ShardClient :=
  set_members (store_insert2 (guildId m) (Member_id m) m) c.

(** ** Further accessors of the member structure *)

(** One turn of the loop of [get highestRole()]: a role that is not null
    takes over when there is no role yet or when its position is strictly
    above. *)
Definition highestRole_step (highest : option Role)
    (entry : string * option Role) : option Role :=
  match entry.2 with
  | Some role =>
      match highest with
      | Some top =>
          if (role_position top <? role_position role)%Z then Some role
          else highest
      | None => Some role
      end
  | None => highest
  end.

(** [get highestRole()], over the entries of [this.roles] in the order the
    collection yields them. *)
Definition Member_highestRole (entries : list (string * option Role))
    : option Role :=
  foldl highestRole_step None entries.

(** One turn of the loop of [get colorRole()]: as above, for a role that
    has a color ([role && role.color]). *)
Definition colorRole_step (highest : option Role)
    (entry : string * option Role) : option Role :=
  match entry.2 with
  | Some role =>
      if (role_color role =? 0)%Z then highest
      else
        match highest with
        | Some top =>
            if (role_position top <? role_position role)%Z then Some role
            else highest
        | None => Some role
        end
  | None => highest
  end.

(** [get colorRole()] *)
Definition Member_colorRole (entries : list (string * option Role))
    : option Role :=
  foldl colorRole_step None entries.

(** [get color()] *)
Definition Member_color (entries : list (string * option Role)) : Z :=
  match Member_colorRole entries with
  | Some role => role_color role
  | None => 0%Z
  end.

(** The 32-bit signed integer a bitwise operator of the language yields. *)
Definition toInt32 (z : Z) : Z := ((z + 2 ^ 31) mod 2 ^ 32 - 2 ^ 31)%Z.

Section Permissions.
(** The constants are not part of the sources at hand: [PERMISSIONS_ALL]
    and [Permissions.NONE] are parameters, and so is the answer of
    [guild.isOwner(this.id)] behind [get isOwner()]. *)
Variable PERMISSIONS_ALL : Z.
Variable Permissions_NONE : Z.

(** [get permissions()]: the permissions of the roles that are not null,
    or-ed together from [Permissions.NONE]. *)
Definition Member_permissions (isOwner : bool)
    (entries : list (string * option Role)) : Z :=
  if isOwner then PERMISSIONS_ALL
  else
    foldl (λ total (entry : string * option Role),
             match entry.2 with
             | Some role => toInt32 (Z.lor total (role_permissions role))
             | None => total
             end)
      Permissions_NONE entries.

End Permissions.

(** [get name()]: [this.nick || this.username], the user name being the
    one of the member's user. *)
Definition Member_name (m : Member) : string :=
  match nick m with
  | Some n => if Js.truthy n then n else username (user m)
  | None => username (user m)
  end.

(** [get names()] *)
Definition Member_names (m : Member) : list string :=
  match nick m with
  | Some n => if Js.truthy n then [n; username (user m)]
              else [username (user m)]
  | None => [username (user m)]
  end.

(** [get hoistedRole()] *)
Definition Member_hoistedRole (c : ShardClient) (m : Member) : option Role :=
  match hoistedRoleId m with
  | Some i => if Js.truthy i then mjoin (Member_roles c m !! i) else None
  | None => None
  end.

(** [difference(key, value)] for the hoisted role, the one key the member
    structure answers itself: whether the value differs from the stored id,
    with the stored id when it does and null when not. *)
Definition Member_difference_HOISTED_ROLE (m : Member)
    (value : option string) : bool * option string :=
  if bool_decide (hoistedRoleId m ≠ value) then (true, hoistedRoleId m)
  else (false, None).

(** ** The gateway handler *)

(** [GatewayHandler.memberChunks]; of the timer only whether it is armed
    matters, its callback being the same at every start.  The sending set
    is read in the order its ids were added ([toArray]), so it is the list
    of its ids in that order, without repetition. *)
Record MemberChunks : Type := mkMemberChunks {
  chunks_done : gset string;
  chunks_left : gset string;
  chunks_sending : list string;
  chunks_timer : bool;
}.

(** [sending.add(id)]: an id that is in the set keeps its place. *)
Definition sending_add (id : string) (sending : list string) : list string :=
  if bool_decide (id ∈ sending) then sending else sending ++ [id].

(** [sending.delete(id)] *)
Definition sending_delete (id : string) (sending : list string)
    : list string :=
  filter (λ other, other ≠ id) sending.

Record GatewayHandler : Type := mkGatewayHandler {
  client : ShardClient;
  loadAllMembers : bool;
  memberChunks : MemberChunks;
}.

Definition with_client (f : ShardClient → ShardClient) (h : GatewayHandler)
    : GatewayHandler :=
  mkGatewayHandler (f (client h)) (loadAllMembers h) (memberChunks h).

(** [get shouldLoadAllMembers()] *)
Definition shouldLoadAllMembers (h : GatewayHandler) : bool :=
  loadAllMembers h && guildSubscriptions (client h).

(** The callback handed to [memberChunks.timer.start], run when the timer
    fires: the sending set is flushed as one request and cleared. *)
Definition memberChunks_timer_fire (h : GatewayHandler) : GatewayHandler :=
  let mc := memberChunks h in
  if chunks_timer mc then
    let guildIds := chunks_sending mc in
    mkGatewayHandler
      (match guildIds with
       | [] => client h
       | _ :: _ => requestGuildMembers guildIds (client h)
       end)
      (loadAllMembers h)
      (mkMemberChunks (chunks_done mc) (chunks_left mc) [] false)
  else h.

(** Iteration over a store: a disabled store yields nothing. *)
Definition store_entries {V : Type} (s : Store string V)
    : list (string * V) :=
  if enabled s then map_to_list (cache s) else [].

(** Iteration over the message store: every message of every inner
    collection, with its id. *)
Definition messages_entries (s : Store string (gmap string Message))
    : list (string * Message) :=
  mjoin ((λ kv, map_to_list kv.2) <$> store_entries s).

(** Modelled from the spec: [client.presences.clearGuildId] is not part of
    the sources at hand.  The presences of the guild are detached from it,
    and a presence with no guild id left is evicted (spec, 3). *)
Definition presences_clearGuildId (guildId : string)
    (s : Store string Presence) : Store string Presence :=
  mkStore (enabled s)
    (omap (λ p,
             if bool_decide (guildId ∈ guildIds p) then
               let rest := guildIds p ∖ {[guildId]} in
               if bool_decide (rest = ∅) then None
               else Some (mkPresence (presence_user p) rest)
             else Some p)
       (cache s)).

(** Modelled from the spec: [client.reset()] is not part of the sources at
    hand; it clears every store (spec, 4.2). *)
Definition reset (c : ShardClient) : ShardClient :=
  mkShardClient (client_user c) (store_clear (users c))
    (store_clear (guilds c)) (store_clear (members c))
    (store_clear (channels c)) (messages_type c) (store_clear (messages c))
    (store_clear (presences c)) (store_clear (relationships c)) ∅
    (store_clear (voiceStates c)) (guildSubscriptions c)
    (requestedGuildMembers c) (emitted c).

Module GatewayRawEvents.

(** The READY payload.  The objects of the sections for presences, private
    channels and relationships are of a type [Raw] that the model does not
    look into; a section the payload lacks is [None].  The notes are the
    pairs of a user id and a note, in the order of the keys. *)
Record Ready (Raw : Type) : Type := mkReady {
  ready_user : RawUser;
  ready_guilds : list RawGuild;
  ready_notes : option (list (string * string));
  ready_presences : option (list Raw);
  ready_private_channels : option (list Raw);
  ready_relationships : option (list Raw);
}.

Arguments mkReady {Raw} _ _ _ _ _ _.
Arguments ready_user {Raw} _.
Arguments ready_guilds {Raw} _.
Arguments ready_notes {Raw} _.
Arguments ready_presences {Raw} _.
Arguments ready_private_channels {Raw} _.
Arguments ready_relationships {Raw} _.

(** A member payload whose [guild_id] is always there. *)
Record GuildMemberAdd : Type := mkGuildMemberAdd {
  guild_member_add_guild_id : string;
  guild_member_add_member : RawMember;
}.

Definition GuildMemberAdd_data (data : GuildMemberAdd) : RawMember :=
  let m := guild_member_add_member data in
  mkRawMember (raw_deaf m) (Some (guild_member_add_guild_id data))
    (raw_hoisted_role m) (raw_joined_at m) (raw_mute m) (raw_nick m)
    (raw_premium_since m) (raw_member_roles m) (raw_member_user m).

Record GuildRoleDelete : Type := mkGuildRoleDelete {
  guild_role_delete_guild_id : string;
  guild_role_delete_role_id : string;
}.

Record RawEmoji : Type := mkRawEmoji {
  emoji_id : option string;
  emoji_name : string;
}.

(** MESSAGE_REACTION_ADD and MESSAGE_REACTION_REMOVE carry the same
    fields. *)
Record MessageReaction : Type := mkMessageReaction {
  reaction_channel_id : string;
  reaction_emoji_data : RawEmoji;
  reaction_guild_id : option string;
  reaction_message_id : string;
  reaction_user_id : string;
}.

Record MessageReactionRemoveAll : Type := mkMessageReactionRemoveAll {
  remove_all_channel_id : string;
  remove_all_guild_id : option string;
  remove_all_message_id : string;
}.

Record VoiceStateUpdate : Type := mkVoiceStateUpdate {
  voice_state_channel_id : option string;
  voice_state_guild_id : option string;
  voice_state_user_id : string;
}.

Record GuildMemberRemove : Type := mkGuildMemberRemove {
  guild_member_remove_guild_id : string;
  guild_member_remove_user : RawUser;
}.

(** The role of the payload comes without a guild id; the handler puts the
    guild id of the event on it. *)
Record GuildRoleCreate : Type := mkGuildRoleCreate {
  guild_role_create_guild_id : string;
  guild_role_create_role : Role;
}.

Record MessageDelete : Type := mkMessageDelete {
  message_delete_channel_id : string;
  message_delete_guild_id : option string;
  message_delete_id : string;
}.

Record MessageDeleteBulk : Type := mkMessageDeleteBulk {
  message_delete_bulk_channel_id : string;
  message_delete_bulk_guild_id : option string;
  message_delete_bulk_ids : list string;
}.

End GatewayRawEvents.

(** ** Message and voice-state helpers *)

(** The cache key the reaction handlers compute from the caching mode. *)
Definition messages_cacheKey (type : MessageCacheTypes.t)
    (channelId : string) (guildId : option string) : option string :=
  match type with
  | MessageCacheTypes.CHANNEL => Some channelId
  | MessageCacheTypes.GUILD => Js.or_else guildId (Some channelId)
  | MessageCacheTypes.USER => None
  end.

(** Modelled from the spec: the message store is not part of the sources at
    hand.  It is a composite-key store; a lookup without cache key (the
    per-user mode of the reaction handlers) goes through every inner
    collection.  The result is the outer key the message sits under, with
    the message. *)
Definition messages_find (s : Store string (gmap string Message))
    (cacheKey : option string) (messageId : string)
    : option (string * Message) :=
  match cacheKey with
  | Some k => (λ m, (k, m)) <$> store_get2 s k messageId
  | None =>
      list_find (λ kv, is_Some (kv.2 !! messageId)) (store_entries s)
        ≫= λ found, (λ m, (found.2.1, m)) <$> found.2.2 !! messageId
  end.

Definition Message_with_reactions (r : option (gmap string Reaction))
    (m : Message) : Message :=
  mkMessage (message_id m) (message_author m) (message_channelId m)
    (message_guildId m) r.

(** [data.emoji.id || data.emoji.name] *)
Definition emojiId_of (e : GatewayRawEvents.RawEmoji) : string :=
  match GatewayRawEvents.emoji_id e with
  | Some i => if Js.truthy i then i else GatewayRawEvents.emoji_name e
  | None => GatewayRawEvents.emoji_name e
  end.

(** [userId === meUserId], with [meUserId] null when the client has no
    user. *)
Definition is_me (c : ShardClient) (userId : string) : bool :=
  match client_user c with
  | Some u => bool_decide (userId = user_id u)
  | None => false
  end.

(** [get serverId()] of a voice state: [guildId || channelId]. *)
Definition VoiceState_serverId (v : VoiceState) : option string :=
  Js.or_else (voice_guildId v) (voice_channelId v).

(** Modelled from the spec: the [VoiceState] structure is not part of the
    sources at hand; its merge assigns the fields the payload carries. *)
Definition VoiceState_merge (data : GatewayRawEvents.VoiceStateUpdate)
    (v : VoiceState) : VoiceState :=
  mkVoiceState (GatewayRawEvents.voice_state_channel_id data)
    (match GatewayRawEvents.voice_state_guild_id data with
     | Some g => Some g
     | None => voice_guildId v
     end)
    (GatewayRawEvents.voice_state_user_id data).

Definition VoiceState_new (data : GatewayRawEvents.VoiceStateUpdate)
    : VoiceState :=
  VoiceState_merge data (mkVoiceState None None "").

(** The reaction collection of a message is absent or non-empty. *)
Definition reactions_absent_or_nonempty (m : Message) : Prop :=
  _reactions m ≠ Some ∅.

(** Every cached message has its reaction collection absent or
    non-empty. *)
Definition messages_reactions_ok (c : ShardClient) : Prop :=
  ∀ k inner i m,
    cache (messages c) !! k = Some inner → inner !! i = Some m →
    reactions_absent_or_nonempty m.

(** ** The dispatch handlers *)

Module GatewayDispatchHandler.
Import GatewayRawEvents.

Section Ready.
(** The classes behind the notes, the presences, the private channels, the
    relationships and the owners are not part of the sources at hand, and
    the spec does not give their contracts: what READY calls of them is a
    parameter, acting on the client.  [notes_enabled] is
    [client.notes.enabled]; [raw_id] reads the id of a payload object;
    [Channel_merge] and [Relationship_merge] are the in-place merges of the
    object that is cached, [createChannelFromData] and [Relationship_new]
    the constructors, the latter with the key its object is filed under;
    [isBot] is [client.isBot] once [_isBot] is defined from the user of the
    payload.  [client.rest.setAuthType] acts on the REST client, which the
    model has no state for. *)
Variable Raw : Type.
Variable notes_enabled : ShardClient → bool.
Variable notes_insert : string → string → ShardClient → ShardClient.
Variable presences_insert : Raw → ShardClient → ShardClient.
Variable raw_id : Raw → string.
Variable Channel_merge : Raw → Channel → ShardClient → ShardClient * Channel.
Variable createChannelFromData : ShardClient → Raw → ShardClient * Channel.
Variable Relationship_merge
  : Raw → string → ShardClient → ShardClient * string.
Variable Relationship_new : ShardClient → Raw → ShardClient * (string * string).
Variable isBot : RawUser → bool.
Variable owners_set : User → ShardClient → ShardClient.

(** The loop of READY over the guilds of the payload. *)
Definition READY_guild (should : bool)
    (acc : ShardClient * MemberChunks * list string) (raw : RawGuild)
    : ShardClient * MemberChunks * list string :=
  let '(c, mc, requestChunksNow) := acc in
  let '(c', guild) :=
    match store_get (guilds c) (raw_guild_id raw) with
    | Some g =>
        let g' := Guild_merge raw g in
        (set_guilds (store_update (raw_guild_id raw) (λ _, g')) c, g')
    | None =>
        let g := Guild_new raw in
        (set_guilds (store_insert (guild_id g) g) c, g)
    end in
  if should then
    if unavailable guild then
      (c', mkMemberChunks (chunks_done mc)
             ({[guild_id guild]} ∪ chunks_left mc)
             (chunks_sending mc) (chunks_timer mc),
       requestChunksNow)
    else if bool_decide (Guild_members_length c' guild ≠ memberCount guild)
    then
      (c', mkMemberChunks ({[guild_id guild]} ∪ chunks_done mc)
             (chunks_left mc) (chunks_sending mc) (chunks_timer mc),
       requestChunksNow ++ [guild_id guild])
    else (c', mc, requestChunksNow)
  else (c', mc, requestChunksNow).

(** The private channels of the payload, one by one. *)
Definition READY_private_channel (c : ShardClient) (raw : Raw)
    : ShardClient :=
  match store_get (channels c) (raw_id raw) with
  | Some channel =>
      let '(c', merged) := Channel_merge raw channel c in
      set_channels (store_update (raw_id raw) (λ _, merged)) c'
  | None =>
      let '(c', channel) := createChannelFromData c raw in
      set_channels (store_insert (channel_id channel) channel) c'
  end.

(** The relationships of the payload, one by one. *)
Definition READY_relationship (c : ShardClient) (raw : Raw) : ShardClient :=
  match store_get (relationships c) (raw_id raw) with
  | Some relationship =>
      let '(c', merged) := Relationship_merge raw relationship c in
      set_relationships (store_update (raw_id raw) (λ _, merged)) c'
  | None =>
      let '(c', (key, relationship)) := Relationship_new c raw in
      set_relationships (store_insert key relationship) c'
  end.

(** READY up to the point where the handler first waits: for a bot the
    call of [fetchOauth2Application], for a user, once it is in the owners,
    the call of [applications.fill]. *)
Definition READY (data : Ready Raw) (h : GatewayHandler) : GatewayHandler :=
  let c0 := reset (client h) in
  let me :=
    match client_user c0 with
    | Some u => User_merge (ready_user data) u
    | None => User_new (ready_user data)
    end in
  let c1 :=
    set_users (store_insert (user_id me) me)
      (mkShardClient (Some me) (users c0) (guilds c0) (members c0)
         (channels c0) (messages_type c0) (messages c0) (presences c0)
         (relationships c0) (typings c0) (voiceStates c0)
         (guildSubscriptions c0) (requestedGuildMembers c0) (emitted c0)) in
  let '(c3, mc2) :=
    if enabled (guilds c1) then
      let '(c2, mc2, requestChunksNow) :=
        foldl (READY_guild (shouldLoadAllMembers h)) (c1, memberChunks h, [])
          (ready_guilds data) in
      (match requestChunksNow with
       | [] => c2
       | _ :: _ => requestGuildMembers requestChunksNow c2
       end,
       mc2)
    else (c1, memberChunks h) in
  let c4 :=
    match ready_notes data with
    | Some listed =>
        if notes_enabled c3
        then foldl (λ c note, notes_insert note.1 note.2 c) c3 listed
        else c3
    | None => c3
    end in
  let c5 :=
    match ready_presences data with
    | Some listed =>
        if enabled (presences c4)
        then foldl (λ c raw, presences_insert raw c) c4 listed
        else c4
    | None => c4
    end in
  let c6 :=
    match ready_private_channels data with
    | Some listed =>
        if enabled (channels c5)
        then foldl READY_private_channel c5 listed
        else c5
    | None => c5
    end in
  let c7 :=
    match ready_relationships data with
    | Some listed =>
        if enabled (relationships c6)
        then foldl READY_relationship c6 listed
        else c6
    | None => c6
    end in
  let c8 := if isBot (ready_user data) then c7 else owners_set me c7 in
  mkGatewayHandler c8 (loadAllMembers h) mc2.

(** READY once [fetchOauth2Application] has settled, which a bot waits
    for: a warning when it failed; [applications.fill] is called next. *)
Definition READY_fetched (failed : bool) (h : GatewayHandler)
    : GatewayHandler :=
  if failed then with_client (emit ClientEvents.WARN) h else h.

(** READY once [applications.fill] has settled: a warning when it failed,
    then the notification. *)
Definition READY_filled (failed : bool) (h : GatewayHandler)
    : GatewayHandler :=
  with_client (emit ClientEvents.GATEWAY_READY)
    (if failed then with_client (emit ClientEvents.WARN) h else h).

End Ready.

Definition GUILD_CREATE (data : RawGuild) (h : GatewayHandler)
    : GatewayHandler :=
  let c := client h in
  let '(c1, guild) :=
    match store_get (guilds c) (raw_guild_id data) with
    | Some g =>
        let g' := Guild_merge data g in
        (set_guilds (store_update (raw_guild_id data) (λ _, g')) c, g')
    | None =>
        let g := Guild_new data in
        (set_guilds (store_insert (guild_id g) g) c, g)
    end in
  let mc := memberChunks h in
  let mc2 :=
    if shouldLoadAllMembers h then
      let left1 :=
        if bool_decide (guild_id guild ∈ chunks_done mc)
        then chunks_left mc
        else {[guild_id guild]} ∪ chunks_left mc in
      if bool_decide (guild_id guild ∈ left1) then
        let '(sending1, timer1) :=
          if bool_decide (Guild_members_length c1 guild ≠ memberCount guild)
          then (sending_add (guild_id guild) (chunks_sending mc), true)
          else (chunks_sending mc, chunks_timer mc) in
        mkMemberChunks ({[guild_id guild]} ∪ chunks_done mc)
          (left1 ∖ {[guild_id guild]}) sending1 timer1
      else mkMemberChunks (chunks_done mc) left1 (chunks_sending mc)
             (chunks_timer mc)
    else mc in
  mkGatewayHandler (emit ClientEvents.GUILD_CREATE c1)
    (loadAllMembers h) mc2.

(** The sweep of one guild channel inside GUILD_DELETE: the channel and
    the messages filed under it go, its typing indicators are emptied. *)
Definition sweep_channel (channelId : string) (c : ShardClient)
    : ShardClient :=
  set_typings (alter (λ _, ∅) channelId)
    (set_messages (store_delete channelId)
       (set_channels (store_delete channelId) c)).

(** The body of the sweep of GUILD_DELETE: the channels of the guild,
    its members, the messages filed under it, its presences and voice
    states; in the per-user mode the messages are gone through one by
    one. *)
Definition sweep_guild (guildId : string) (c : ShardClient) : ShardClient :=
  let swept :=
    foldl (λ acc kv,
             if bool_decide (channel_guildId kv.2 = Some guildId)
             then sweep_channel kv.1 acc else acc)
      c (store_entries (channels c)) in
  let cleared :=
    set_voiceStates (store_delete (Some guildId))
      (set_presences (presences_clearGuildId guildId)
         (set_messages (store_delete guildId)
            (set_members (store_delete guildId) swept))) in
  match messages_type cleared with
  | MessageCacheTypes.USER =>
      foldl (λ acc im,
               if bool_decide (message_guildId im.2 = Some guildId)
               then set_messages
                      (store_delete2 (message_author im.2) im.1) acc
               else acc)
        cleared (messages_entries (messages cleared))
  | _ => cleared
  end.

(** The payload of GUILD_DELETE is a guild payload with the id and, for an
    outage, the unavailable flag. *)
Definition GUILD_DELETE (data : RawGuild) (h : GatewayHandler)
    : GatewayHandler :=
  let guildId := raw_guild_id data in
  let isUnavailable := default false (raw_unavailable data) in
  let mc := memberChunks h in
  let mc1 :=
    mkMemberChunks (chunks_done mc ∖ {[guildId]}) (chunks_left mc)
      (sending_delete guildId (chunks_sending mc)) (chunks_timer mc) in
  let c := client h in
  let '(c1, isNew) :=
    match store_get (guilds c) guildId with
    | Some g =>
        (set_guilds (store_update guildId (λ _, Guild_merge data g)) c,
         false)
    | None =>
        let g := Guild_new data in
        (set_guilds (store_insert (guild_id g) g) c, true)
    end in
  let c2 :=
    if negb isNew || negb (enabled (guilds c1))
    then sweep_guild guildId c1 else c1 in
  let c3 :=
    if negb isUnavailable then set_guilds (store_delete guildId) c2
    else c2 in
  mkGatewayHandler (emit ClientEvents.GUILD_DELETE c3)
    (loadAllMembers h) mc1.

Definition GUILD_MEMBER_ADD (data : GuildMemberAdd) (h : GatewayHandler)
    : GatewayHandler :=
  let guildId := guild_member_add_guild_id data in
  let userId := raw_user_id (raw_member_user (guild_member_add_member data)) in
  let c := client h in
  let c1 :=
    match store_get2 (members c) guildId userId with
    | Some member =>
        let '(c', member') :=
          Member_merge (GuildMemberAdd_data data) (c, member) in
        set_members (store_update2 guildId userId (λ _, member')) c'
    | None =>
        let '(c', member) := Member_new c (GuildMemberAdd_data data) in
        members_insert member c'
    end in
  let c2 :=
    if store_has (guilds c1) guildId then
      set_guilds
        (store_update guildId
           (λ g, mkGuild (guild_id g) (Number_add (memberCount g) 1)
                   (guild_roles g) (unavailable g)))
        c1
    else c1 in
  with_client (λ _, emit ClientEvents.GUILD_MEMBER_ADD c2) h.

(** [member.roles.delete(roleId)]: on the stored collection when there is
    one; otherwise the accessor hands out a fresh collection and the
    member is left as it is. *)
Definition Member_roles_delete (roleId : string) (m : Member) : Member :=
  match _roles m with
  | Some roles => Member_with_roles (Some (delete roleId roles)) m
  | None => m
  end.

Definition GUILD_ROLE_DELETE (data : GuildRoleDelete) (h : GatewayHandler)
    : GatewayHandler :=
  let guildId := guild_role_delete_guild_id data in
  let roleId := guild_role_delete_role_id data in
  let c := client h in
  let c1 :=
    match store_get (guilds c) guildId with
    | Some guild =>
        match guild_roles guild !! roleId with
        | Some _ =>
            set_guilds
              (store_update guildId
                 (λ g, mkGuild (guild_id g) (memberCount g)
                         (delete roleId (guild_roles g)) (unavailable g)))
              c
        | None => c
        end
    | None => c
    end in
  let c2 :=
    match store_get (members c1) guildId with
    | Some _ =>
        set_members
          (store_update guildId (fmap (Member_roles_delete roleId))) c1
    | None => c1
    end in
  with_client (λ _, emit ClientEvents.GUILD_ROLE_DELETE c2) h.

Section ReactionAdd.
(** The [Reaction] class is not part of the sources at hand and the spec
    does not give its constructor: the reaction that
    [new Reaction(client, data)] builds is a parameter.  Modelled from the
    spec: [reaction.merge({count, me})] assigns the two fields (merge
    contract, 4.1). *)
Variable Reaction_new : ShardClient → MessageReaction → Reaction.

Definition MESSAGE_REACTION_ADD (data : MessageReaction)
    (h : GatewayHandler) : GatewayHandler :=
  let c := client h in
  let messageId := reaction_message_id data in
  let userId := reaction_user_id data in
  let emojiId := emojiId_of (reaction_emoji_data data) in
  let cacheKey :=
    messages_cacheKey (messages_type c) (reaction_channel_id data)
      (reaction_guild_id data) in
  let found := messages_find (messages c) cacheKey messageId in
  let existing :=
    found ≫= λ km, _reactions km.2 ≫= λ reactions, reactions !! emojiId in
  let reaction := default (Reaction_new c data) existing in
  let merged :=
    mkReaction (reaction_emoji reaction) (Number_add (count reaction) 1)
      (is_me c userId || me reaction) in
  let c1 :=
    match found with
    | Some (k, message) =>
        let reactions := default ∅ (_reactions message) in
        set_messages
          (store_update2 k messageId
             (λ _, Message_with_reactions
                     (Some (<[emojiId := merged]> reactions)) message))
          c
    | None => c
    end in
  with_client (λ _, emit ClientEvents.MESSAGE_REACTION_ADD c1) h.

End ReactionAdd.

Definition MESSAGE_REACTION_REMOVE (data : MessageReaction)
    (h : GatewayHandler) : GatewayHandler :=
  let c := client h in
  let messageId := reaction_message_id data in
  let userId := reaction_user_id data in
  let emojiId := emojiId_of (reaction_emoji_data data) in
  let cacheKey :=
    messages_cacheKey (messages_type c) (reaction_channel_id data)
      (reaction_guild_id data) in
  let c1 :=
    match messages_find (messages c) cacheKey messageId with
    | Some (k, message) =>
        match _reactions message with
        | Some reactions =>
            match reactions !! emojiId with
            | Some reaction =>
                let merged :=
                  mkReaction (reaction_emoji reaction)
                    (Z.min (Number_sub (count reaction) 1) 0)
                    (me reaction && negb (is_me c userId)) in
                let reactions1 := <[emojiId := merged]> reactions in
                let reactions2 :=
                  if (count merged <=? 0)%Z then
                    let rest := delete emojiId reactions1 in
                    if Nat.eqb (size rest) 0 then None else Some rest
                  else Some reactions1 in
                set_messages
                  (store_update2 k messageId
                     (λ _, Message_with_reactions reactions2 message))
                  c
            | None => c
            end
        | None => c
        end
    | None => c
    end in
  with_client (λ _, emit ClientEvents.MESSAGE_REACTION_REMOVE c1) h.

Definition MESSAGE_REACTION_REMOVE_ALL (data : MessageReactionRemoveAll)
    (h : GatewayHandler) : GatewayHandler :=
  let c := client h in
  let messageId := remove_all_message_id data in
  let cacheKey :=
    messages_cacheKey (messages_type c) (remove_all_channel_id data)
      (remove_all_guild_id data) in
  let c1 :=
    match messages_find (messages c) cacheKey messageId with
    | Some (k, message) =>
        match _reactions message with
        | Some _ =>
            set_messages
              (store_update2 k messageId
                 (λ _, Message_with_reactions None message))
              c
        | None => c
        end
    | None => c
    end in
  with_client (λ _, emit ClientEvents.MESSAGE_REACTION_REMOVE_ALL c1) h.

Definition VOICE_STATE_UPDATE (data : VoiceStateUpdate)
    (h : GatewayHandler) : GatewayHandler :=
  let c := client h in
  let userId := voice_state_user_id data in
  let serverId :=
    Js.or_else (voice_state_guild_id data) (voice_state_channel_id data) in
  let c1 :=
    match store_get2 (voiceStates c) serverId userId with
    | Some _ =>
        let merged :=
          set_voiceStates
            (store_update2 serverId userId (VoiceState_merge data)) c in
        if Js.falsy (voice_state_channel_id data)
        then set_voiceStates (store_delete2 serverId userId) merged
        else merged
    | None =>
        let voiceState := VoiceState_new data in
        set_voiceStates
          (store_insert2 (VoiceState_serverId voiceState)
             (voice_userId voiceState) voiceState)
          c
    end in
  with_client (λ _, emit ClientEvents.VOICE_STATE_UPDATE c1) h.

(** Modelled from the spec: [guild.members.has(userId)]; the members of a
    guild are the members cached under its id (4.3). *)
Definition Guild_members_has (c : ShardClient) (g : Guild) (userId : string)
    : bool :=
  store_has2 (members c) (guild_id g) userId.

(** Modelled from the spec: [presence._deleteGuildId(guildId)] is not part
    of the sources at hand; the presence is detached from the guild (3). *)
Definition Presence_deleteGuildId (guildId : string) (p : Presence)
    : Presence :=
  mkPresence (presence_user p) (guildIds p ∖ {[guildId]}).

(** Modelled from the spec: [typing._stop(false)] is not part of the
    sources at hand; a stopped typing indicator leaves its channel's
    collection (3). *)
Definition Typing_stop (userId : string)
    (caches : gmap string (gmap string unit)) : gmap string (gmap string unit) :=
  delete userId <$> caches.

(** The merge into the cached user acts on the object of the user store.
    In the code the members the user has in other guilds hold that object
    and show the merge; here they keep the user as they had it, see
    [Member]. *)
Definition GUILD_MEMBER_REMOVE (data : GuildMemberRemove)
    (h : GatewayHandler) : GatewayHandler :=
  let guildId := guild_member_remove_guild_id data in
  let raw := guild_member_remove_user data in
  let c := client h in
  let '(c1, user) :=
    match store_get (users c) (raw_user_id raw) with
    | Some u =>
        let u' := User_merge raw u in
        (set_users (store_update (raw_user_id raw) (λ _, u')) c, u')
    | None => (c, User_new raw)
    end in
  let c2 :=
    if store_has (guilds c1) guildId then
      set_guilds
        (store_update guildId
           (λ g, mkGuild (guild_id g) (Number_sub (memberCount g) 1)
                   (guild_roles g) (unavailable g)))
        c1
    else c1 in
  let c3 :=
    match store_get (presences c2) (user_id user) with
    | Some presence =>
        let presence' := Presence_deleteGuildId guildId presence in
        let updated :=
          set_presences (store_update (user_id user) (λ _, presence')) c2 in
        if Nat.eqb (size (guildIds presence')) 0
        then set_presences (store_delete (user_id user)) updated
        else updated
    | None => c2
    end in
  let c4 := set_typings (Typing_stop (user_id user)) c3 in
  let c5 :=
    set_voiceStates (store_delete2 (Some guildId) (user_id user))
      (set_members (store_delete2 guildId (user_id user)) c4) in
  let sharesGuilds :=
    existsb (λ kv, Guild_members_has c5 kv.2 (user_id user))
      (store_entries (guilds c5)) in
  let sharesDms :=
    existsb (λ kv, bool_decide (user_id user ∈ recipients kv.2))
      (store_entries (channels c5)) in
  let c6 :=
    if sharesGuilds then c5
    else if sharesDms then c5
    else if store_has (relationships c5) (user_id user) then c5
    else set_users (store_delete (user_id user)) c5 in
  with_client (λ _, emit ClientEvents.GUILD_MEMBER_REMOVE c6) h.

(** Modelled from the spec: the [Role] structure is not part of the sources
    at hand; its merge assigns the fields of the payload (4.1), which has
    no guild id. *)
Definition Role_merge (raw : Role) (role : Role) : Role :=
  mkRole (role_id raw) (role_guildId role) (role_color raw)
    (role_permissions raw) (role_position raw).

(** [data.role.guild_id = guildId; new Role(client, data.role)] *)
Definition Role_new (guildId : string) (raw : Role) : Role :=
  mkRole (role_id raw) guildId (role_color raw) (role_permissions raw)
    (role_position raw).

(** [if (member.roles.has(role.id)) member.roles.set(role.id, role)]: on
    the stored collection when there is one; the collection the accessor
    makes up otherwise is dropped after the call. *)
Definition Member_roles_fill (role : Role) (m : Member) : Member :=
  match _roles m with
  | Some roles =>
      match roles !! role_id role with
      | Some _ => Member_with_roles (Some (<[role_id role := Some role]> roles)) m
      | None => m
      end
  | None => m
  end.

Definition GUILD_ROLE_CREATE (data : GuildRoleCreate) (h : GatewayHandler)
    : GatewayHandler :=
  let guildId := guild_role_create_guild_id data in
  let raw := guild_role_create_role data in
  let c := client h in
  let '(c1, role) :=
    match store_get (guilds c) guildId with
    | Some guild =>
        let role :=
          match guild_roles guild !! role_id raw with
          | Some role => Role_merge raw role
          | None => Role_new guildId raw
          end in
        (set_guilds
           (store_update guildId
              (λ g, mkGuild (guild_id g) (memberCount g)
                      (<[role_id role := role]> (guild_roles g))
                      (unavailable g)))
           c,
         role)
    | None => (c, Role_new guildId raw)
    end in
  let c2 :=
    match store_get (members c1) guildId with
    | Some _ =>
        set_members (store_update guildId (fmap (Member_roles_fill role))) c1
    | None => c1
    end in
  with_client (λ _, emit ClientEvents.GUILD_ROLE_CREATE c2) h.

Definition MESSAGE_DELETE (data : MessageDelete) (h : GatewayHandler)
    : GatewayHandler :=
  let c := client h in
  let cacheKey :=
    messages_cacheKey (messages_type c) (message_delete_channel_id data)
      (message_delete_guild_id data) in
  let c1 :=
    match messages_find (messages c) cacheKey (message_delete_id data) with
    | Some (k, _) =>
        set_messages (store_delete2 k (message_delete_id data)) c
    | None => c
    end in
  with_client (λ _, emit ClientEvents.MESSAGE_DELETE c1) h.

(** The loop of MESSAGE_DELETE_BULK over the ids: the client after it and
    the collection of the notification, which has the message that was
    cached, or null, under each id. *)
Definition MESSAGE_DELETE_BULK_loop (data : MessageDeleteBulk)
    (c : ShardClient) : ShardClient * gmap string (option Message) :=
  let cacheKey :=
    messages_cacheKey (messages_type c) (message_delete_bulk_channel_id data)
      (message_delete_bulk_guild_id data) in
  foldl (λ acc messageId,
           match messages_find (messages acc.1) cacheKey messageId with
           | Some (k, message) =>
               (set_messages (store_delete2 k messageId) acc.1,
                <[messageId := Some message]> acc.2)
           | None => (acc.1, <[messageId := None]> acc.2)
           end)
    (c, ∅) (message_delete_bulk_ids data).

Definition MESSAGE_DELETE_BULK (data : MessageDeleteBulk)
    (h : GatewayHandler) : GatewayHandler :=
  with_client
    (λ c, emit ClientEvents.MESSAGE_DELETE_BULK
            (MESSAGE_DELETE_BULK_loop data c).1)
    h.

Section ChannelKinds.
(** The channel classes are not part of the sources at hand: whether a
    channel is a text channel and whether it is a guild channel are
    parameters.  The payload is carried as the channel it describes
    ([createChannelFromData]). *)
Variable isText : Channel → bool.
Variable isGuildChannel : Channel → bool.

Definition CHANNEL_DELETE (data : Channel) (h : GatewayHandler)
    : GatewayHandler :=
  let c := client h in
  let '(c1, channel) :=
    match store_get (channels c) (channel_id data) with
    | Some channel =>
        (set_channels (store_delete (channel_id data)) c, channel)
    | None => (c, data)
    end in
  let c2 :=
    if isText channel then
      match messages_type c1 with
      | MessageCacheTypes.CHANNEL =>
          set_messages (store_delete (channel_id channel)) c1
      | MessageCacheTypes.GUILD =>
          if isGuildChannel channel then
            match channel_guildId channel with
            | Some guildId =>
                set_messages
                  (store_update guildId
                     (filter (λ im : string * Message,
                                message_channelId im.2 ≠ channel_id channel)))
                  c1
            | None => c1
            end
          else set_messages (store_delete (channel_id channel)) c1
      | MessageCacheTypes.USER =>
          foldl (λ acc im,
                   if bool_decide (message_channelId im.2 = channel_id channel)
                   then set_messages
                          (store_delete2 (message_author im.2) im.1) acc
                   else acc)
            c1 (messages_entries (messages c1))
      end
    else c1 in
  with_client (λ _, emit ClientEvents.CHANNEL_DELETE c2) h.

End ChannelKinds.

End GatewayDispatchHandler.

(** ** The gateway handler: construction and routing *)

Record GatewayHandlerOptions : Type := mkGatewayHandlerOptions {
  options_disabledEvents : option (list string);
  options_loadAllMembers : option bool;
  options_whitelistedEvents : option (list string);
}.

Record GatewayPacket (D : Type) : Type := mkGatewayPacket {
  packet_op : Z;
  packet_d : D;
  packet_t : string;
}.

Arguments mkGatewayPacket {D} _ _ _.
Arguments packet_op {D} _.
Arguments packet_d {D} _.
Arguments packet_t {D} _.

(** [GatewayHandler] with the set of disabled events, which the record of
    the handlers above leaves out. *)
Record GatewayRouter : Type := mkGatewayRouter {
  router_handler : GatewayHandler;
  disabledEvents : gset string;
}.

Section Routing.
(** The constants and the string functions of the platform are not part of
    the sources at hand: the event names [Object.values(GatewayDispatchEvents)],
    the name of the READY event, the DISPATCH opcode and [toUpperCase] are
    parameters; so are the raw payloads [D], the handler the dispatch
    handler object has for a name, and whether a listener for the raw event
    is registered. *)
Variable toUpperCase : string → string.
Variable GatewayDispatchEvents_values : list string.
Variable GatewayDispatchEvents_READY : string.
Variable GatewayOpCodes_DISPATCH : Z.
Variable D : Type.
Variable getHandler : string → option (D → GatewayHandler → GatewayHandler).
Variable hasRawListener : bool.

(** [new GatewayHandler(client, options)] *)
Definition GatewayHandler_new (client : ShardClient)
    (options : GatewayHandlerOptions) : GatewayRouter :=
  let disabled : gset string :=
    list_to_set (toUpperCase <$> default [] (options_disabledEvents options)) in
  let disabled1 : gset string :=
    match options_whitelistedEvents options with
    | Some whitelisted =>
        let cleared : gset string := ∅ in
        let all :=
          foldl (λ acc event, {[event]} ∪ acc) cleared
            GatewayDispatchEvents_values in
        foldl (λ acc event, acc ∖ {[toUpperCase event]}) all whitelisted
    | None => disabled
    end in
  mkGatewayRouter
    (mkGatewayHandler client (default false (options_loadAllMembers options))
       (mkMemberChunks ∅ ∅ [] false))
    (disabled1 ∖ {[GatewayDispatchEvents_READY]}).

(** [onPacket(packet)] *)
Definition onPacket (packet : GatewayPacket D) (r : GatewayRouter)
    : GatewayRouter :=
  if bool_decide (packet_op packet ≠ GatewayOpCodes_DISPATCH) then r
  else
    let h1 :=
      if hasRawListener
      then with_client (emit ClientEvents.RAW) (router_handler r)
      else router_handler r in
    if bool_decide (packet_t packet ∈ disabledEvents r)
    then mkGatewayRouter h1 (disabledEvents r)
    else
      match getHandler (packet_t packet) with
      | Some handler =>
          mkGatewayRouter (handler (packet_d packet) h1) (disabledEvents r)
      | None =>
          mkGatewayRouter (with_client (emit ClientEvents.UNKNOWN) h1)
            (disabledEvents r)
      end.

End Routing.

(** ** The inter-process protocol *)

Module ClusterIPCOpCodes.
Inductive t : Type := READY | CLOSE | RECONNECTING | RESPAWN_ALL | EVAL.
End ClusterIPCOpCodes.

Module ClusterIPCTypes.

(** [{message, name, stack}] *)
Record ErrorData : Type := mkErrorData {
  message : option string;
  name : option string;
  stack : option string;
}.

(** The values an evaluation hands back, as far as the protocol tells
    them apart. *)
Inductive JsValue : Type :=
| JsUndefined
| JsNull
| JsBool (b : bool)
| JsNumber (n : Z)
| JsString (s : string)
| JsError (e : ErrorData).

(** The evaluate payload; a key that is not there reads as [JsUndefined],
    [None] or [false]. *)
Record Eval : Type := mkEval {
  code : string;
  nonce : string;
  result : JsValue;
  error : option ErrorData;
  ignored : bool;
  results : option (list (JsValue * bool));
}.

Record IPCMessage : Type := mkIPCMessage {
  op : ClusterIPCOpCodes.t;
  data : Eval;
  request : bool;
  shard : option Z;
}.

(** [{code, nonce}] *)
Definition Eval_request (code nonce : string) : Eval :=
  mkEval code nonce JsUndefined None false None.

(** [{...data, ignored: true}] *)
Definition Eval_with_ignored (data : Eval) : Eval :=
  mkEval (code data) (nonce data) (result data) (error data) true
    (results data).

(** [{...data, result}] *)
Definition Eval_with_result (value : JsValue) (data : Eval) : Eval :=
  mkEval (code data) (nonce data) value (error data) (ignored data)
    (results data).

(** [{...data, error: {message, name, stack}}] *)
Definition Eval_with_error (e : ErrorData) (data : Eval) : Eval :=
  mkEval (code data) (nonce data) (result data) (Some e) (ignored data)
    (results data).

(** [{...data, results}] *)
Definition Eval_with_results (collected : list (JsValue * bool))
    (data : Eval) : Eval :=
  mkEval (code data) (nonce data) (result data) (error data) (ignored data)
    (Some collected).

End ClusterIPCTypes.

(** ** The worker side: [ClusterProcessChild] *)

Module ClusterProcessChild.
Import ClusterIPCTypes.

(** How a run of [cluster._eval] ends: with a value, or by throwing; a
    thrown [null] or [undefined] has no [message] to read. *)
Inductive EvalRun : Type :=
| Returns (value : JsValue)
| Throws (thrown : option ErrorData).

Record t : Type := mkChild {
  shards : gset Z;
  sent : list IPCMessage;
  evaluated : list string;
  warnings : nat;
}.

Section Worker.
(** The cluster client is not part of the sources at hand: what its
    [_eval] does with a piece of code is a parameter, and so is whether
    the channel to the parent reports an error for a message. *)
Variable cluster_eval : string → EvalRun.
Variable send_error : IPCMessage → option ErrorData.

(** [sendIPC(op, data)]: the message goes to [process.send]; the result
    is the error the send is rejected with, if any. *)
Definition sendIPC (op : ClusterIPCOpCodes.t) (data : Eval) (p : t)
    : t * option ErrorData :=
  let m := mkIPCMessage op data false None in
  (mkChild (shards p) (sent p ++ [m]) (evaluated p) (warnings p),
   send_error m).

(** [cluster.emit(ClientEvents.WARN, {error})] *)
Definition warn (p : t) : t :=
  mkChild (shards p) (sent p) (evaluated p) (S (warnings p)).

Definition warn_on_error (r : t * option ErrorData) : t :=
  match r.2 with
  | Some _ => warn r.1
  | None => r.1
  end.

(** [onMessage(message)] for a message of the shape of [IPCMessage]. *)
Definition onMessage (m : IPCMessage) (p : t) : t :=
  match op m with
  | ClusterIPCOpCodes.EVAL =>
      if request m then
        let data := data m in
        let foreign :=
          match shard m with
          | Some s => negb (bool_decide (s ∈ shards p))
          | None => false
          end in
        if foreign then
          warn_on_error
            (sendIPC ClusterIPCOpCodes.EVAL (Eval_with_ignored data) p)
        else
          let p1 :=
            mkChild (shards p) (sent p) (evaluated p ++ [code data])
              (warnings p) in
          let attempt :=
            match cluster_eval (code data) with
            | Returns value =>
                let r :=
                  sendIPC ClusterIPCOpCodes.EVAL
                    (Eval_with_result value data) p1 in
                (r.1, Some <$> r.2)
            | Throws thrown => (p1, Some thrown)
            end in
          match attempt.2 with
          | None => attempt.1
          | Some (Some e) =>
              warn_on_error
                (sendIPC ClusterIPCOpCodes.EVAL
                   (Eval_with_error e data) attempt.1)
          | Some None => warn attempt.1
          end
      else p
  | _ => p
  end.

End Worker.

End ClusterProcessChild.

(** ** The supervisor side: [ClusterProcess] *)

Module ClusterProcess.
Import ClusterIPCTypes.

(** What a call of [eval] resolves to: [null], or the pair of a value and
    the is-error flag. *)
Definition Resolution : Type := option (JsValue * bool).

(** The state of a promise.  Promises live in a heap and are named by
    their position in it. *)
Inductive PromiseState : Type :=
| Pending
| Resolved (value : Resolution)
| Rejected (reason : ErrorData).

(** An entry of [_evalsWaiting]: [promise] names the inner promise,
    [resolve] and [reject] the promise they settle, which is the outer
    one. *)
Record Waiting : Type := mkWaiting {
  promise : nat;
  resolve : nat;
  reject : nat;
}.

(** A [listener] closure registered on a child: the child it sits on, the
    nonce it waits for and the inner promise its [res] settles. *)
Record Listener : Type := mkListener {
  listener_child : nat;
  listener_nonce : string;
  listener_res : nat;
}.

(** What the cluster process emits: ['ready'], ['shardClose'] with
    [{...data, shardId}], ['shardReconnecting'], ['close'] with
    [{code, signal}], and ['warn']. *)
Inductive Emitted : Type :=
| EmitReady
| EmitShardClose (data : Eval) (shardId : option Z)
| EmitShardReconnecting
| EmitClose (exit_code : option Z) (signal : option string)
| EmitWarn.

Record t : Type := mkProcess {
  process : option nat;
  forked : nat;
  respawn : bool;
  _evalsWaiting : gmap string Waiting;
  promises : list PromiseState;
  chained : list (nat * nat);
  listeners : list Listener;
  sent : list (nat * IPCMessage);
  emitted : list Emitted;
}.

(** [code] as [eval] takes it: source text, or a function that is turned
    into a call of its source text. *)
Inductive Code : Type :=
| CodeString (s : string)
| CodeFunction (source : string).

Definition Code_text (c : Code) : string :=
  match c with
  | CodeString s => s
  | CodeFunction source => "(" +:+ source +:+ ")(this)"
  end.

(** Settling a promise: once settled, a promise keeps its state. *)
Definition settle (p : nat) (s : PromiseState) (heap : list PromiseState)
    : list PromiseState :=
  match heap !! p with
  | Some Pending => <[p := s]> heap
  | _ => heap
  end.

(** The chains [promise.then(resolve).catch(reject)] from the inner
    promise [p]: the outer promise of each is settled the same way. *)
Definition settle_links (p : nat) (s : PromiseState) (links : list (nat * nat))
    (heap : list PromiseState) : list PromiseState :=
  foldl (λ acc link, if Nat.eqb link.1 p then settle link.2 s acc else acc)
    heap links.

(** Settling the inner promise [p]: its chains run before the next message
    or exit is handled. *)
Definition settle_chained (p : nat) (s : PromiseState)
    (links : list (nat * nat)) (heap : list PromiseState)
    : list PromiseState :=
  match heap !! p with
  | Some Pending => settle_links p s links (<[p := s]> heap)
  | _ => heap
  end.

(** What the listener of [eval] resolves the inner promise with. *)
Definition resolution_of (data : Eval) : Resolution :=
  if ignored data then None
  else match error data with
       | Some e => Some (JsError e, true)
       | None => Some (result data, false)
       end.

(** One [listener] of [eval] seeing a message of the child it sits on. *)
Definition run_listener (m : IPCMessage) (l : Listener) (st : t) : t :=
  match op m with
  | ClusterIPCOpCodes.EVAL =>
      if String.eqb (nonce (data m)) (listener_nonce l) then
        mkProcess (process st) (forked st) (respawn st)
          (delete (listener_nonce l) (_evalsWaiting st))
          (settle_chained (listener_res l)
             (Resolved (resolution_of (data m))) (chained st)
             (promises st))
          (chained st)
          (filter (λ l', listener_res l' ≠ listener_res l) (listeners st))
          (sent st) (emitted st)
      else st
  | _ => st
  end.

(** The send of the request of the listener [l] is rejected:
    the [catch] of [eval] removes the listener and rejects the inner
    promise. *)
Definition send_failed (l : Listener) (e : ErrorData) (st : t) : t :=
  mkProcess (process st) (forked st) (respawn st) (_evalsWaiting st)
    (settle_chained (listener_res l) (Rejected e) (chained st)
       (promises st))
    (chained st)
    (filter (λ l', listener_res l' ≠ listener_res l) (listeners st))
    (sent st) (emitted st).

Definition show_code (exit_code : option Z) : string :=
  match exit_code with
  | Some n => pretty n
  | None => "null"
  end.

Definition show_signal (signal : option string) : string :=
  default "null" signal.

(** The [Error] that [onExit] builds. *)
Definition exit_error (exit_code : option Z) (signal : option string)
    : ErrorData :=
  mkErrorData
    (Some ("Process has closed with '" +:+ show_code exit_code
           +:+ "' code and '" +:+ show_signal signal +:+ "' signal."))
    (Some "Error") None.

(** [run()] as far as [onExit] waits for nothing of it: a child is
    forked unless there is one.  The promise that [run()] hands back, and
    that its listener for ['ready'] resolves, is not part of the state. *)
Definition run (st : t) : t :=
  match process st with
  | Some _ => st
  | None =>
      mkProcess (Some (forked st)) (S (forked st)) (respawn st)
        (_evalsWaiting st) (promises st) (chained st) (listeners st)
        (sent st) (emitted st)
  end.

Definition onExit (exit_code : option Z) (signal : option string)
    (st : t) : t :=
  let heap :=
    foldl (λ acc item,
             settle (resolve item.2)
               (Resolved (Some (JsError (exit_error exit_code signal), true)))
               acc)
      (promises st) (map_to_list (_evalsWaiting st)) in
  let st1 :=
    mkProcess None (forked st) (respawn st) ∅ heap (chained st)
      (listeners st) (sent st)
      (EmitClose exit_code signal :: emitted st) in
  if respawn st1 then run st1 else st1.

(** [eval(code, nonce)]: the new state and the promise the caller holds,
    by its name in the heap.  The promise of the async function takes the
    state of the promise the function returns, and is not told apart from
    it: the outer promise for a first call, the inner promise of the entry
    for a call that finds one.  The request goes to [child.send] before the
    entry is stored, in the same turn of the event loop. *)
Definition eval (code : Code) (nonce : string) (st : t) : t * nat :=
  match process st with
  | None =>
      let thrown :=
        mkErrorData (Some "Cannot eval without a child!") (Some "Error")
          None in
      (mkProcess (process st) (forked st) (respawn st) (_evalsWaiting st)
         (promises st ++ [Rejected thrown]) (chained st) (listeners st)
         (sent st) (emitted st),
       length (promises st))
  | Some child =>
      match _evalsWaiting st !! nonce with
      | Some waiting => (st, promise waiting)
      | None =>
          let outer := length (promises st) in
          let inner := S outer in
          let m :=
            mkIPCMessage ClusterIPCOpCodes.EVAL
              (Eval_request (Code_text code) nonce) true None in
          (mkProcess (process st) (forked st) (respawn st)
             (<[nonce := mkWaiting inner outer outer]> (_evalsWaiting st))
             (promises st ++ [Pending; Pending])
             (chained st ++ [(inner, outer)])
             (listeners st ++ [mkListener child nonce inner])
             (sent st ++ [(child, m)])
             (emitted st),
           outer)
      end
  end.

Definition emit (e : Emitted) (st : t) : t :=
  mkProcess (process st) (forked st) (respawn st) (_evalsWaiting st)
    (promises st) (chained st) (listeners st) (sent st) (e :: emitted st).

(** [send(message)]: the message goes to the child there is; without a
    child nothing is sent. *)
Definition send (m : IPCMessage) (st : t) : t :=
  match process st with
  | Some child =>
      mkProcess (process st) (forked st) (respawn st) (_evalsWaiting st)
        (promises st) (chained st) (listeners st) (sent st ++ [(child, m)])
        (emitted st)
  | None => st
  end.

(** [sendIPC(op, data)], with [request] false and no [shard]. *)
Definition sendIPC (op : ClusterIPCOpCodes.t) (data : Eval) (st : t) : t :=
  send (mkIPCMessage op data false None) st.

(** Modelled from the spec: [manager.broadcastEvalRaw(code, nonce)], as far
    as it touches this process.  The cluster manager sends the same
    evaluate request to every live worker process (4.5): for this process
    that is a call of [eval] with the code and the nonce of the request.
    The other processes of the manager are no part of this state; what was
    collected from all of them comes in later, see [onMessage_collected]
    and [onMessage_caught]. *)
Definition broadcastEvalRaw (code nonce : string) (st : t) : t :=
  (eval (CodeString code) nonce st).1.

(** [onMessage(message)] up to its first [await], for a message of the
    shape of [IPCMessage].  Each of the five operations returns, so that
    ['message'] is not emitted for any of them. *)
Definition onMessage (m : IPCMessage) (st : t) : t :=
  match op m with
  | ClusterIPCOpCodes.READY => emit EmitReady st
  | ClusterIPCOpCodes.CLOSE => emit (EmitShardClose (data m) (shard m)) st
  | ClusterIPCOpCodes.RECONNECTING => emit EmitShardReconnecting st
  | ClusterIPCOpCodes.RESPAWN_ALL => st
  | ClusterIPCOpCodes.EVAL =>
      if request m then broadcastEvalRaw (code (data m)) (nonce (data m)) st
      else st
  end.

(** [onMessage] after the broadcast for the request [data] has come back
    with [collected]: the results are sent to the child there is now. *)
Definition onMessage_collected (data : Eval)
    (collected : list (JsValue * bool)) (st : t) : t :=
  sendIPC ClusterIPCOpCodes.EVAL (Eval_with_results collected data) st.

(** The inner [catch] of [onMessage]: the broadcast for the request
    [data], or the send of its results, is rejected with [thrown].  The
    error is sent in place of the results; a thrown [null] or [undefined]
    has no [message] to read, which lands in the outer [catch]. *)
Definition onMessage_caught (data : Eval) (thrown : option ErrorData)
    (st : t) : t :=
  match thrown with
  | Some e => sendIPC ClusterIPCOpCodes.EVAL (Eval_with_error e data) st
  | None => emit EmitWarn st
  end.

(** The outer [catch] of [onMessage]: the send of the error is
    rejected. *)
Definition onMessage_warn (st : t) : t := emit EmitWarn st.

(** The child [child] emits ['message']: [onMessage], which [run()] put
    on the child when it forked it, comes first, then every listener of
    [eval] that sat on the child when the message came in. *)
Definition child_message (child : nat) (m : IPCMessage) (st : t) : t :=
  foldl (λ acc l,
           if Nat.eqb (listener_child l) child
           then run_listener m l acc else acc)
    (if (child <? forked st)%nat then onMessage m st else st)
    (listeners st).

(** The names held by listeners and chains point into the heap. *)
Definition heap_closed (st : t) : Prop :=
  (∀ l, l ∈ listeners st → listener_res l < length (promises st))
  ∧ (∀ link, link ∈ chained st →
             link.1 < length (promises st) ∧ link.2 < length (promises st)).

(** The promise that an entry of the table settles is in the heap. *)
Definition waiting_closed (st : t) : Prop :=
  ∀ nonce w, _evalsWaiting st !! nonce = Some w →
             resolve w < length (promises st).

(** What can happen to a cluster process, one event at a time: a call of
    [eval], a message of a child, the exit of the child, the rejection of
    the send of a request, and the ways in which [onMessage] goes on after
    an [await]. *)
Inductive Event : Type :=
| Call (code : Code) (nonce : string)
| Message (child : nat) (m : IPCMessage)
| Exit (exit_code : option Z) (signal : option string)
| SendFailed (l : Listener) (e : ErrorData)
| Collected (data : Eval) (collected : list (JsValue * bool))
| Caught (data : Eval) (thrown : option ErrorData)
| Warned.

Definition step (e : Event) (st : t) : t :=
  match e with
  | Call code nonce => (eval code nonce st).1
  | Message child m => child_message child m st
  | Exit exit_code signal => onExit exit_code signal st
  | SendFailed l e => send_failed l e st
  | Collected data collected => onMessage_collected data collected st
  | Caught data thrown => onMessage_caught data thrown st
  | Warned => onMessage_warn st
  end.

(** [s] occurs inside [t]. *)
Definition mentions (s t : string) : Prop :=
  ∃ before after, t = before +:+ s +:+ after.

End ClusterProcess.

(** ** Predicates used by the further properties *)

(** How often an id is listed. *)
Definition occurrences (id : string) (ids : list string) : nat :=
  length (filter (λ other, other = id) ids).

(** What a member holds itself, its user apart. *)
Definition Member_own_fields (m : Member)
    : option (gmap string (option Role)) * bool * string * option string * Z
      * bool * option string * Z :=
  (_roles m, deaf m, guildId m, hoistedRoleId m, joinedAtUnix m, mute m,
   nick m, premiumSinceUnix m).

(** ** Example states *)

Definition example_everyone : Role := mkRole "g1" "g1" 0 104324673 0.
Definition example_role : Role := mkRole "r1" "g1" 3447003 8 1.

Definition example_guild : Guild :=
  mkGuild "g1" 5 {[ "g1" := example_everyone; "r1" := example_role ]} false.

Definition example_user (id : string) : User := mkUser id id false.

(** A member with an explicit role collection, and one without. *)
Definition example_member_roles : Member :=
  mkMember (Some {[ "g1" := Some example_everyone; "r1" := Some example_role ]})
    false "g1" None 0 false None 0 (example_user "u1").

Definition example_member_plain : Member :=
  mkMember None false "g1" None 0 false None 0 (example_user "u2").

Definition example_message : Message :=
  mkMessage "m1" "u1" "c1" (Some "g1")
    (Some {[ "e1" := mkReaction "e1" 2 false ]}).

Definition example_client : ShardClient :=
  mkShardClient None
    (mkStore true {[ "u1" := example_user "u1"; "u2" := example_user "u2" ]})
    (mkStore true {[ "g1" := example_guild ]})
    (mkStore true
       {[ "g1" := {[ "u1" := example_member_roles;
                     "u2" := example_member_plain ]} ]})
    (mkStore true {[ "c1" := mkChannel "c1" (Some "g1") ∅ ]})
    MessageCacheTypes.GUILD
    (mkStore true {[ "g1" := {[ "m1" := example_message ]} ]})
    (mkStore true ∅)
    (mkStore true ∅)
    ∅
    (mkStore true
       {[ Some "g1" := {[ "u1" := mkVoiceState (Some "c1") (Some "g1") "u1" ]} ]})
    true [] [].

Definition example_handler : GatewayHandler :=
  mkGatewayHandler example_client true (mkMemberChunks ∅ ∅ [] false).

Definition example_guild_delete : RawGuild := mkRawGuild "g1" None None None.

(** The example client with the member store disabled. *)
Definition example_client_members_disabled : ShardClient :=
  set_members (λ _, mkStore false ∅) example_client.

Definition example_handler_members_disabled : GatewayHandler :=
  mkGatewayHandler example_client_members_disabled true
    (mkMemberChunks ∅ ∅ [] false).

Definition example_member_add : GatewayRawEvents.GuildMemberAdd :=
  GatewayRawEvents.mkGuildMemberAdd "g1"
    (mkRawMember (Some false) None None (Some (Some 1572566400000%Z))
       (Some false) (Some None) None (Some ["r1"])
       (mkRawUser "u3" (Some "carol") None)).

Definition example_reaction (emoji : string) : GatewayRawEvents.MessageReaction :=
  GatewayRawEvents.mkMessageReaction "c1" (GatewayRawEvents.mkRawEmoji None emoji)
    (Some "g1") "m1" "u2".

Definition example_voice_left : GatewayRawEvents.VoiceStateUpdate :=
  GatewayRawEvents.mkVoiceStateUpdate None (Some "g1") "u2".

(** A fresh client that loads all members, before its first READY. *)
Definition initial_client : ShardClient :=
  mkShardClient None (mkStore true ∅) (mkStore true ∅) (mkStore true ∅)
    (mkStore true ∅) MessageCacheTypes.CHANNEL (mkStore true ∅)
    (mkStore true ∅) (mkStore true ∅) ∅ (mkStore true ∅) true [] [].

Definition initial_handler : GatewayHandler :=
  mkGatewayHandler initial_client true (mkMemberChunks ∅ ∅ [] false).

(** A session of a bot whose READY lists the guild g1 as unavailable; the
    payload has none of the other sections. *)
Definition example_ready : GatewayRawEvents.Ready unit :=
  GatewayRawEvents.mkReady (mkRawUser "bot" (Some "bot") (Some true))
    [mkRawGuild "g1" None None (Some true)] None None None None.

(** READY for a payload without the other sections: what stands for the
    classes behind them is never called. *)
Definition example_READY
    : GatewayRawEvents.Ready unit → GatewayHandler → GatewayHandler :=
  GatewayDispatchHandler.READY unit (λ _, false) (λ _ _ c, c) (λ _ c, c)
    (λ _, "") (λ _ channel c, (c, channel))
    (λ c _, (c, mkChannel "" None ∅)) (λ _ relationship c, (c, relationship))
    (λ c _, (c, ("", ""))) (λ raw, default false (raw_bot raw)) (λ _ c, c).

(** READY from the payload to the notification, the two calls it waits
    for having gone well. *)
Definition example_READY_session (data : GatewayRawEvents.Ready unit)
    (h : GatewayHandler) : GatewayHandler :=
  GatewayDispatchHandler.READY_filled false
    (GatewayDispatchHandler.READY_fetched false (example_READY data h)).

Definition example_guild_create : RawGuild :=
  mkRawGuild "g1" (Some 5%Z) None (Some false).

(** READY, then the guild becomes available and its members are requested
    when the timer fires, then the session is replaced and READY comes
    again. *)
Definition example_second_session : GatewayHandler :=
  example_READY_session example_ready
    (memberChunks_timer_fire
       (GatewayDispatchHandler.GUILD_CREATE example_guild_create
          (example_READY_session example_ready initial_handler))).

(** A cluster process with a running child and nothing pending. *)
Definition example_process : ClusterProcess.t :=
  ClusterProcess.mkProcess (Some 0) 1 false ∅ [] [] [] [] [].

(** Two callers evaluate under the nonce n1; the second call finds the
    entry of the first. *)
Definition example_two_callers : ClusterProcess.t :=
  (ClusterProcess.eval (ClusterProcess.CodeString "1 + 1") "n1"
     (ClusterProcess.eval (ClusterProcess.CodeString "1 + 1") "n1"
        example_process).1).1.

(** A worker that owns the shards 0 and 1. *)
Definition example_child : ClusterProcessChild.t :=
  ClusterProcessChild.mkChild {[ 0%Z; 1%Z ]} [] [] 0.

(** A worker whose code evaluates to null, on a channel that delivers. *)
Definition example_cluster_eval (code : string) : ClusterProcessChild.EvalRun :=
  ClusterProcessChild.Returns ClusterIPCTypes.JsNull.

Definition example_send_error (m : ClusterIPCTypes.IPCMessage)
    : option ClusterIPCTypes.ErrorData :=
  None.

(** An upper-casing of the ASCII letters, for the event names. *)
Definition example_upper (a : Ascii.ascii) : Ascii.ascii :=
  let n := Ascii.nat_of_ascii a in
  if (97 <=? n)%nat && (n <=? 122)%nat then Ascii.ascii_of_nat (n - 32)
  else a.

Fixpoint example_toUpperCase (s : string) : string :=
  match s with
  | EmptyString => EmptyString
  | String a rest => String (example_upper a) (example_toUpperCase rest)
  end.

Definition example_events : list string :=
  ["READY"; "GUILD_CREATE"; "GUILD_DELETE"].

(** A dispatch handler object that knows READY. *)
Definition example_getHandler (name : string)
    : option (GatewayRawEvents.Ready unit → GatewayHandler → GatewayHandler) :=
  if String.eqb name "READY" then Some example_READY else None.

(** Options that disable READY and GUILD_CREATE, in lower case. *)
Definition example_options : GatewayHandlerOptions :=
  mkGatewayHandlerOptions (Some ["ready"; "guild_create"]) (Some true) None.

(** A session with one guild at hand and one unavailable. *)
Definition example_ready_two : GatewayRawEvents.Ready unit :=
  GatewayRawEvents.mkReady (mkRawUser "bot" (Some "bot") (Some true))
    [mkRawGuild "g1" (Some 5%Z) None (Some false);
     mkRawGuild "g2" None None (Some true)] None None None None.

(** A reaction class whose new reactions have a count of zero and are not
    ours. *)
Definition example_Reaction_new (c : ShardClient)
    (data : GatewayRawEvents.MessageReaction) : Reaction :=
  mkReaction (emojiId_of (GatewayRawEvents.reaction_emoji_data data)) 0 false.

Definition example_member_remove : GatewayRawEvents.GuildMemberRemove :=
  GatewayRawEvents.mkGuildMemberRemove "g1" (mkRawUser "u3" None None).

Definition example_voice_joined : GatewayRawEvents.VoiceStateUpdate :=
  GatewayRawEvents.mkVoiceStateUpdate (Some "c2") (Some "g1") "u2".

Definition example_error : ClusterIPCTypes.ErrorData :=
  ClusterIPCTypes.mkErrorData (Some "boom") (Some "Error") None.

(** A worker whose code throws. *)
Definition example_cluster_eval_throws (code : string)
    : ClusterProcessChild.EvalRun :=
  ClusterProcessChild.Throws (Some example_error).

(** * Properties *)

(** ** Helper lemmas on numbers, folds and stores *)

(** Up to a magnitude of [2 ^ 53] the arithmetic on integers is exact. *)
Lemma Number_round_exact (z : Z) :
  (- 2 ^ 53 ≤ z ≤ 2 ^ 53)%Z → Number_round z = z.
Proof.
  intros Hz. unfold Number_round.
  assert (Habs : (Z.abs z <=? 2 ^ 53)%Z = true) by (apply Z.leb_le; lia).
  by rewrite Habs.
Qed.

Lemma Number_add_exact (a b : Z) :
  (- 2 ^ 53 ≤ a + b ≤ 2 ^ 53)%Z → Number_add a b = (a + b)%Z.
Proof. apply Number_round_exact. Qed.

Lemma Number_sub_exact (a b : Z) :
  (- 2 ^ 53 ≤ a - b ≤ 2 ^ 53)%Z → Number_sub a b = (a - b)%Z.
Proof. apply Number_round_exact. Qed.

Lemma foldl_invariant {A B : Type} (P : A → Prop) (f : A → B → A)
    (l : list B) (a : A) :
  P a → (∀ a b, P a → P (f a b)) → P (foldl f a l).
Proof.
  intros Ha Hstep. revert a Ha.
  induction l as [|b l IH]; intros a Ha; simpl; [done|].
  apply IH. by apply Hstep.
Qed.

Lemma store_get_delete {K V : Type} `{Countable K} (s : Store K V) (k : K) :
  store_get (store_delete k s) k = None.
Proof.
  unfold store_get, store_delete; simpl.
  destruct (enabled s); [apply lookup_delete_eq | done].
Qed.

Lemma store_has_get {K V : Type} `{Countable K} (s : Store K V) (k : K) :
  store_has s k = true ↔ is_Some (store_get s k).
Proof.
  unfold store_has. destruct (store_get s k) as [v|].
  - split; [by eexists | done].
  - split; [done | by intros [v Hv]].
Qed.

Lemma store_get2_update2 {K V : Type} `{Countable K}
    (s : Store K (gmap string V)) (k k' : K) (i i' : string) (f : V → V) :
  store_get2 (store_update2 k i f s) k' i'
  = if bool_decide (k' = k ∧ i' = i) then f <$> store_get2 s k i
    else store_get2 s k' i'.
Proof.
  unfold store_get2, store_get, store_update2. simpl.
  destruct (enabled s); [|by case_bool_decide].
  rewrite lookup_alter. case_decide as Hk.
  - subst k'. destruct (cache s !! k) as [inner|]; simpl.
    + rewrite lookup_alter. case_decide as Hi.
      * subst i'. by rewrite bool_decide_eq_true_2.
      * rewrite bool_decide_eq_false_2; [done|]. by intros [_ ?].
    + by case_bool_decide.
  - rewrite bool_decide_eq_false_2; [done|]. by intros [? _].
Qed.

(** What the lookup of the message store finds is cached under the key it
    reports, in each caching mode. *)
Lemma messages_find_get2 (s : Store string (gmap string Message))
    (cacheKey : option string) (messageId k : string) (message : Message) :
  messages_find s cacheKey messageId = Some (k, message) →
  store_get2 s k messageId = Some message.
Proof.
  unfold messages_find. destruct cacheKey as [k0|].
  - destruct (store_get2 s k0 messageId) as [m|] eqn:Hget; [|done].
    simpl. by intros [= <- <-].
  - destruct (list_find _ _) as [[n [k1 inner]]|] eqn:Hfind; [|done].
    simpl. destruct (inner !! messageId) as [m|] eqn:Hm; [|done].
    simpl. intros [= <- <-].
    apply list_find_Some in Hfind as (Hn & _ & _).
    apply list_elem_of_lookup_2 in Hn.
    unfold store_entries in Hn. unfold store_get2, store_get.
    destruct (enabled s); [|by apply elem_of_nil in Hn].
    apply elem_of_map_to_list in Hn. rewrite Hn. simpl. done.
Qed.

Section GuildDelete.
Import GatewayDispatchHandler.

(** What the sweep leaves of the stores the guild deletion is about. *)
Lemma sweep_guild_frame (guildId : string) (c : ShardClient) :
  let c' := sweep_guild guildId c in
  users c' = users c
  ∧ guilds c' = guilds c
  ∧ members c' = store_delete guildId (members c)
  ∧ voiceStates c' = store_delete (Some guildId) (voiceStates c)
  ∧ messages_type c' = messages_type c.
Proof.
  unfold sweep_guild.
  set (swept := foldl _ c _).
  assert (Hswept : users swept = users c ∧ guilds swept = guilds c
                   ∧ members swept = members c
                   ∧ voiceStates swept = voiceStates c
                   ∧ messages_type swept = messages_type c).
  { subst swept. apply foldl_invariant; [done|].
    intros a [k ch] Ha. simpl. by case_bool_decide. }
  destruct Hswept as (Hu & Hg & Hm & Hv & Ht).
  set (cleared := set_voiceStates _ _).
  assert (Hcleared : users cleared = users c ∧ guilds cleared = guilds c
                     ∧ members cleared = store_delete guildId (members c)
                     ∧ voiceStates cleared
                       = store_delete (Some guildId) (voiceStates c)
                     ∧ messages_type cleared = messages_type c).
  { subst cleared. simpl. by rewrite Hu, Hg, Hm, Hv, Ht. }
  cbv zeta.
  case_eq (messages_type cleared); intros Hmode; try exact Hcleared.
  apply (foldl_invariant
           (λ x, users x = users c ∧ guilds x = guilds c
                 ∧ members x = store_delete guildId (members c)
                 ∧ voiceStates x = store_delete (Some guildId) (voiceStates c)
                 ∧ messages_type x = messages_type c)); [exact Hcleared|].
  intros a [i m] Ha. simpl. by case_bool_decide.
Qed.

(** In the per-guild and per-channel modes the sweep ends with the deletion
    of the collection filed under the guild id. *)
Lemma sweep_guild_messages (guildId : string) (c : ShardClient) :
  messages_type c ≠ MessageCacheTypes.USER →
  store_get (messages (sweep_guild guildId c)) guildId = None.
Proof.
  intros Hmode. unfold sweep_guild.
  set (swept := foldl _ c _).
  assert (Ht : messages_type swept = messages_type c).
  { subst swept. apply foldl_invariant; [done|].
    intros a [k ch] Ha. simpl. by case_bool_decide. }
  cbv zeta.
  replace (messages_type (set_voiceStates _ _)) with (messages_type c)
    by (simpl; by rewrite Ht).
  destruct (messages_type c); try done; simpl; apply store_get_delete.
Qed.

(** C1. Handling GUILD_DELETE for a guild that is cached leaves no member
    and no voice state filed under the guild, in the per-guild message mode
    no message filed under it either, and takes no user out of the user
    store. *)
Theorem GUILD_DELETE_sweeps_guild (data : RawGuild) (h : GatewayHandler) :
  store_has (guilds (client h)) (raw_guild_id data) = true →
  let c' := client (GUILD_DELETE data h) in
  let g := raw_guild_id data in
  (store_get (members c') g = None
   ∧ ∀ userId, store_get2 (members c') g userId = None)
  ∧ (store_get (voiceStates c') (Some g) = None
     ∧ ∀ userId, store_get2 (voiceStates c') (Some g) userId = None)
  ∧ (messages_type (client h) = MessageCacheTypes.GUILD →
     store_get (messages c') g = None
     ∧ ∀ messageId, store_get2 (messages c') g messageId = None)
  ∧ (∀ userId u, store_get (users (client h)) userId = Some u →
                 store_get (users c') userId = Some u).
Proof.
  intros Hhas c' g. subst c'. unfold GUILD_DELETE. fold g.
  apply store_has_get in Hhas as [guild Hguild]. fold g in Hguild.
  rewrite Hguild. cbv zeta. simpl negb. simpl orb. cbv iota.
  set (c1 := set_guilds _ (client h)).
  destruct (sweep_guild_frame g c1) as (Hu & _ & Hm & Hv & Ht).
  assert (Hmsg : messages_type (client h) = MessageCacheTypes.GUILD →
                 store_get (messages (sweep_guild g c1)) g = None).
  { intros Hmode. apply sweep_guild_messages. subst c1. simpl.
    by rewrite Hmode. }
  assert (Hc : ∀ c3, (c3 = sweep_guild g c1
                      ∨ c3 = set_guilds (store_delete g) (sweep_guild g c1)) →
     users c3 = users (client h)
     ∧ members c3 = store_delete g (members (client h))
     ∧ voiceStates c3 = store_delete (Some g) (voiceStates (client h))
     ∧ messages c3 = messages (sweep_guild g c1)).
  { intros c3 [-> | ->]; simpl; by rewrite Hu, Hm, Hv. }
  set (c3 := if negb _ then _ else _).
  destruct (Hc c3) as (Hu3 & Hm3 & Hv3 & Hmsg3).
  { subst c3. destruct (negb _); auto. }
  simpl. rewrite Hu3, Hm3, Hv3, Hmsg3.
  repeat split.
  - apply store_get_delete.
  - intros userId. unfold store_get2. by rewrite store_get_delete.
  - apply store_get_delete.
  - intros userId. unfold store_get2. by rewrite store_get_delete.
  - by apply Hmsg.
  - intros messageId. unfold store_get2. by rewrite Hmsg.
  - done.
Qed.

End GuildDelete.

(** Witness for C1: the example guild is deleted. *)
Lemma GUILD_DELETE_sweeps_guild_witness :
  store_has (guilds (client example_handler)) "g1" = true
  ∧ store_get
      (members
         (client
            (GatewayDispatchHandler.GUILD_DELETE example_guild_delete
               example_handler)))
      "g1" = None
  ∧ store_get
      (users
         (client
            (GatewayDispatchHandler.GUILD_DELETE example_guild_delete
               example_handler)))
      "u1" = Some (example_user "u1").
Proof.
  assert (H : store_has (guilds (client example_handler))
                (raw_guild_id example_guild_delete) = true)
    by (vm_compute; reflexivity).
  split; [exact H|].
  destruct (GUILD_DELETE_sweeps_guild example_guild_delete example_handler H)
    as ((Hm & _) & _ & _ & Hu).
  split; [exact Hm|]. apply Hu. vm_compute. reflexivity.
Defined.

Section GuildRoleDelete.
Import GatewayDispatchHandler GatewayRawEvents.

(** C2, as the code has it. After GUILD_ROLE_DELETE for guild [g] and role
    [r], the cached guild [g] has no role [r], and the role collection of
    every member cached under [g] has no entry [r], unless the member has
    no stored role collection and [r] is the member's guild id: the
    accessor then still hands out the default-role entry. *)
Theorem GUILD_ROLE_DELETE_removes_role (data : GuildRoleDelete)
    (h : GatewayHandler) :
  let g := guild_role_delete_guild_id data in
  let r := guild_role_delete_role_id data in
  let c' := client (GUILD_ROLE_DELETE data h) in
  (∀ guild', store_get (guilds c') g = Some guild' →
             guild_roles guild' !! r = None)
  ∧ (∀ userId member, store_get2 (members c') g userId = Some member →
       is_Some (_roles member) ∨ r ≠ guildId member →
       Member_roles c' member !! r = None).
Proof.
  intros g r c'. subst c'. unfold GUILD_ROLE_DELETE. fold g r.
  set (c1 := match store_get (guilds (client h)) g with
             | Some _ => _ | None => _ end).
  assert (Hc1 : members c1 = members (client h)
                ∧ ∀ guild', store_get (guilds c1) g = Some guild' →
                            guild_roles guild' !! r = None).
  { subst c1. destruct (store_get (guilds (client h)) g) as [guild|] eqn:Hg.
    - destruct (guild_roles guild !! r) eqn:Hr.
      + simpl. split; [done|]. intros guild'.
        unfold store_get, store_update in *. simpl.
        destruct (enabled (guilds (client h))); [|done].
        rewrite lookup_alter_eq, Hg. simpl. intros [= <-]. simpl.
        apply lookup_delete_eq.
      + split; [done|]. intros guild'. rewrite Hg. by intros [= <-].
    - split; [done|]. intros guild'. by rewrite Hg. }
  destruct Hc1 as [Hms Hguild].
  set (c2 := match store_get (members c1) g with
             | Some _ => _ | None => _ end).
  assert (Hgs : guilds c2 = guilds c1).
  { subst c2. by destruct (store_get (members c1) g). }
  simpl. split.
  - rewrite Hgs. exact Hguild.
  - intros userId member Hmember Hcond.
    assert (Hdeleted : ∃ m, member = Member_roles_delete r m).
    { subst c2. unfold store_get2 in Hmember.
      destruct (store_get (members c1) g) as [inner|] eqn:Hinner.
      - unfold store_get, store_update in *. simpl in Hmember.
        destruct (enabled (members c1)); [|done].
        rewrite lookup_alter_eq, Hinner in Hmember. simpl in Hmember.
        rewrite lookup_fmap in Hmember.
        destruct (inner !! userId) as [m|]; [|done].
        simpl in Hmember. injection Hmember as <-. by exists m.
      - by rewrite Hinner in Hmember. }
    destruct Hdeleted as [m ->].
    unfold Member_roles, Member_roles_delete in *.
    destruct (_roles m) as [roles|] eqn:Hroles; simpl.
    + apply lookup_delete_eq.
    + rewrite Hroles. rewrite Hroles in Hcond. simpl in Hcond.
      destruct Hcond as [[? ?]|Hne]; [done|].
      by rewrite lookup_insert_ne.
Qed.

End GuildRoleDelete.

(** Witness for C2: the role r1 of the example guild is deleted. *)
Lemma GUILD_ROLE_DELETE_removes_role_witness :
  let data := GatewayRawEvents.mkGuildRoleDelete "g1" "r1" in
  let c' :=
    client (GatewayDispatchHandler.GUILD_ROLE_DELETE data example_handler) in
  ∃ member, store_get2 (members c') "g1" "u1" = Some member
            ∧ is_Some (_roles member)
            ∧ Member_roles c' member !! "r1" = None.
Proof.
  intros data c'.
  exists (GatewayDispatchHandler.Member_roles_delete "r1" example_member_roles).
  assert (Hm : store_get2 (members c') "g1" "u1"
               = Some (GatewayDispatchHandler.Member_roles_delete "r1"
                         example_member_roles))
    by (vm_compute; reflexivity).
  assert (Hr : is_Some
                 (_roles
                    (GatewayDispatchHandler.Member_roles_delete "r1"
                       example_member_roles)))
    by (eexists; reflexivity).
  split; [exact Hm|]. split; [exact Hr|].
  exact (proj2 (GUILD_ROLE_DELETE_removes_role data example_handler)
           "u1" _ Hm (or_introl Hr)).
Defined.

(** C2, as stated, fails for the role id that is the guild id itself and a
    member without a stored role collection: after the handler the role
    collection of that member still has the entry. *)
Lemma GUILD_ROLE_DELETE_keeps_default_role :
  ¬ (∀ (data : GatewayRawEvents.GuildRoleDelete) (h : GatewayHandler)
       (userId : string) (member : Member),
       let c' := client (GatewayDispatchHandler.GUILD_ROLE_DELETE data h) in
       store_get2 (members c')
         (GatewayRawEvents.guild_role_delete_guild_id data) userId
       = Some member →
       Member_roles c' member
         !! GatewayRawEvents.guild_role_delete_role_id data = None).
Proof.
  intros Hclaim.
  specialize (Hclaim (GatewayRawEvents.mkGuildRoleDelete "g1" "g1")
                example_handler "u2" example_member_plain).
  vm_compute in Hclaim. specialize (Hclaim eq_refl). discriminate.
Qed.

Section GuildMemberAdd.
Import GatewayDispatchHandler GatewayRawEvents.

Lemma Member_mergeValue_plain (c : ShardClient) (m : Member) (f : MemberField) :
  plain_field f →
  let r := Member_mergeValue c m f in
  r.1 = c ∧ guildId r.2 = guildId m ∧ user r.2 = user m.
Proof.
  destruct f as [| | | | | | |value|]; simpl; try done.
  intros _. by destruct value.
Qed.

Lemma Member_merge_plain (fs : list MemberField) (c : ShardClient) (m : Member) :
  Forall plain_field fs →
  let r := foldl (λ acc f, Member_mergeValue acc.1 acc.2 f) (c, m) fs in
  r.1 = c ∧ guildId r.2 = guildId m ∧ user r.2 = user m.
Proof.
  intros Hfs. revert c m.
  induction Hfs as [|f fs Hf _ IH]; intros c m; simpl; [done|].
  destruct (Member_mergeValue_plain c m f Hf) as (Hc & Hg & Hu).
  destruct (Member_mergeValue c m f) as [c1 m1]; simpl in *.
  destruct (IH c1 m1) as (Hc' & Hg' & Hu').
  subst c1. by rewrite Hg', Hu'.
Qed.

Lemma Member_mergeValue_USER (c : ShardClient) (m : Member) (value : RawUser) :
  let r := Member_mergeValue c m (USER value) in
  guilds r.1 = guilds c ∧ members r.1 = members c
  ∧ guildId r.2 = guildId m ∧ Member_id r.2 = raw_user_id value.
Proof.
  simpl. by destruct (store_get (users c) (raw_user_id value)).
Qed.

(** Merging the payload of GUILD_MEMBER_ADD: the guild and member stores
    are left alone, and the member ends up with the guild id and the user
    id of the payload. *)
Lemma Member_merge_GuildMemberAdd (data : GuildMemberAdd) (c : ShardClient)
    (m : Member) :
  let r := Member_merge (GuildMemberAdd_data data) (c, m) in
  guilds r.1 = guilds c ∧ members r.1 = members c
  ∧ guildId r.2 = guild_member_add_guild_id data
  ∧ Member_id r.2
    = raw_user_id (raw_member_user (guild_member_add_member data)).
Proof.
  unfold Member_merge.
  set (plain :=
         omap id
           [ DEAF <$> raw_deaf (guild_member_add_member data);
             HOISTED_ROLE <$> raw_hoisted_role (guild_member_add_member data);
             JOINED_AT <$> raw_joined_at (guild_member_add_member data);
             MUTE <$> raw_mute (guild_member_add_member data);
             NICK <$> raw_nick (guild_member_add_member data);
             PREMIUM_SINCE <$> raw_premium_since (guild_member_add_member data);
             ROLES <$> raw_member_roles (guild_member_add_member data) ]).
  assert (Hfields : RawMember_fields (GuildMemberAdd_data data)
                    = GUILD_ID (guild_member_add_guild_id data)
                        :: plain
                        ++ [USER (raw_member_user (guild_member_add_member data))]).
  { subst plain. unfold RawMember_fields. simpl.
    destruct (raw_deaf _), (raw_hoisted_role _), (raw_joined_at _),
      (raw_mute _), (raw_nick _), (raw_premium_since _),
      (raw_member_roles _); reflexivity. }
  assert (Hplain : Forall plain_field plain).
  { subst plain. simpl.
    destruct (raw_deaf _), (raw_hoisted_role _), (raw_joined_at _),
      (raw_mute _), (raw_nick _), (raw_premium_since _),
      (raw_member_roles _); simpl; repeat constructor. }
  rewrite Hfields. clearbody plain. simpl foldl. rewrite foldl_app.
  set (m1 := mkMember _ _ _ _ _ _ _ _ _).
  destruct (Member_merge_plain plain c m1 Hplain) as (Hc & Hg & Hu).
  destruct (foldl _ (c, m1) plain) as [c2 m2]; simpl in Hc, Hg, Hu.
  subst c2. simpl foldl.
  destruct (Member_mergeValue_USER c m2
              (raw_member_user (guild_member_add_member data)))
    as (Hgs & Hms & Hgid & Hid).
  simpl fst in *. simpl snd in *.
  repeat split; try done. by rewrite Hgid, Hg.
Qed.

Lemma store_has2_insert2 {V : Type} (s : Store string (gmap string V))
    (k i : string) (v : V) :
  enabled s = true → store_has2 (store_insert2 k i v s) k i = true.
Proof.
  intros He. unfold store_has2, store_get2, store_get, store_insert2.
  rewrite He. simpl. rewrite lookup_insert_eq. simpl.
  by rewrite lookup_insert_eq.
Qed.

Lemma store_has2_update2 {V : Type} (s : Store string (gmap string V))
    (k i : string) (f : V → V) :
  store_has2 (store_update2 k i f s) k i = store_has2 s k i.
Proof.
  unfold store_has2, store_get2, store_get, store_update2. simpl.
  destruct (enabled s); [|done].
  rewrite lookup_alter_eq. destruct (cache s !! k) as [inner|]; simpl; [|done].
  rewrite lookup_alter_eq. by destruct (inner !! i).
Qed.

(** C3, as the code has it. For a GUILD_MEMBER_ADD whose guild is cached
    with a member count from [- 2 ^ 53] to below [2 ^ 53], the member
    count of the guild goes up by exactly one, whether or not the member
    was cached before; and the member is in the member store afterwards
    provided that store is enabled.  The count is a double: a count of
    [2 ^ 53] is left as it is. *)
Theorem GUILD_MEMBER_ADD_counts_and_caches (data : GuildMemberAdd)
    (h : GatewayHandler) (guild : Guild) :
  let g := guild_member_add_guild_id data in
  let u := raw_user_id (raw_member_user (guild_member_add_member data)) in
  store_get (guilds (client h)) g = Some guild →
  let c' := client (GUILD_MEMBER_ADD data h) in
  (∃ guild', store_get (guilds c') g = Some guild'
             ∧ ((- 2 ^ 53 ≤ memberCount guild < 2 ^ 53)%Z →
                memberCount guild' = (memberCount guild + 1)%Z)
             ∧ (memberCount guild = (2 ^ 53)%Z →
                memberCount guild' = memberCount guild))
  ∧ (enabled (members (client h)) = true →
     store_has2 (members c') g u = true).
Proof.
  intros g u Hguild c'. subst c'. unfold GUILD_MEMBER_ADD. fold g u.
  set (c1 := match store_get2 _ g u with Some _ => _ | None => _ end).
  assert (Hc1 : guilds c1 = guilds (client h)
                ∧ (enabled (members (client h)) = true →
                   store_has2 (members c1) g u = true)).
  { subst c1. destruct (store_get2 _ g u) as [member|] eqn:Hmember.
    - destruct (Member_merge_GuildMemberAdd data (client h) member)
        as (Hgs & Hms & _ & _).
      destruct (Member_merge _ _) as [c2 member']; simpl in Hgs, Hms.
      simpl. split; [done|]. intros _.
      rewrite store_has2_update2, Hms. unfold store_has2. by rewrite Hmember.
    - unfold Member_new.
      destruct (Member_merge_GuildMemberAdd data (client h)
                  (mkMember None false "" None 0 false None 0
                     (mkUser "" "" false)))
        as (Hgs & Hms & Hgid & Hid).
      destruct (Member_merge _ _) as [c2 member]; simpl in Hgs, Hms, Hgid, Hid.
      unfold members_insert. simpl. split; [done|]. intros He.
      rewrite Hgid, Hid, Hms. by apply store_has2_insert2. }
  destruct Hc1 as [Hgs Hms].
  assert (Hhas : store_has (guilds c1) g = true).
  { rewrite Hgs. apply store_has_get. by eexists. }
  rewrite Hhas. simpl. split.
  - unfold store_get, store_update. simpl.
    unfold store_get in Hguild. rewrite Hgs.
    destruct (enabled (guilds (client h))); [|done].
    rewrite lookup_alter_eq, Hguild. simpl. eexists. split; [done|].
    cbn [memberCount]. split.
    + intros Hrange. apply Number_add_exact. lia.
    + intros ->. vm_compute. reflexivity.
  - intros He. unfold store_has2, store_get2, store_get. simpl.
    specialize (Hms He). unfold store_has2, store_get2, store_get in Hms.
    done.
Qed.

End GuildMemberAdd.

(** Witness for C3: a member joins the example guild of five. *)
Lemma GUILD_MEMBER_ADD_counts_and_caches_witness :
  store_get (guilds (client example_handler)) "g1" = Some example_guild
  ∧ (∃ guild',
       store_get
         (guilds
            (client
               (GatewayDispatchHandler.GUILD_MEMBER_ADD example_member_add
                  example_handler)))
         "g1" = Some guild'
       ∧ memberCount guild' = 6%Z)
  ∧ store_has2
      (members
         (client
            (GatewayDispatchHandler.GUILD_MEMBER_ADD example_member_add
               example_handler)))
      "g1" "u3" = true.
Proof.
  assert (H : store_get (guilds (client example_handler)) "g1"
              = Some example_guild) by (vm_compute; reflexivity).
  split; [exact H|].
  destruct (GUILD_MEMBER_ADD_counts_and_caches example_member_add
              example_handler example_guild H)
    as [(guild' & Hguild' & Hcount & _) Hcached].
  split; [|apply Hcached; reflexivity].
  exists guild'. split; [exact Hguild'|].
  apply Hcount. change (memberCount example_guild) with 5%Z. lia.
Defined.

(** C3, as stated, fails when the member store is disabled: the guild is
    cached, the handler runs, and the member is not in the member store. *)
Lemma GUILD_MEMBER_ADD_member_store_disabled :
  ¬ (∀ (data : GatewayRawEvents.GuildMemberAdd) (h : GatewayHandler),
       store_has (guilds (client h))
         (GatewayRawEvents.guild_member_add_guild_id data) = true →
       store_has2
         (members (client (GatewayDispatchHandler.GUILD_MEMBER_ADD data h)))
         (GatewayRawEvents.guild_member_add_guild_id data)
         (raw_user_id
            (raw_member_user (GatewayRawEvents.guild_member_add_member data)))
       = true).
Proof.
  intros Hclaim.
  specialize (Hclaim example_member_add example_handler_members_disabled).
  vm_compute in Hclaim. specialize (Hclaim eq_refl). discriminate.
Qed.

Section MemberChunking.
Import GatewayDispatchHandler.

(** C7, as the code has it. A GUILD_CREATE for a guild id that is in the
    done set and not in the left set leaves the three sets and the timer as
    they are and requests no member list; a GUILD_DELETE for the guild id
    takes it out of the done set and out of the sending set. *)
Theorem done_guild_is_not_queued_again (data : RawGuild) (h : GatewayHandler) :
  let g := raw_guild_id data in
  g ∈ chunks_done (memberChunks h) →
  g ∉ chunks_left (memberChunks h) →
  (memberChunks (GUILD_CREATE data h) = memberChunks h
   ∧ requestedGuildMembers (client (GUILD_CREATE data h))
     = requestedGuildMembers (client h))
  ∧ (∀ h', (g ∉ chunks_done (memberChunks (GUILD_DELETE data h')))
           ∧ (g ∉ chunks_sending (memberChunks (GUILD_DELETE data h')))).
Proof.
  intros g Hdone Hleft. split.
  - unfold GUILD_CREATE. cbv zeta.
    set (upsert := match store_get (guilds (client h)) (raw_guild_id data) with
                   | Some _ => _ | None => _ end).
    assert (Hupsert : guild_id upsert.2 = g
                      ∧ requestedGuildMembers upsert.1
                        = requestedGuildMembers (client h)).
    { subst upsert. by destruct (store_get _ _). }
    destruct upsert as [c1 guild]. simpl in Hupsert.
    destruct Hupsert as [-> Hrequests]. simpl. split; [|done].
    destruct (shouldLoadAllMembers h); [|done].
    rewrite (bool_decide_eq_true_2 _ Hdone).
    rewrite (bool_decide_eq_false_2 _ Hleft).
    by destruct (memberChunks h).
  - intros h'. unfold GUILD_DELETE. cbv zeta. fold g.
    destruct (store_get (guilds (client h')) g); simpl; split.
    all: try (apply not_elem_of_difference; right; by apply elem_of_singleton).
    all: unfold sending_delete; intros Hin;
      by apply list_elem_of_filter in Hin as [Hne _].
Qed.

End MemberChunking.

(** Witness for C7: the guild of the first session, seen a second time. *)
Lemma done_guild_is_not_queued_again_witness :
  let h :=
    GatewayDispatchHandler.GUILD_CREATE example_guild_create
      (example_READY_session example_ready initial_handler) in
  ("g1" ∈ chunks_done (memberChunks h))
  ∧ ("g1" ∉ chunks_left (memberChunks h))
  ∧ memberChunks (GatewayDispatchHandler.GUILD_CREATE example_guild_create h)
    = memberChunks h.
Proof.
  intros h.
  assert (Hdone : "g1" ∈ chunks_done (memberChunks h))
    by (apply (bool_decide_unpack _); vm_compute; exact I).
  assert (Hleft : "g1" ∉ chunks_left (memberChunks h))
    by (apply (bool_decide_unpack _); vm_compute; exact I).
  split; [exact Hdone|]. split; [exact Hleft|].
  exact (proj1 (proj1 (done_guild_is_not_queued_again example_guild_create h
                         Hdone Hleft))).
Defined.

(** C7, as stated, fails after a second READY: the guild id is still in the
    done set, the READY put it into the left set again, and the next
    GUILD_CREATE adds it to the sending set and arms the timer, whose
    firing sends a second request for the guild. *)
Lemma done_guild_queued_again_after_ready :
  ¬ (∀ (data : RawGuild) (h : GatewayHandler),
       raw_guild_id data ∈ chunks_done (memberChunks h) →
       raw_guild_id data ∉ chunks_sending (memberChunks h) →
       raw_guild_id data
         ∉ chunks_sending
             (memberChunks (GatewayDispatchHandler.GUILD_CREATE data h))).
Proof.
  intros Hclaim.
  apply (Hclaim example_guild_create example_second_session);
    apply (bool_decide_unpack _); vm_compute; exact I.
Qed.

(** The member-list requests of that run, latest first: the guild is asked
    for twice. *)
Lemma done_guild_requested_twice :
  requestedGuildMembers
    (client
       (memberChunks_timer_fire
          (GatewayDispatchHandler.GUILD_CREATE example_guild_create
             example_second_session)))
  = [["g1"]; ["g1"]].
Proof. vm_compute. reflexivity. Qed.

Section MemberRoles.

(** A role-id list merged into a collection: the entry of a listed id is
    what the guild has for it, the other entries are kept. *)
Lemma foldl_roles_lookup (f : string → option Role) (value : list string)
    (base : gmap string (option Role)) (k : string) :
  foldl (λ roles roleId, <[roleId := f roleId]> roles) base value !! k
  = if bool_decide (k ∈ value) then Some (f k) else base !! k.
Proof.
  revert base. induction value as [|a value IH]; intros base.
  - cbn [foldl]. case_bool_decide as Hin; [by apply elem_of_nil in Hin | done].
  - cbn [foldl]. rewrite IH.
    destruct (decide (k ∈ value)) as [Hin|Hnin].
    + rewrite (bool_decide_eq_true_2 _ Hin).
      by rewrite (bool_decide_eq_true_2 (k ∈ a :: value))
        by (apply elem_of_cons; auto).
    + rewrite (bool_decide_eq_false_2 _ Hnin).
      destruct (decide (k = a)) as [->|Hne].
      * rewrite (bool_decide_eq_true_2 (a ∈ a :: value))
          by (apply elem_of_cons; auto).
        by rewrite lookup_insert_eq.
      * rewrite (bool_decide_eq_false_2 (k ∈ a :: value))
          by (rewrite elem_of_cons; tauto).
        by rewrite lookup_insert_ne.
Qed.

(** C8. The role collection of a member has an entry under the member's
    guild id, holding the default role of the guild, or null when the guild
    is not cached: when the member has no stored role collection, and right
    after a non-empty role-id list was merged, in which case every listed
    role id has an entry as well.  The guild store files a guild under its
    own id. *)
Theorem Member_roles_default_role (c : ShardClient) (m : Member) :
  (∀ g, Member_guild c m = Some g → guild_id g = guildId m) →
  (_roles m = None →
   Member_roles c m !! guildId m
   = Some (Member_guild c m ≫= Guild_defaultRole))
  ∧ (∀ value, value ≠ [] →
       let r := Member_mergeValue c m (ROLES value) in
       guildId r.2 = guildId m
       ∧ Member_roles r.1 r.2 !! guildId r.2
         = Some (Member_guild r.1 r.2 ≫= Guild_defaultRole)
       ∧ ∀ roleId, roleId ∈ value →
                   is_Some (Member_roles r.1 r.2 !! roleId)).
Proof.
  intros Hkeyed. split.
  - intros Hnone. unfold Member_roles. rewrite Hnone.
    apply lookup_insert_eq.
  - intros value Hvalue. destruct value as [|a value]; [congruence|].
    cbn [Member_mergeValue fst snd Member_with_roles guildId].
    split; [done|].
    unfold Member_roles.
    cbn [_roles Member_with_roles].
    change (Member_guild c (Member_with_roles ?r m)) with (Member_guild c m).
    split.
    + rewrite (foldl_roles_lookup
                 (λ roleId, Member_guild c m ≫= λ g, guild_roles g !! roleId)).
      case_bool_decide.
      * f_equal. destruct (Member_guild c m) as [g|] eqn:Hg; [|reflexivity].
        simpl. unfold Guild_defaultRole. by rewrite (Hkeyed g).
      * apply lookup_insert_eq.
    + intros roleId Hin.
      rewrite (foldl_roles_lookup
                 (λ roleId, Member_guild c m ≫= λ g, guild_roles g !! roleId)).
      rewrite bool_decide_eq_true_2 by done. by eexists.
Qed.

End MemberRoles.

(** Witness for C8: the example member without a stored collection. *)
Lemma Member_roles_default_role_witness :
  (∀ g, Member_guild example_client example_member_plain = Some g →
        guild_id g = guildId example_member_plain)
  ∧ Member_roles example_client example_member_plain !! "g1"
    = Some (Some example_everyone)
  ∧ Member_roles
      (Member_mergeValue example_client example_member_plain
         (ROLES ["r1"; "r9"])).1
      (Member_mergeValue example_client example_member_plain
         (ROLES ["r1"; "r9"])).2
    !! "g1"
    = Some (Some example_everyone).
Proof.
  assert (H : ∀ g, Member_guild example_client example_member_plain = Some g →
                   guild_id g = guildId example_member_plain).
  { intros g Hg. vm_compute in Hg. injection Hg as <-. reflexivity. }
  split; [exact H|].
  destruct (Member_roles_default_role example_client example_member_plain H)
    as [Hplain Hmerged].
  split.
  - etrans; [exact (Hplain eq_refl) | vm_compute; reflexivity].
  - destruct (Hmerged ["r1"; "r9"] ltac:(discriminate)) as (_ & Hdefault & _).
    etrans; [exact Hdefault | vm_compute; reflexivity].
Defined.

Section Reactions.
Import GatewayDispatchHandler GatewayRawEvents.
Variable Reaction_new : ShardClient → MessageReaction → Reaction.

(** Replacing one message of the store by a message that satisfies a
    property keeps the property on all messages. *)
Lemma store_update2_forall (P : Message → Prop)
    (s : Store string (gmap string Message)) (k i : string) (m' : Message) :
  (∀ k0 inner i0 m, cache s !! k0 = Some inner → inner !! i0 = Some m → P m) →
  P m' →
  ∀ k0 inner i0 m,
    cache (store_update2 k i (λ _, m') s) !! k0 = Some inner →
    inner !! i0 = Some m → P m.
Proof.
  intros Hall Hm' k0 inner i0 m. unfold store_update2. simpl.
  rewrite lookup_alter. case_decide as Hk.
  - subst k0. destruct (cache s !! k) as [old|] eqn:Hold; [|done].
    simpl. intros [= <-]. rewrite lookup_alter. case_decide as Hi.
    + subst i0. destruct (old !! i); [|done]. simpl. by intros [= <-].
    + by apply Hall with k.
  - apply Hall.
Qed.

Lemma size_zero_empty (reactions : gmap string Reaction) :
  Nat.eqb (size reactions) 0 = false → reactions ≠ ∅.
Proof.
  intros Hsize ->. by rewrite map_size_empty in Hsize.
Qed.

(** C9. If every cached message has its reaction collection absent or
    non-empty, it is so again after each of the three reaction handlers.
    For a message that is cached: the add handler leaves it with a
    collection that holds the reaction, allocated when the message had
    none, the other reactions staying; the remove handler deletes the
    reaction and leaves no collection when no reaction is left; the
    remove-all handler leaves no collection. *)
Theorem reaction_handlers_keep_collections_nonempty (h : GatewayHandler) :
  let c := client h in
  let found (channelId : string) (guildId : option string)
      (messageId : string) :=
    messages_find (messages c)
      (messages_cacheKey (messages_type c) channelId guildId) messageId in
  (messages_reactions_ok c →
   (∀ data,
      messages_reactions_ok
        (client (MESSAGE_REACTION_ADD Reaction_new data h)))
   ∧ (∀ data, messages_reactions_ok (client (MESSAGE_REACTION_REMOVE data h)))
   ∧ (∀ data,
        messages_reactions_ok (client (MESSAGE_REACTION_REMOVE_ALL data h))))
  ∧ (∀ data k message,
       found (reaction_channel_id data) (reaction_guild_id data)
         (reaction_message_id data) = Some (k, message) →
       ∃ reactions,
         _reactions
           <$> store_get2
                 (messages (client (MESSAGE_REACTION_ADD Reaction_new data h)))
                 k (reaction_message_id data)
         = Some (Some reactions)
         ∧ is_Some (reactions !! emojiId_of (reaction_emoji_data data))
         ∧ ∀ e, e ≠ emojiId_of (reaction_emoji_data data) →
                reactions !! e = default ∅ (_reactions message) !! e)
  ∧ (∀ data k message reactions,
       found (reaction_channel_id data) (reaction_guild_id data)
         (reaction_message_id data) = Some (k, message) →
       _reactions message = Some reactions →
       is_Some (reactions !! emojiId_of (reaction_emoji_data data)) →
       let rest := delete (emojiId_of (reaction_emoji_data data)) reactions in
       _reactions
         <$> store_get2 (messages (client (MESSAGE_REACTION_REMOVE data h)))
               k (reaction_message_id data)
       = Some (if bool_decide (rest = ∅) then None else Some rest))
  ∧ (∀ data k message,
       found (remove_all_channel_id data) (remove_all_guild_id data)
         (remove_all_message_id data) = Some (k, message) →
       _reactions
         <$> store_get2
               (messages (client (MESSAGE_REACTION_REMOVE_ALL data h)))
               k (remove_all_message_id data)
       = Some None).
Proof.
  intros c found. subst found. cbv beta. split; [|split; [|split]].
  - intros Hok. repeat split.
    + intros data. unfold MESSAGE_REACTION_ADD. cbv zeta.
      destruct (messages_find _ _ _) as [[k message]|]; [|exact Hok].
      unfold messages_reactions_ok. simpl.
      apply store_update2_forall; [exact Hok|].
      unfold reactions_absent_or_nonempty. simpl. intros [= Hempty].
      by apply insert_non_empty in Hempty.
    + intros data. unfold MESSAGE_REACTION_REMOVE. cbv zeta.
      destruct (messages_find _ _ _) as [[k message]|]; [|exact Hok].
      destruct (_reactions message) as [reactions|]; [|exact Hok].
      destruct (reactions !! _) as [reaction|]; [|exact Hok].
      unfold messages_reactions_ok. simpl client.
      cbn [messages set_messages emit].
      apply store_update2_forall; [exact Hok|].
      unfold reactions_absent_or_nonempty.
      cbn [_reactions Message_with_reactions].
      destruct (_ <=? 0)%Z.
      * destruct (Nat.eqb _ 0) eqn:Hsize; [done|].
        intros [= Hempty]. by apply size_zero_empty in Hsize.
      * intros [= Hempty]. by apply insert_non_empty in Hempty.
    + intros data. unfold MESSAGE_REACTION_REMOVE_ALL. cbv zeta.
      destruct (messages_find _ _ _) as [[k message]|]; [|exact Hok].
      destruct (_reactions message) as [reactions|]; [|exact Hok].
      unfold messages_reactions_ok. simpl.
      by apply store_update2_forall.
  - intros data k message Hfind. unfold MESSAGE_REACTION_ADD. fold c.
    rewrite Hfind. cbn [client with_client emit messages set_messages].
    apply messages_find_get2 in Hfind.
    rewrite store_get2_update2, bool_decide_eq_true_2, Hfind by done.
    eexists. split; [reflexivity|]. split.
    + by rewrite lookup_insert_eq.
    + intros e He. by rewrite lookup_insert_ne.
  - intros data k message reactions Hfind Hreactions [reaction Hreaction] rest.
    unfold MESSAGE_REACTION_REMOVE. fold c.
    rewrite Hfind, Hreactions, Hreaction.
    cbn [client with_client emit messages set_messages count].
    assert (Hmin : (Z.min (Number_sub (count reaction) 1) 0 <=? 0)%Z = true)
      by (apply Z.leb_le; lia).
    rewrite Hmin, delete_insert_eq. fold rest.
    apply messages_find_get2 in Hfind.
    rewrite store_get2_update2, bool_decide_eq_true_2, Hfind by done.
    cbn [fmap option_fmap option_map _reactions Message_with_reactions].
    f_equal. case_bool_decide as Hrest.
    + by rewrite Hrest, map_size_empty.
    + destruct (Nat.eqb (size rest) 0) eqn:Hsize; [|done].
      apply Nat.eqb_eq, map_size_empty_iff in Hsize. done.
  - intros data k message Hfind. subst c. unfold MESSAGE_REACTION_REMOVE_ALL.
    rewrite Hfind. pose proof (messages_find_get2 _ _ _ _ _ Hfind) as Hget.
    destruct (_reactions message) as [reactions|] eqn:Hreactions.
    + cbn [client with_client emit messages set_messages].
      by rewrite store_get2_update2, bool_decide_eq_true_2, Hget.
    + cbn [client with_client emit messages]. rewrite Hget. simpl.
      by rewrite Hreactions.
Qed.

End Reactions.

(** The example client satisfies the invariant of C9. *)
Lemma example_client_reactions_ok : messages_reactions_ok example_client.
Proof.
  intros k inner i m Hk Hi. simpl in Hk.
  apply lookup_singleton_Some in Hk as [<- <-].
  apply lookup_singleton_Some in Hi as [<- <-].
  unfold reactions_absent_or_nonempty. simpl. discriminate.
Defined.

(** Witness for C9: the last reaction of the example message is removed,
    and a reaction is added to the message, which then has none. *)
Lemma reaction_handlers_keep_collections_nonempty_witness :
  let removed :=
    GatewayDispatchHandler.MESSAGE_REACTION_REMOVE (example_reaction "e1")
      example_handler in
  messages_reactions_ok (client example_handler)
  ∧ messages_reactions_ok (client removed)
  ∧ _reactions <$> store_get2 (messages (client removed)) "g1" "m1"
    = Some None
  ∧ ∃ reactions,
      _reactions
        <$> store_get2
              (messages
                 (client
                    (GatewayDispatchHandler.MESSAGE_REACTION_ADD
                       example_Reaction_new (example_reaction "e2") removed)))
              "g1" "m1"
      = Some (Some reactions)
      ∧ is_Some (reactions !! "e2").
Proof.
  intros removed.
  pose proof (reaction_handlers_keep_collections_nonempty example_Reaction_new
                example_handler) as (Hkept & _ & Hremove & _).
  pose proof (reaction_handlers_keep_collections_nonempty example_Reaction_new
                removed) as (_ & Hadd & _).
  split; [exact example_client_reactions_ok|].
  split; [exact (proj1 (proj2 (Hkept example_client_reactions_ok))
                   (example_reaction "e1"))|].
  split.
  - assert (Hfind : messages_find (messages (client example_handler))
                      (Some "g1") "m1" = Some ("g1", example_message))
      by (vm_compute; reflexivity).
    etrans; [exact (Hremove (example_reaction "e1") "g1" example_message
                      {[ "e1" := mkReaction "e1" 2 false ]} Hfind eq_refl
                      ltac:(eexists; vm_compute; reflexivity))|].
    vm_compute. reflexivity.
  - assert (Hfind : messages_find (messages (client removed)) (Some "g1") "m1"
                    = Some ("g1", Message_with_reactions None example_message))
      by (vm_compute; reflexivity).
    destruct (Hadd (example_reaction "e2") "g1" _ Hfind)
      as (reactions & Hreactions & Hhas & _).
    exists reactions. split; [exact Hreactions | exact Hhas].
Defined.

(** The collection is allocated on first use: after the remove handler took
    the last reaction of the example message and dropped the collection, the
    add handler stores a collection again, with the new reaction counted
    once. *)
Lemma MESSAGE_REACTION_ADD_allocates :
  store_get2
    (messages
       (client
          (GatewayDispatchHandler.MESSAGE_REACTION_ADD example_Reaction_new
             (example_reaction "e2")
             (GatewayDispatchHandler.MESSAGE_REACTION_REMOVE
                (example_reaction "e1") example_handler))))
    "g1" "m1"
  = Some (Message_with_reactions (Some {[ "e2" := mkReaction "e2" 1 false ]})
            example_message).
Proof. vm_compute. reflexivity. Qed.

Section VoiceStates.
Import GatewayDispatchHandler GatewayRawEvents.

(** The branch of VOICE_STATE_UPDATE for a voice state that is cached: a
    falsy channel id takes it out of the store. *)
Lemma VOICE_STATE_UPDATE_deletes_cached (data : VoiceStateUpdate)
    (h : GatewayHandler) :
  let serverId :=
    Js.or_else (voice_state_guild_id data) (voice_state_channel_id data) in
  store_has2 (voiceStates (client h)) serverId (voice_state_user_id data)
  = true →
  Js.falsy (voice_state_channel_id data) = true →
  store_get2 (voiceStates (client (VOICE_STATE_UPDATE data h))) serverId
    (voice_state_user_id data) = None.
Proof.
  intros serverId Hhas Hfalsy. unfold VOICE_STATE_UPDATE. fold serverId.
  unfold store_has2 in Hhas.
  destruct (store_get2 _ serverId _) as [v|] eqn:Hv; [|done].
  rewrite Hfalsy. simpl.
  unfold store_get2, store_get in *. simpl.
  destruct (enabled (voiceStates (client h))); [|done].
  rewrite !lookup_alter_eq.
  destruct (cache (voiceStates (client h)) !! serverId) as [inner|]; [|done].
  simpl. apply lookup_delete_eq.
Qed.

End VoiceStates.

(** C10 at an input where it fails: a VOICE_STATE_UPDATE with a null
    channel id for a user who has no cached voice state takes the other
    branch of the handler, which inserts the voice state; afterwards the
    store has an entry under the server id and the user id of the event. *)
Lemma VOICE_STATE_UPDATE_inserts_left_state :
  store_has2 (voiceStates (client example_handler)) (Some "g1") "u2" = false
  ∧ store_get2
      (voiceStates
         (client
            (GatewayDispatchHandler.VOICE_STATE_UPDATE example_voice_left
               example_handler)))
      (Some "g1") "u2"
    = Some (mkVoiceState None (Some "g1") "u2").
Proof. split; vm_compute; reflexivity. Qed.

(** ** The cluster process: promises *)

Section Promises.
Import ClusterIPCTypes ClusterProcess.

Lemma foldl_invariant_elem {A B : Type} (P : A → Prop) (f : A → B → A)
    (l : list B) (a : A) :
  P a → (∀ a b, b ∈ l → P a → P (f a b)) → P (foldl f a l).
Proof.
  revert a. induction l as [|b l IH]; intros a Ha Hstep; simpl; [done|].
  apply IH.
  - apply Hstep; [apply elem_of_cons; auto | done].
  - intros a' b' Hb'. apply Hstep. apply elem_of_cons; auto.
Qed.

Lemma settle_other (p q : nat) (s : PromiseState) (heap : list PromiseState) :
  p ≠ q → settle p s heap !! q = heap !! q.
Proof.
  intros Hne. unfold settle.
  destruct (heap !! p) as [[| |]|]; try done. by apply list_lookup_insert_ne.
Qed.

Lemma settle_pending (p : nat) (s : PromiseState) (heap : list PromiseState) :
  heap !! p = Some Pending → settle p s heap !! p = Some s.
Proof.
  intros Hp. unfold settle. rewrite Hp.
  apply list_lookup_insert_eq. by apply lookup_lt_Some in Hp.
Qed.

(** A settled promise keeps its state. *)
Lemma settle_settled (p q : nat) (s v : PromiseState)
    (heap : list PromiseState) :
  heap !! q = Some v → v ≠ Pending → settle p s heap !! q = Some v.
Proof.
  intros Hq Hv. destruct (decide (p = q)) as [->|Hne].
  - unfold settle. rewrite Hq. by destruct v.
  - by rewrite settle_other.
Qed.

Lemma settle_length (p : nat) (s : PromiseState) (heap : list PromiseState) :
  length (settle p s heap) = length heap.
Proof.
  unfold settle. destruct (heap !! p) as [[| |]|]; try done.
  apply length_insert.
Qed.

Lemma settle_links_settled p s links heap q v :
  heap !! q = Some v → v ≠ Pending → settle_links p s links heap !! q = Some v.
Proof.
  intros Hq Hv. unfold settle_links.
  apply (foldl_invariant (λ heap, heap !! q = Some v)); [done|].
  intros acc link Hacc. destruct (Nat.eqb link.1 p); [|done].
  by apply settle_settled.
Qed.

Lemma settle_links_other p s links heap q :
  (∀ link, link ∈ links → link.1 = p → link.2 ≠ q) →
  settle_links p s links heap !! q = heap !! q.
Proof.
  intros Hlinks. unfold settle_links.
  apply (foldl_invariant_elem (λ acc, acc !! q = heap !! q)); [done|].
  intros acc link Hin Hacc.
  destruct (Nat.eqb link.1 p) eqn:Hp; [|done].
  apply Nat.eqb_eq in Hp. rewrite settle_other; [done|]. by apply Hlinks.
Qed.

Lemma settle_links_follower p s links heap q :
  s ≠ Pending → (p, q) ∈ links → heap !! q = Some Pending →
  settle_links p s links heap !! q = Some s.
Proof.
  intros Hs. revert heap.
  induction links as [|link links IH]; intros heap Hin Hq.
  - by apply elem_of_nil in Hin.
  - unfold settle_links. cbn [foldl]. fold (settle_links p s links).
    destruct (Nat.eqb link.1 p) eqn:Hp.
    + apply Nat.eqb_eq in Hp.
      destruct (decide (link.2 = q)) as [Hlq|Hlq].
      * apply settle_links_settled; [|done]. rewrite Hlq.
        by apply settle_pending.
      * apply IH.
        -- apply elem_of_cons in Hin as [Heq|Hin]; [|done].
           subst link. simpl in Hlq. congruence.
        -- by rewrite settle_other.
    + apply IH; [|done].
      apply elem_of_cons in Hin as [Heq|Hin]; [|done].
      subst link. simpl in Hp. by rewrite Nat.eqb_refl in Hp.
Qed.

Lemma settle_chained_settled p s links heap q v :
  heap !! q = Some v → v ≠ Pending →
  settle_chained p s links heap !! q = Some v.
Proof.
  intros Hq Hv. unfold settle_chained.
  destruct (heap !! p) as [[| |]|] eqn:Hp; try done.
  apply (settle_links_settled p s links); [|done].
  rewrite list_lookup_insert_ne; [done|]. intros ->. congruence.
Qed.

Lemma settle_chained_other p s links heap q :
  q ≠ p → (∀ link, link ∈ links → link.1 = p → link.2 ≠ q) →
  settle_chained p s links heap !! q = heap !! q.
Proof.
  intros Hne Hlinks. unfold settle_chained.
  destruct (heap !! p) as [[| |]|] eqn:Hp; try done.
  rewrite (settle_links_other p s links) by done.
  by apply list_lookup_insert_ne.
Qed.

Lemma settle_chained_self p s links heap :
  s ≠ Pending → heap !! p = Some Pending →
  settle_chained p s links heap !! p = Some s.
Proof.
  intros Hs Hp. unfold settle_chained. rewrite Hp.
  apply (settle_links_settled p s links); [|done].
  apply list_lookup_insert_eq. by apply lookup_lt_Some in Hp.
Qed.

Lemma settle_chained_follower p s links heap q :
  s ≠ Pending → q ≠ p → (p, q) ∈ links →
  heap !! p = Some Pending → heap !! q = Some Pending →
  settle_chained p s links heap !! q = Some s.
Proof.
  intros Hs Hne Hin Hp Hq. unfold settle_chained. rewrite Hp.
  apply (settle_links_follower p s links); [done|done|].
  by rewrite list_lookup_insert_ne.
Qed.

End Promises.

(** ** The cluster process: evaluate *)

Section Evaluate.
Import ClusterIPCTypes ClusterProcess.

Lemma run_listener_settled m l st q v :
  promises st !! q = Some v → v ≠ Pending →
  promises (run_listener m l st) !! q = Some v.
Proof.
  intros Hq Hv. unfold run_listener.
  destruct (op m); try done.
  destruct (String.eqb _ _); [|done]. simpl.
  by apply settle_chained_settled.
Qed.

Lemma run_promises st : promises (run st) = promises st.
Proof. unfold run. by destruct (process st). Qed.

Lemma onExit_settled exit_code signal st q v :
  promises st !! q = Some v → v ≠ Pending →
  promises (onExit exit_code signal st) !! q = Some v.
Proof.
  intros Hq Hv. unfold onExit. cbv zeta.
  set (heap := foldl _ (promises st) _).
  assert (Hheap : heap !! q = Some v).
  { subst heap. apply (foldl_invariant (λ acc, acc !! q = Some v)); [done|].
    intros acc item Hacc. by apply settle_settled. }
  destruct (respawn _); [rewrite run_promises|]; exact Hheap.
Qed.

Lemma eval_settled code nonce st q v :
  promises st !! q = Some v →
  promises (eval code nonce st).1 !! q = Some v.
Proof.
  intros Hq. unfold eval.
  destruct (process st); [destruct (_evalsWaiting st !! nonce)|]; simpl;
    try done; by apply lookup_app_l_Some.
Qed.

Lemma send_promises m st : promises (send m st) = promises st.
Proof. unfold send. by destruct (process st). Qed.

Lemma onMessage_settled m st q v :
  promises st !! q = Some v → promises (onMessage m st) !! q = Some v.
Proof.
  intros Hq. unfold onMessage, broadcastEvalRaw.
  destruct (op m); try done. destruct (request m); [|done].
  by apply eval_settled.
Qed.

Lemma child_message_settled child m st q v :
  promises st !! q = Some v → v ≠ Pending →
  promises (child_message child m st) !! q = Some v.
Proof.
  intros Hq Hv. unfold child_message.
  apply (foldl_invariant (λ acc, promises acc !! q = Some v)).
  - destruct (_ <? _)%nat; [|done]. by apply onMessage_settled.
  - intros acc l Hacc. destruct (Nat.eqb _ _); [|done].
    by apply run_listener_settled.
Qed.

(** Whatever happens next, a settled promise keeps what it was settled
    with. *)
Lemma step_settled e st q v :
  promises st !! q = Some v → v ≠ Pending →
  promises (step e st) !! q = Some v.
Proof.
  intros Hq Hv.
  destruct e as [code nonce|child m|exit_code signal|l e|data collected
                |data [thrown|]|]; simpl.
  - by apply eval_settled.
  - by apply child_message_settled.
  - by apply onExit_settled.
  - by apply settle_chained_settled.
  - unfold onMessage_collected, sendIPC. by rewrite send_promises.
  - unfold sendIPC. by rewrite send_promises.
  - done.
  - done.
Qed.

Lemma steps_settled events st q v :
  promises st !! q = Some v → v ≠ Pending →
  promises (foldl (λ acc e, step e acc) st events) !! q = Some v.
Proof.
  intros Hq Hv.
  apply (foldl_invariant (λ acc, promises acc !! q = Some v)); [done|].
  intros acc e Hacc. by apply step_settled.
Qed.

(** A first call of [eval] under a nonce: the entry, the two promises, the
    chain between them, the listener and the request. *)
Lemma eval_registers st child code nonce :
  process st = Some child → _evalsWaiting st !! nonce = None →
  eval code nonce st
  = (mkProcess (Some child) (forked st) (respawn st)
       (<[nonce := mkWaiting (S (length (promises st)))
                     (length (promises st)) (length (promises st))]>
          (_evalsWaiting st))
       (promises st ++ [Pending; Pending])
       (chained st ++ [(S (length (promises st)), length (promises st))])
       (listeners st ++ [mkListener child nonce (S (length (promises st)))])
       (sent st
        ++ [(child,
             mkIPCMessage ClusterIPCOpCodes.EVAL
               (Eval_request (Code_text code) nonce) true None)])
       (emitted st),
     length (promises st)).
Proof. intros Hprocess Hnone. unfold eval. by rewrite Hprocess, Hnone. Qed.

(** An evaluate message under a nonce that is in the table: [onMessage]
    changes nothing, also for a request, whose broadcast finds the
    entry. *)
Lemma onMessage_waiting m st child w :
  process st = Some child → op m = ClusterIPCOpCodes.EVAL →
  _evalsWaiting st !! nonce (data m) = Some w →
  onMessage m st = st.
Proof.
  intros Hprocess Hop Hw. unfold onMessage, broadcastEvalRaw, eval.
  rewrite Hop. destruct (request m); [|done]. by rewrite Hprocess, Hw.
Qed.

(** The reply to a registered evaluation settles the inner promise and, by
    the chain, the outer one, with what the reply resolves to. *)
Lemma reply_resolves_both st child code nonce m :
  heap_closed st → process st = Some child →
  _evalsWaiting st !! nonce = None →
  op m = ClusterIPCOpCodes.EVAL → ClusterIPCTypes.nonce (data m) = nonce →
  let st' := child_message child m (eval code nonce st).1 in
  promises st' !! length (promises st)
  = Some (Resolved (resolution_of (data m)))
  ∧ promises st' !! S (length (promises st))
    = Some (Resolved (resolution_of (data m))).
Proof.
  intros [Hlisteners Hchained] Hprocess Hnone Hop Hnonce.
  rewrite (eval_registers st child code nonce Hprocess Hnone).
  cbn [fst]. unfold child_message.
  set (outer := length (promises st)).
  set (s := Resolved (resolution_of (data m))).
  set (st1 := mkProcess _ _ _ _ _ _ _ _ _).
  assert (Hsame : (if (child <? forked st1)%nat then onMessage m st1
                   else st1) = st1).
  { destruct (_ <? _)%nat; [|done].
    apply (onMessage_waiting m st1 child (mkWaiting (S outer) outer outer));
      [done|done|].
    subst st1. cbn [_evalsWaiting]. rewrite Hnonce.
    by rewrite lookup_insert_eq. }
  rewrite Hsame. subst st1. cbn [listeners].
  rewrite foldl_app. cbn [foldl listener_child].
  set (st1 := mkProcess _ _ _ _ _ _ _ _ _).
  set (acc := foldl _ st1 (listeners st)).
  assert (Hacc : chained acc = chained st ++ [(S outer, outer)]
                 ∧ promises acc !! outer = Some Pending
                 ∧ promises acc !! S outer = Some Pending).
  { subst acc.
    apply (foldl_invariant_elem
             (λ acc, chained acc = chained st ++ [(S outer, outer)]
                     ∧ promises acc !! outer = Some Pending
                     ∧ promises acc !! S outer = Some Pending)).
    - subst st1. cbn [chained promises]. split; [done|]. split.
      + by apply list_lookup_middle.
      + rewrite lookup_app_r by (subst outer; lia).
        by replace (S outer - length (promises st)) with 1
          by (subst outer; lia).
    - intros a l Hl (Hlinks & Ho & Hi).
      destruct (Nat.eqb (listener_child l) child); [|done].
      unfold run_listener. rewrite Hop.
      destruct (String.eqb _ _); [|done]. cbn [chained promises].
      specialize (Hlisteners l Hl). fold outer in Hlisteners.
      assert (Hfree : ∀ q, outer ≤ q →
                q ≠ listener_res l
                ∧ ∀ link, link ∈ chained a → link.1 = listener_res l →
                          link.2 ≠ q).
      { intros q Hq. split; [lia|]. intros link Hin Hfst.
        rewrite Hlinks in Hin. apply elem_of_app in Hin as [Hin|Hin].
        - specialize (Hchained link Hin). fold outer in Hchained. lia.
        - apply list_elem_of_singleton in Hin. subst link. simpl in Hfst. lia. }
      split; [done|]. split.
      + destruct (Hfree outer) as [Hne Hothers]; [lia|].
        by rewrite settle_chained_other.
      + destruct (Hfree (S outer)) as [Hne Hothers]; [lia|].
        by rewrite settle_chained_other. }
  destruct Hacc as (Hlinks & Ho & Hi).
  rewrite Nat.eqb_refl. unfold run_listener. rewrite Hop.
  cbn [listener_nonce listener_res]. rewrite Hnonce, String.eqb_refl.
  cbn [promises]. split.
  - apply settle_chained_follower.
    + done.
    + lia.
    + rewrite Hlinks. apply elem_of_app. right.
      by apply list_elem_of_singleton.
    + exact Hi.
    + exact Ho.
  - by apply settle_chained_self.
Qed.

(** Two calls of [eval] under one nonce, the second while the first is
    pending, when the child replies next: the second call finds the entry
    of the first, changes nothing and sends nothing, so that one request
    went out; both callers hold pending promises, the reply under the nonce
    resolves both to the same value, and no later event changes what either
    of them got. *)
Lemma eval_same_nonce_shares_result (st : ClusterProcess.t) (child : nat)
    (code1 code2 : Code) (nonce : string) :
  heap_closed st → process st = Some child →
  _evalsWaiting st !! nonce = None →
  let first := eval code1 nonce st in
  let second := eval code2 nonce first.1 in
  second.1 = first.1
  ∧ sent second.1
    = sent st
      ++ [(child,
           mkIPCMessage ClusterIPCOpCodes.EVAL
             (Eval_request (Code_text code1) nonce) true None)]
  ∧ promises second.1 !! first.2 = Some Pending
  ∧ promises second.1 !! second.2 = Some Pending
  ∧ ∀ m, op m = ClusterIPCOpCodes.EVAL →
         ClusterIPCTypes.nonce (data m) = nonce →
         let st' := child_message child m second.1 in
         promises st' !! first.2 = Some (Resolved (resolution_of (data m)))
         ∧ promises st' !! second.2
           = Some (Resolved (resolution_of (data m)))
         ∧ ∀ events,
             let st'' := foldl (λ acc e, step e acc) st' events in
             promises st'' !! first.2 = promises st' !! first.2
             ∧ promises st'' !! second.2 = promises st' !! second.2.
Proof.
  intros Hclosed Hprocess Hnone first second.
  assert (Hsecond : second = (first.1, S (length (promises st)))).
  { subst second first.
    rewrite (eval_registers st child code1 nonce Hprocess Hnone).
    cbn [fst]. unfold eval. cbn [process _evalsWaiting].
    by rewrite lookup_insert_eq. }
  assert (Hreply := reply_resolves_both st child code1 nonce).
  fold first in Hreply. rewrite Hsecond. cbn [fst snd].
  subst first. clear second Hsecond.
  rewrite (eval_registers st child code1 nonce Hprocess Hnone) in *.
  cbn [fst snd] in *. cbn [sent promises].
  split; [done|]. split; [done|]. split; [by apply list_lookup_middle|].
  split.
  { rewrite lookup_app_r by lia.
    by replace (S (length (promises st)) - length (promises st)) with 1
      by lia. }
  intros m Hop Hnonce.
  destruct (Hreply m Hclosed Hprocess Hnone Hop Hnonce) as [Ho Hi].
  cbv zeta in *. split; [exact Ho|]. split; [exact Hi|].
  intros events. rewrite Ho, Hi.
  split; by apply steps_settled.
Qed.

End Evaluate.

(** The two example callers get the same reply. *)
Lemma eval_same_nonce_shares_result_witness :
  ClusterProcess.heap_closed example_process
  ∧ ClusterProcess.process example_process = Some 0
  ∧ ClusterProcess._evalsWaiting example_process !! "n1" = None
  ∧ ClusterProcess.promises
      (ClusterProcess.child_message 0
         (ClusterIPCTypes.mkIPCMessage ClusterIPCOpCodes.EVAL
            (ClusterIPCTypes.Eval_with_result (ClusterIPCTypes.JsNumber 2)
               (ClusterIPCTypes.Eval_request "1 + 1" "n1"))
            false None)
         example_two_callers) !! 0
    = Some (ClusterProcess.Resolved (Some (ClusterIPCTypes.JsNumber 2, false)))
  ∧ ClusterProcess.promises
      (ClusterProcess.child_message 0
         (ClusterIPCTypes.mkIPCMessage ClusterIPCOpCodes.EVAL
            (ClusterIPCTypes.Eval_with_result (ClusterIPCTypes.JsNumber 2)
               (ClusterIPCTypes.Eval_request "1 + 1" "n1"))
            false None)
         example_two_callers) !! 1
    = Some (ClusterProcess.Resolved (Some (ClusterIPCTypes.JsNumber 2, false))).
Proof.
  assert (Hclosed : ClusterProcess.heap_closed example_process).
  { split; intros x Hx; by apply elem_of_nil in Hx. }
  split; [exact Hclosed|]. split; [reflexivity|]. split; [reflexivity|].
  destruct (eval_same_nonce_shares_result example_process 0
              (ClusterProcess.CodeString "1 + 1")
              (ClusterProcess.CodeString "1 + 1") "n1" Hclosed eq_refl eq_refl)
    as (_ & _ & _ & _ & Hreply).
  destruct (Hreply
              (ClusterIPCTypes.mkIPCMessage ClusterIPCOpCodes.EVAL
                 (ClusterIPCTypes.Eval_with_result (ClusterIPCTypes.JsNumber 2)
                    (ClusterIPCTypes.Eval_request "1 + 1" "n1"))
                 false None) eq_refl eq_refl) as (Hfirst & Hsecond & _).
  split; [exact Hfirst | exact Hsecond].
Defined.

(** ** The cluster process: exit of the child *)

Section Exit.
Import ClusterIPCTypes ClusterProcess.

Lemma string_app_assoc (a b c : string) : (a +:+ b) +:+ c = a +:+ b +:+ c.
Proof.
  induction a as [|x a IH]; [done|].
  change (String x ((a +:+ b) +:+ c) = String x (a +:+ b +:+ c)).
  by rewrite IH.
Qed.

(** The message of the error of [onExit] has the exit code and the signal
    in it. *)
Lemma exit_error_mentions exit_code signal :
  ∃ text, message (exit_error exit_code signal) = Some text
          ∧ mentions (show_code exit_code) text
          ∧ mentions (show_signal signal) text.
Proof.
  eexists. split; [reflexivity|]. split.
  - eexists _, _. reflexivity.
  - exists ("Process has closed with '" +:+ show_code exit_code
            +:+ "' code and '"), "' signal.".
    by rewrite !string_app_assoc.
Qed.

Lemma settle_all_resolves (s : PromiseState)
    (items : list (string * Waiting)) (heap : list PromiseState) (q : nat) :
  s ≠ Pending →
  (∃ item, item ∈ items ∧ resolve item.2 = q) →
  heap !! q = Some Pending ∨ heap !! q = Some s →
  foldl (λ acc item, settle (resolve item.2) s acc) heap items !! q = Some s.
Proof.
  intros Hs. revert heap.
  induction items as [|it items IH]; intros heap [item [Hin Hq]] Hheap.
  - by apply elem_of_nil in Hin.
  - cbn [foldl]. destruct (decide (resolve it.2 = q)) as [Hit|Hit].
    + apply (foldl_invariant (λ acc, acc !! q = Some s)).
      * rewrite Hit. destruct Hheap as [Hp|Hd];
          [by apply settle_pending | by apply settle_settled].
      * intros acc item' Hacc. by apply settle_settled.
    + apply IH.
      * exists item. split; [|done].
        apply elem_of_cons in Hin as [->|Hin]; [done|done].
      * by rewrite settle_other.
Qed.

(** What [onExit] does do: the table is emptied, and the promise that the
    [resolve] of an entry settles, if pending, is resolved with the error
    that names the exit code and the signal, flagged as an error. *)
Lemma onExit_resolves_entries exit_code signal st nonce w :
  _evalsWaiting st !! nonce = Some w →
  promises st !! resolve w = Some Pending →
  let st' := onExit exit_code signal st in
  _evalsWaiting st' = ∅
  ∧ promises st' !! resolve w
    = Some (Resolved (Some (JsError (exit_error exit_code signal), true))).
Proof.
  intros Hw Hpending. unfold onExit. cbv zeta.
  set (heap := foldl _ (promises st) _).
  assert (Hheap : heap !! resolve w
                  = Some (Resolved
                            (Some (JsError (exit_error exit_code signal), true)))).
  { subst heap. apply settle_all_resolves; [done| |by left].
    exists (nonce, w). split; [|done]. by apply elem_of_map_to_list. }
  destruct (respawn _); [rewrite run_promises|]; split; done.
Qed.

End Exit.

(** C4 at an input where it fails: two callers evaluate under the nonce n1,
    the first holds the outer promise 0 and the second, served from the
    table, the inner promise 1.  The child exits: the table is emptied and
    the first caller gets the error, but the promise of the second caller
    stays pending, and even the reply under the nonce would now settle
    nothing the table knows of. *)
Lemma onExit_leaves_second_caller_pending :
  (ClusterProcess.eval (ClusterProcess.CodeString "1 + 1") "n1"
     example_process).2 = 0
  ∧ (ClusterProcess.eval (ClusterProcess.CodeString "1 + 1") "n1"
       (ClusterProcess.eval (ClusterProcess.CodeString "1 + 1") "n1"
          example_process).1).2 = 1
  ∧ ClusterProcess._evalsWaiting
      (ClusterProcess.onExit (Some 1%Z) (Some "SIGKILL") example_two_callers)
    = ∅
  ∧ ClusterProcess.promises
      (ClusterProcess.onExit (Some 1%Z) (Some "SIGKILL") example_two_callers)
    = [ClusterProcess.Resolved
         (Some
            (ClusterIPCTypes.JsError
               (ClusterIPCTypes.mkErrorData
                  (Some "Process has closed with '1' code and 'SIGKILL' signal.")
                  (Some "Error") None),
             true));
       ClusterProcess.Pending].
Proof. repeat split; vm_compute; reflexivity. Qed.

Section ExitOfSharedNonce.
Import ClusterIPCTypes ClusterProcess.

Lemma settle_all_other (s : PromiseState) (items : list (string * Waiting))
    (heap : list PromiseState) (q : nat) :
  (∀ item, item ∈ items → resolve item.2 ≠ q) →
  foldl (λ acc item, settle (resolve item.2) s acc) heap items !! q
  = heap !! q.
Proof.
  intros Hitems.
  apply (foldl_invariant_elem (λ acc, acc !! q = heap !! q)); [done|].
  intros acc item Hin Hacc. rewrite settle_other; [done|]. by apply Hitems.
Qed.

(** C6. Two calls of [eval] under one nonce, the second while the first is
    pending, do not always resolve to the same value.  The second call
    finds the entry of the first and changes nothing, so that no second
    request is sent; but it is handed the inner promise of the entry, while
    the first caller holds the outer one, both pending.  When the child
    exits before it replies, [onExit] empties the table and resolves the
    promise of the first caller with the exit error, and the promise of
    the second caller is still pending. *)
Theorem eval_same_nonce_split_by_exit (st : ClusterProcess.t) (child : nat)
    (code1 code2 : Code) (nonce : string)
    (exit_code : option Z) (signal : option string) :
  waiting_closed st → process st = Some child →
  _evalsWaiting st !! nonce = None →
  let first := eval code1 nonce st in
  let second := eval code2 nonce first.1 in
  let st' := onExit exit_code signal second.1 in
  second.1 = first.1
  ∧ first.2 = length (promises st)
  ∧ second.2 = S (length (promises st))
  ∧ promises second.1 !! first.2 = Some Pending
  ∧ promises second.1 !! second.2 = Some Pending
  ∧ _evalsWaiting st' = ∅
  ∧ promises st' !! first.2
    = Some (Resolved (Some (JsError (exit_error exit_code signal), true)))
  ∧ promises st' !! second.2 = Some Pending.
Proof.
  intros Hwaiting Hprocess Hnone first second st'.
  pose proof (eval_registers st child code1 nonce Hprocess Hnone) as Hfirst.
  fold first in Hfirst.
  assert (Hsecond : second = (first.1, S (length (promises st)))).
  { subst second. rewrite Hfirst. cbn [fst]. unfold eval.
    cbn [process _evalsWaiting]. by rewrite lookup_insert_eq. }
  assert (Hname : first.2 = length (promises st)) by by rewrite Hfirst.
  assert (Houter : promises first.1 !! length (promises st) = Some Pending).
  { rewrite Hfirst. cbn [fst promises]. by apply list_lookup_middle. }
  assert (Hinner : promises first.1 !! S (length (promises st))
                   = Some Pending).
  { rewrite Hfirst. cbn [fst promises]. rewrite lookup_app_r by lia.
    by replace (S (length (promises st)) - length (promises st)) with 1
      by lia. }
  assert (Hentry : _evalsWaiting first.1 !! nonce
                   = Some (mkWaiting (S (length (promises st)))
                             (length (promises st)) (length (promises st)))).
  { rewrite Hfirst. cbn [fst _evalsWaiting]. by rewrite lookup_insert_eq. }
  subst st'. rewrite Hsecond, Hname. cbn [fst snd].
  split; [done|]. split; [done|]. split; [done|]. split; [exact Houter|].
  split; [exact Hinner|].
  destruct (onExit_resolves_entries exit_code signal first.1 nonce _
              Hentry Houter) as [Hempty Hresolved].
  split; [exact Hempty|]. split; [exact Hresolved|].
  unfold onExit. cbv zeta.
  set (heap := foldl _ (promises first.1) _).
  assert (Hheap : heap !! S (length (promises st)) = Some Pending).
  { subst heap. rewrite settle_all_other; [exact Hinner|].
    intros [k w] Hin. apply elem_of_map_to_list in Hin.
    rewrite Hfirst in Hin. cbn [fst snd _evalsWaiting] in Hin |- *.
    apply lookup_insert_Some in Hin as [[_ <-]|[_ Hold]].
    - cbn [resolve]. lia.
    - specialize (Hwaiting k w Hold). lia. }
  cbn [respawn]. destruct (respawn first.1); [rewrite run_promises|];
    exact Hheap.
Qed.

End ExitOfSharedNonce.

(** The two example callers when the child exits. *)
Lemma eval_same_nonce_split_by_exit_witness :
  ClusterProcess.waiting_closed example_process
  ∧ ClusterProcess.promises
      (ClusterProcess.onExit (Some 1%Z) (Some "SIGKILL") example_two_callers)
    !! 0
    = Some
        (ClusterProcess.Resolved
           (Some
              (ClusterIPCTypes.JsError
                 (ClusterProcess.exit_error (Some 1%Z) (Some "SIGKILL")),
               true)))
  ∧ ClusterProcess.promises
      (ClusterProcess.onExit (Some 1%Z) (Some "SIGKILL") example_two_callers)
    !! 1
    = Some ClusterProcess.Pending.
Proof.
  assert (Hwaiting : ClusterProcess.waiting_closed example_process).
  { intros nonce w Hw.
    change ((∅ : gmap string ClusterProcess.Waiting) !! nonce = Some w)
      in Hw.
    by rewrite lookup_empty in Hw. }
  split; [exact Hwaiting|].
  destruct (eval_same_nonce_split_by_exit example_process 0
              (ClusterProcess.CodeString "1 + 1")
              (ClusterProcess.CodeString "1 + 1") "n1" (Some 1%Z)
              (Some "SIGKILL") Hwaiting eq_refl eq_refl)
    as (_ & _ & _ & _ & _ & _ & Hfirst & Hsecond).
  split; [exact Hfirst | exact Hsecond].
Defined.

(** ** The cluster process: the heap stays closed *)

Section HeapClosed.
Import ClusterIPCTypes ClusterProcess.

Lemma settle_chained_length p s links heap :
  length (settle_chained p s links heap) = length heap.
Proof.
  unfold settle_chained. destruct (heap !! p) as [[| |]|]; try done.
  unfold settle_links.
  apply (foldl_invariant (λ acc, length acc = length heap)).
  - apply length_insert.
  - intros acc link Hacc. destruct (Nat.eqb _ _); [|done].
    by rewrite settle_length.
Qed.

Lemma heap_closed_resize st st' :
  length (promises st) ≤ length (promises st') →
  chained st' = chained st →
  (∀ l, l ∈ listeners st' → l ∈ listeners st) →
  heap_closed st → heap_closed st'.
Proof.
  intros Hlen Hlinks Hlisteners [Hl Hc]. split.
  - intros l Hin. specialize (Hl l (Hlisteners l Hin)). lia.
  - intros link Hin. rewrite Hlinks in Hin. specialize (Hc link Hin). lia.
Qed.

Lemma run_listener_closed m l st :
  heap_closed st → heap_closed (run_listener m l st).
Proof.
  intros Hclosed. unfold run_listener.
  destruct (op m); try done. destruct (String.eqb _ _); [|done].
  apply (heap_closed_resize st); simpl; [|done| |done].
  - by rewrite settle_chained_length.
  - intros l' Hin. by apply list_elem_of_filter in Hin as [_ Hin].
Qed.

(** The initial state has a closed heap, and every event keeps it
    closed. *)
Lemma eval_closed code nonce st :
  heap_closed st → heap_closed (eval code nonce st).1.
Proof.
  intros Hclosed. unfold eval. destruct (process st) as [child|].
  - destruct (_evalsWaiting st !! nonce); [done|].
    destruct Hclosed as [Hl Hc]. split; simpl.
    + intros l Hin. rewrite length_app. simpl.
      apply elem_of_app in Hin as [Hin|Hin].
      * specialize (Hl l Hin). lia.
      * apply list_elem_of_singleton in Hin. subst l. simpl. lia.
    + intros link Hin. rewrite length_app. simpl.
      apply elem_of_app in Hin as [Hin|Hin].
      * specialize (Hc link Hin). lia.
      * apply list_elem_of_singleton in Hin. subst link. simpl. lia.
  - apply (heap_closed_resize st); simpl; try done.
    rewrite length_app. lia.
Qed.

Lemma send_closed m st : heap_closed st → heap_closed (send m st).
Proof. intros Hclosed. unfold send. by destruct (process st). Qed.

Lemma onMessage_closed m st : heap_closed st → heap_closed (onMessage m st).
Proof.
  intros Hclosed. unfold onMessage, broadcastEvalRaw.
  destruct (op m); try done. destruct (request m); [|done].
  by apply eval_closed.
Qed.

Lemma step_closed e st : heap_closed st → heap_closed (step e st).
Proof.
  intros Hclosed.
  destruct e as [code nonce|child m|exit_code signal|l e|data collected
                |data [thrown|]|]; simpl.
  - by apply eval_closed.
  - unfold child_message.
    apply (foldl_invariant heap_closed).
    + destruct (_ <? _)%nat; [|done]. by apply onMessage_closed.
    + intros acc l Hacc. destruct (Nat.eqb _ _); [|done].
      by apply run_listener_closed.
  - unfold onExit. cbv zeta.
    set (heap := foldl _ (promises st) _).
    assert (Hheap : length heap = length (promises st)).
    { subst heap.
      apply (foldl_invariant (λ acc, length acc = length (promises st)));
        [done|].
      intros acc item Hacc. by rewrite settle_length. }
    destruct (respawn _).
    + unfold run. simpl.
      apply (heap_closed_resize st); simpl; try done. lia.
    + apply (heap_closed_resize st); simpl; try done. lia.
  - apply (heap_closed_resize st); simpl; [|done| |done].
    + by rewrite settle_chained_length.
    + intros l' Hin. by apply list_elem_of_filter in Hin as [_ Hin].
  - by apply send_closed.
  - by apply send_closed.
  - done.
  - done.
Qed.

Lemma waiting_closed_resize st st' :
  length (promises st) ≤ length (promises st') →
  (∀ n w, _evalsWaiting st' !! n = Some w → _evalsWaiting st !! n = Some w) →
  waiting_closed st → waiting_closed st'.
Proof.
  intros Hlen Hsub Hclosed n w Hn. specialize (Hclosed n w (Hsub n w Hn)).
  lia.
Qed.

Lemma eval_waiting_closed code nonce st :
  waiting_closed st → waiting_closed (eval code nonce st).1.
Proof.
  intros Hclosed. unfold eval. destruct (process st) as [child|].
  - destruct (_evalsWaiting st !! nonce); [done|].
    intros n w Hn. cbn [fst _evalsWaiting promises] in Hn |- *.
    rewrite length_app. cbn [length].
    apply lookup_insert_Some in Hn as [[_ <-]|[_ Hn]].
    + cbn [resolve]. lia.
    + specialize (Hclosed n w Hn). lia.
  - apply (waiting_closed_resize st); cbn [fst promises _evalsWaiting];
      [rewrite length_app; lia|done|done].
Qed.

Lemma run_listener_waiting_closed m l st :
  waiting_closed st → waiting_closed (run_listener m l st).
Proof.
  intros Hclosed. unfold run_listener.
  destruct (op m); try done. destruct (String.eqb _ _); [|done].
  apply (waiting_closed_resize st); cbn [promises _evalsWaiting]; [| |done].
  - by rewrite settle_chained_length.
  - intros n w Hn. by apply lookup_delete_Some in Hn as [_ Hn].
Qed.

(** The table names promises of the heap in the initial state, where it is
    empty, and after every event. *)
Lemma step_waiting_closed e st : waiting_closed st → waiting_closed (step e st).
Proof.
  intros Hclosed.
  destruct e as [code nonce|child m|exit_code signal|l e|data collected
                |data [thrown|]|]; simpl.
  - by apply eval_waiting_closed.
  - unfold child_message.
    apply (foldl_invariant waiting_closed).
    + destruct (_ <? _)%nat; [|done]. unfold onMessage, broadcastEvalRaw.
      destruct (op m); try done. destruct (request m); [|done].
      by apply eval_waiting_closed.
    + intros acc l Hacc. destruct (Nat.eqb _ _); [|done].
      by apply run_listener_waiting_closed.
  - unfold onExit. cbv zeta. intros n w Hn.
    destruct (respawn _); unfold run in Hn;
      cbn [process _evalsWaiting] in Hn; by rewrite lookup_empty in Hn.
  - apply (waiting_closed_resize st); unfold send_failed;
      cbn [promises _evalsWaiting];
      [by rewrite settle_chained_length|done|done].
  - unfold onMessage_collected, sendIPC, send. by destruct (process st).
  - unfold sendIPC, send. by destruct (process st).
  - done.
  - done.
Qed.

End HeapClosed.

(** ** The worker: targeted evaluate *)

Section Targeted.
Import ClusterIPCTypes.

(** C5. A worker that gets an evaluate request for a shard it does not own
    runs no code and sends one reply, the payload of the request with the
    ignored marker, and the call on the initiating side that waits for this
    nonce resolves to null.  A request the worker runs (no target shard, or
    a shard it owns) and whose payload has no ignored marker is answered
    only by replies that resolve to a pair of a value and the is-error
    flag; a pair is never null, whatever the value in it. *)
Theorem targeted_eval_on_foreign_shard_is_ignored
    (cluster_eval : string → ClusterProcessChild.EvalRun)
    (send_error : IPCMessage → option ErrorData)
    (p : ClusterProcessChild.t) (payload : Eval) (s : Z) :
  s ∉ ClusterProcessChild.shards p →
  let targeted := mkIPCMessage ClusterIPCOpCodes.EVAL payload true (Some s) in
  let reply :=
    mkIPCMessage ClusterIPCOpCodes.EVAL (Eval_with_ignored payload) false None in
  let p' := ClusterProcessChild.onMessage cluster_eval send_error targeted p in
  (ClusterProcessChild.sent p' = ClusterProcessChild.sent p ++ [reply]
   ∧ ClusterProcessChild.evaluated p' = ClusterProcessChild.evaluated p)
  ∧ (∀ st child code,
       ClusterProcess.heap_closed st →
       ClusterProcess.process st = Some child →
       ClusterProcess._evalsWaiting st !! nonce payload = None →
       let call := ClusterProcess.eval code (nonce payload) st in
       ClusterProcess.promises
         (ClusterProcess.child_message child reply call.1) !! call.2
       = Some (ClusterProcess.Resolved None))
  ∧ (∀ p0 request0,
       op request0 = ClusterIPCOpCodes.EVAL → request request0 = true →
       (∀ s0, shard request0 = Some s0 → s0 ∈ ClusterProcessChild.shards p0) →
       ignored (data request0) = false →
       let p0' :=
         ClusterProcessChild.onMessage cluster_eval send_error request0 p0 in
       ClusterProcessChild.evaluated p0'
       = ClusterProcessChild.evaluated p0 ++ [code (data request0)]
       ∧ ∃ replies,
           ClusterProcessChild.sent p0' = ClusterProcessChild.sent p0 ++ replies
           ∧ ∀ r, r ∈ replies →
                  ∃ value isError,
                    ClusterProcess.resolution_of (data r)
                    = Some (value, isError)
                    ∧ ClusterProcess.resolution_of (data r)
                      ≠ ClusterProcess.resolution_of (data reply)).
Proof.
  intros Hforeign targeted reply p'. split; [|split].
  - subst p' targeted reply. unfold ClusterProcessChild.onMessage.
    cbn [op request shard data].
    rewrite (bool_decide_eq_false_2 _ Hforeign). cbn [negb].
    unfold ClusterProcessChild.warn_on_error, ClusterProcessChild.sendIPC.
    cbn [fst snd]. by destruct (send_error _).
  - intros st child code Hclosed Hprocess Hnone call. subst call.
    destruct (reply_resolves_both st child code (nonce payload) reply
                Hclosed Hprocess Hnone eq_refl eq_refl) as [Houter _].
    rewrite (eval_registers st child code (nonce payload) Hprocess Hnone)
      in *.
    exact Houter.
  - intros p0 request0 Hop Hrequest Howned Hignored p0'. subst p0'.
    unfold ClusterProcessChild.onMessage. rewrite Hop, Hrequest.
    assert (Hnot_foreign :
              match shard request0 with
              | Some s0 => negb (bool_decide (s0 ∈ ClusterProcessChild.shards p0))
              | None => false
              end = false).
    { destruct (shard request0) as [s0|]; [|done].
      by rewrite (bool_decide_eq_true_2 _ (Howned s0 eq_refl)). }
    rewrite Hnot_foreign.
    assert (Hpair : ∀ d, ignored d = false →
              ∃ value isError,
                ClusterProcess.resolution_of d = Some (value, isError)
                ∧ ClusterProcess.resolution_of d
                  ≠ ClusterProcess.resolution_of (data reply)).
    { intros d Hd. unfold ClusterProcess.resolution_of. rewrite Hd.
      destruct (error d); eexists _, _; (split; [reflexivity|done]). }
    unfold ClusterProcessChild.warn_on_error, ClusterProcessChild.sendIPC,
      ClusterProcessChild.warn.
    destruct (cluster_eval (code (data request0))) as [value|[e|]];
      cbn [fst snd fmap option_fmap option_map].
    + destruct (send_error _) as [e|]; cbn [fst snd fmap option_fmap option_map].
      * destruct (send_error _);
          cbn [ClusterProcessChild.evaluated ClusterProcessChild.sent fst snd];
          (split; [done|]); rewrite <- app_assoc; eexists; (split; [done|]);
          intros r Hr; apply elem_of_cons in Hr as [->|Hr];
          [by apply Hpair| |by apply Hpair|];
          apply list_elem_of_singleton in Hr; subst r; by apply Hpair.
      * cbn [ClusterProcessChild.evaluated ClusterProcessChild.sent].
        split; [done|]. eexists. split; [done|].
        intros r Hr. apply list_elem_of_singleton in Hr. subst r.
        by apply Hpair.
    + destruct (send_error _);
        cbn [ClusterProcessChild.evaluated ClusterProcessChild.sent fst snd];
        (split; [done|]); eexists; (split; [done|]);
        intros r Hr; apply list_elem_of_singleton in Hr; subst r;
        by apply Hpair.
    + cbn [ClusterProcessChild.evaluated ClusterProcessChild.sent].
      split; [done|]. exists []. split; [by rewrite app_nil_r|].
      intros r Hr. by apply elem_of_nil in Hr.
Qed.

End Targeted.

(** Witness for C5: the example worker, asked for shard 5. *)
Lemma targeted_eval_on_foreign_shard_is_ignored_witness :
  (5%Z ∉ ClusterProcessChild.shards example_child)
  ∧ ClusterProcessChild.sent
      (ClusterProcessChild.onMessage example_cluster_eval example_send_error
         (ClusterIPCTypes.mkIPCMessage ClusterIPCOpCodes.EVAL
            (ClusterIPCTypes.Eval_request "null" "n1") true (Some 5%Z))
         example_child)
    = [ClusterIPCTypes.mkIPCMessage ClusterIPCOpCodes.EVAL
         (ClusterIPCTypes.Eval_with_ignored
            (ClusterIPCTypes.Eval_request "null" "n1"))
         false None].
Proof.
  assert (H : 5%Z ∉ ClusterProcessChild.shards example_child)
    by (apply (bool_decide_unpack _); vm_compute; exact I).
  split; [exact H|].
  exact (proj1 (proj1 (targeted_eval_on_foreign_shard_is_ignored
                         example_cluster_eval example_send_error example_child
                         (ClusterIPCTypes.Eval_request "null" "n1") 5 H))).
Defined.

(** The two outcomes side by side: the same call resolves to null when the
    worker ignored the request, and to the pair of null and false when the
    worker ran code that evaluates to null. *)
Lemma ignored_is_not_a_null_result :
  let call :=
    ClusterProcess.eval (ClusterProcess.CodeString "null") "n1"
      example_process in
  let reply_of (target : option Z) :=
    ClusterProcessChild.sent
      (ClusterProcessChild.onMessage example_cluster_eval example_send_error
         (ClusterIPCTypes.mkIPCMessage ClusterIPCOpCodes.EVAL
            (ClusterIPCTypes.Eval_request "null" "n1") true target)
         example_child) in
  let outcome (target : option Z) :=
    ClusterProcess.promises
      (foldl (λ acc m, ClusterProcess.child_message 0 m acc) call.1
         (reply_of target)) !! call.2 in
  outcome (Some 5%Z) = Some (ClusterProcess.Resolved None)
  ∧ outcome (Some 1%Z)
    = Some (ClusterProcess.Resolved (Some (ClusterIPCTypes.JsNull, false)))
  ∧ outcome None
    = Some (ClusterProcess.Resolved (Some (ClusterIPCTypes.JsNull, false))).
Proof. repeat split; vm_compute; reflexivity. Qed.

(** * Further properties *)

#[local] Set Warnings "-clear-no-such-hyp".

(** ** Construction and routing of the gateway handler *)

Section RoutingProperties.
Variable toUpperCase : string → string.
Variable values : list string.
Variable READY : string.
Variable DISPATCH : Z.
Variable D : Type.
Variable getHandler : string → option (D → GatewayHandler → GatewayHandler).
Variable hasRawListener : bool.

Lemma foldl_add_elem (l : list string) (base : gset string) (e : string) :
  e ∈ foldl (λ acc event, {[event]} ∪ acc) base l ↔ e ∈ l ∨ e ∈ base.
Proof.
  revert base. induction l as [|x l IH]; intros base; cbn [foldl].
  - split; [auto | intros [H|H]; [by apply elem_of_nil in H | done]].
  - rewrite IH, elem_of_union, elem_of_singleton, elem_of_cons. tauto.
Qed.

Lemma foldl_remove_elem (l : list string) (base : gset string) (e : string) :
  e ∈ foldl (λ acc event, acc ∖ {[toUpperCase event]}) base l
  ↔ e ∈ base ∧ e ∉ toUpperCase <$> l.
Proof.
  revert base. induction l as [|x l IH]; intros base; cbn [foldl fmap list_fmap].
  - split; [intros H; split; [done | apply not_elem_of_nil] | by intros [H _]].
  - rewrite IH, elem_of_difference, elem_of_singleton, not_elem_of_cons.
    tauto.
Qed.

(** X1. Which events a new handler has disabled: without a whitelist, the
    listed events in upper case; with a whitelist, every dispatch event
    that is not whitelisted in some letter case, the list of disabled
    events being dropped; READY in neither case. *)
Theorem GatewayHandler_new_disabledEvents (client : ShardClient)
    (options : GatewayHandlerOptions) (e : string) :
  e ∈ disabledEvents (GatewayHandler_new toUpperCase values READY client options)
  ↔ e ≠ READY
    ∧ match options_whitelistedEvents options with
      | Some whitelisted => e ∈ values ∧ e ∉ toUpperCase <$> whitelisted
      | None =>
          e ∈ toUpperCase <$> default [] (options_disabledEvents options)
      end.
Proof.
  unfold GatewayHandler_new. cbn [disabledEvents].
  rewrite elem_of_difference, elem_of_singleton.
  destruct (options_whitelistedEvents options) as [whitelisted|].
  - rewrite foldl_remove_elem, foldl_add_elem.
    split; [intros [[[H|H] ?] ?]; [done | by apply elem_of_empty in H] | tauto].
  - rewrite elem_of_list_to_set. tauto.
Qed.

(** X2. A READY dispatch is handed to its handler by every new gateway
    handler, whatever the options disable or leave out of the whitelist. *)
Theorem onPacket_READY_is_never_filtered (client : ShardClient)
    (options : GatewayHandlerOptions) (d : D)
    (handler : D → GatewayHandler → GatewayHandler) :
  getHandler READY = Some handler →
  let r := GatewayHandler_new toUpperCase values READY client options in
  router_handler
    (onPacket DISPATCH D getHandler hasRawListener
       (mkGatewayPacket DISPATCH d READY) r)
  = handler d
      (if hasRawListener
       then with_client (emit ClientEvents.RAW) (router_handler r)
       else router_handler r).
Proof.
  intros Hhandler r. unfold onPacket. cbn [packet_op packet_t packet_d].
  rewrite bool_decide_eq_false_2 by (intros H; by apply H).
  rewrite bool_decide_eq_false_2.
  - by rewrite Hhandler.
  - subst r. unfold GatewayHandler_new. cbn [disabledEvents].
    rewrite elem_of_difference, elem_of_singleton. by intros [_ H].
Qed.

(** X3. When the options give no whitelist of events, an event other than
    READY that they list as disabled, in any letter case, is not handed to
    its handler when it arrives under its upper-case name: apart from the
    raw notification the handler state is left as it is. *)
Theorem onPacket_disabled_event_is_dropped (client : ShardClient)
    (options : GatewayHandlerOptions) (event : string) (d : D) :
  options_whitelistedEvents options = None →
  event ∈ default [] (options_disabledEvents options) →
  toUpperCase event ≠ READY →
  let r := GatewayHandler_new toUpperCase values READY client options in
  onPacket DISPATCH D getHandler hasRawListener
    (mkGatewayPacket DISPATCH d (toUpperCase event)) r
  = mkGatewayRouter
      (if hasRawListener
       then with_client (emit ClientEvents.RAW) (router_handler r)
       else router_handler r)
      (disabledEvents r).
Proof.
  intros Hwhite Hin Hne r. unfold onPacket. cbn [packet_op packet_t packet_d].
  rewrite bool_decide_eq_false_2 by (intros H; by apply H).
  rewrite bool_decide_eq_true_2; [done|].
  subst r. unfold GatewayHandler_new. cbn [disabledEvents]. rewrite Hwhite.
  rewrite elem_of_difference, elem_of_singleton, elem_of_list_to_set.
  split; [|done]. by apply list_elem_of_fmap_2.
Qed.

End RoutingProperties.

(** A READY packet reaches its handler though the options disable READY. *)
Lemma onPacket_READY_is_never_filtered_witness :
  router_handler
    (onPacket 0 (GatewayRawEvents.Ready unit) example_getHandler false
       (mkGatewayPacket 0 example_ready "READY")
       (GatewayHandler_new example_toUpperCase example_events "READY"
          initial_client example_options))
  = example_READY example_ready
      (router_handler
         (GatewayHandler_new example_toUpperCase example_events "READY"
            initial_client example_options)).
Proof.
  exact (onPacket_READY_is_never_filtered example_toUpperCase example_events
           "READY" 0 (GatewayRawEvents.Ready unit) example_getHandler false
           initial_client example_options example_ready
           example_READY eq_refl).
Defined.

(** A GUILD_CREATE packet is dropped when the options disable
    guild_create. *)
Lemma onPacket_disabled_event_is_dropped_witness :
  "guild_create" ∈ default [] (options_disabledEvents example_options)
  ∧ router_handler
      (onPacket 0 (GatewayRawEvents.Ready unit) example_getHandler false
         (mkGatewayPacket 0 example_ready "GUILD_CREATE")
         (GatewayHandler_new example_toUpperCase example_events "READY"
            initial_client example_options))
    = initial_handler.
Proof.
  assert (Hin : "guild_create"
                ∈ default [] (options_disabledEvents example_options))
    by (apply (bool_decide_unpack _); vm_compute; exact I).
  split; [exact Hin|].
  assert (Hne : example_toUpperCase "guild_create" ≠ "READY")
    by (vm_compute; discriminate).
  pose proof (onPacket_disabled_event_is_dropped example_toUpperCase
                example_events "READY" 0 (GatewayRawEvents.Ready unit)
                example_getHandler false initial_client example_options
                "guild_create" example_ready eq_refl Hin Hne) as H.
  cbv zeta in H.
  change (example_toUpperCase "guild_create") with "GUILD_CREATE" in H.
  rewrite H. reflexivity.
Defined.

(** ** READY *)

Section ReadyProperties.
Import GatewayDispatchHandler GatewayRawEvents.
Variable Raw : Type.
Variable notes_enabled : ShardClient → bool.
Variable notes_insert : string → string → ShardClient → ShardClient.
Variable presences_insert : Raw → ShardClient → ShardClient.
Variable raw_id : Raw → string.
Variable Channel_merge : Raw → Channel → ShardClient → ShardClient * Channel.
Variable createChannelFromData : ShardClient → Raw → ShardClient * Channel.
Variable Relationship_merge
  : Raw → string → ShardClient → ShardClient * string.
Variable Relationship_new : ShardClient → Raw → ShardClient * (string * string).
Variable isBot : RawUser → bool.
Variable owners_set : User → ShardClient → ShardClient.

(** One turn of the loop of READY: what it does to the three sets. *)
Lemma READY_guild_chunks (acc : ShardClient * MemberChunks * list string)
    (raw : RawGuild) :
  let r := READY_guild true acc raw in
  chunks_left acc.1.2 ⊆ chunks_left r.1.2
  ∧ chunks_done acc.1.2 ⊆ chunks_done r.1.2
  ∧ chunks_sending r.1.2 = chunks_sending acc.1.2
  ∧ chunks_timer r.1.2 = chunks_timer acc.1.2
  ∧ (raw_unavailable raw = Some true → raw_guild_id raw ∈ chunks_left r.1.2).
Proof.
  destruct acc as [[c mc] requestChunksNow]. unfold READY_guild.
  set (upsert := match store_get (guilds c) (raw_guild_id raw) with
                 | Some _ => _ | None => _ end).
  assert (Hupsert : guild_id upsert.2 = raw_guild_id raw
            ∧ (raw_unavailable raw = Some true →
               unavailable upsert.2 = true)).
  { subst upsert.
    destruct (store_get (guilds c) (raw_guild_id raw)); cbn [snd];
      (split; [done|]); intros Hflag; simpl; by rewrite Hflag. }
  destruct upsert as [c' guild]. cbn [fst snd] in Hupsert |- *.
  destruct Hupsert as [Hid Hflag]. rewrite Hid.
  destruct (unavailable guild) eqn:Hunavailable.
  - cbn [fst snd chunks_left chunks_done chunks_sending chunks_timer].
    split; [set_solver|]. split; [done|]. split; [done|]. split; [done|].
    intros _. set_solver.
  - assert (Hnot : raw_unavailable raw = Some true →
              raw_guild_id raw ∈ chunks_left mc).
    { intros H. specialize (Hflag H). congruence. }
    destruct (bool_decide _);
      cbn [fst snd chunks_left chunks_done chunks_sending chunks_timer].
    + split; [done|]. split; [set_solver|]. done.
    + done.
Qed.

(** X4. When all members are to be loaded and the guild store is enabled,
    READY puts every guild that its payload lists as unavailable into the
    left set, whether or not the guild is in the done set; it takes nothing
    out of the left and done sets and leaves the sending set and the timer
    as they are. *)
Theorem READY_queues_unavailable_guilds (data : Ready Raw)
    (h : GatewayHandler) :
  enabled (guilds (client h)) = true →
  shouldLoadAllMembers h = true →
  let mc' :=
    memberChunks
      (READY Raw notes_enabled notes_insert presences_insert raw_id
         Channel_merge createChannelFromData Relationship_merge
         Relationship_new isBot owners_set data h) in
  (∀ raw, raw ∈ ready_guilds data → raw_unavailable raw = Some true →
          raw_guild_id raw ∈ chunks_left mc')
  ∧ chunks_left (memberChunks h) ⊆ chunks_left mc'
  ∧ chunks_done (memberChunks h) ⊆ chunks_done mc'
  ∧ chunks_sending mc' = chunks_sending (memberChunks h)
  ∧ chunks_timer mc' = chunks_timer (memberChunks h).
Proof.
  intros He Hshould mc'. subst mc'. unfold READY. cbv zeta.
  rewrite Hshould.
  set (c1 := set_users _ _).
  assert (He1 : enabled (guilds c1) = true) by (subst c1; by simpl).
  rewrite He1.
  assert (Hloop : ∀ gs acc,
            let r := foldl (READY_guild true) acc gs in
            (∀ raw, raw ∈ gs → raw_unavailable raw = Some true →
                    raw_guild_id raw ∈ chunks_left r.1.2)
            ∧ chunks_left acc.1.2 ⊆ chunks_left r.1.2
            ∧ chunks_done acc.1.2 ⊆ chunks_done r.1.2
            ∧ chunks_sending r.1.2 = chunks_sending acc.1.2
            ∧ chunks_timer r.1.2 = chunks_timer acc.1.2).
  { induction gs as [|x rest IH]; intros acc.
    - cbn [foldl]. split; [|done].
      intros raw Hin. by apply elem_of_nil in Hin.
    - cbn [foldl]. cbv zeta.
      destruct (READY_guild_chunks acc x) as (Hl & Hd & Hs & Ht & Hx).
      cbv zeta in Hl, Hd, Hs, Ht, Hx.
      destruct (IH (READY_guild true acc x)) as (Hin' & Hl' & Hd' & Hs' & Ht').
      cbv zeta in Hin', Hl', Hd', Hs', Ht'.
      split; [|split; [|split; [|split]]].
      + intros raw [->|Hin]%elem_of_cons Hflag.
        * apply Hl'. by apply Hx.
        * by apply Hin'.
      + set_solver.
      + set_solver.
      + by rewrite Hs'.
      + by rewrite Ht'. }
  destruct (Hloop (ready_guilds data) (c1, memberChunks h, []))
    as (Hin & Hl & Hd & Hs & Ht).
  cbv zeta in Hin, Hl, Hd, Hs, Ht.
  destruct (foldl _ _ (ready_guilds data)) as [[c2 mc2] requestChunksNow].
  cbn [fst snd] in Hin, Hl, Hd, Hs, Ht. cbn [memberChunks]. done.
Qed.

End ReadyProperties.

(** The second guild of the example payload is unavailable. *)
Lemma READY_queues_unavailable_guilds_witness :
  "g2" ∈ chunks_left (memberChunks (example_READY example_ready_two initial_handler)).
Proof.
  pose proof (READY_queues_unavailable_guilds unit (λ _, false) (λ _ _ c, c)
                (λ _ c, c) (λ _, "") (λ _ channel c, (c, channel))
                (λ c _, (c, mkChannel "" None ∅))
                (λ _ relationship c, (c, relationship))
                (λ c _, (c, ("", ""))) (λ raw, default false (raw_bot raw))
                (λ _ c, c) example_ready_two initial_handler eq_refl eq_refl)
    as [Hleft _].
  apply (Hleft (mkRawGuild "g2" None None (Some true))); [|reflexivity].
  apply elem_of_cons. right. apply elem_of_cons. by left.
Defined.

(** ** GUILD_CREATE and the member-chunk timer *)

Section ChunkBatching.
Import GatewayDispatchHandler.

(** One GUILD_CREATE, as far as member loading goes. *)
Lemma GUILD_CREATE_frame (data : RawGuild) (h : GatewayHandler) :
  let h' := GUILD_CREATE data h in
  members (client h') = members (client h)
  ∧ guildSubscriptions (client h') = guildSubscriptions (client h)
  ∧ requestedGuildMembers (client h') = requestedGuildMembers (client h)
  ∧ loadAllMembers h' = loadAllMembers h.
Proof.
  unfold GUILD_CREATE. cbv zeta.
  destruct (store_get (guilds (client h)) (raw_guild_id data)); by simpl.
Qed.

Lemma GUILD_CREATE_queues (data : RawGuild) (h : GatewayHandler) (n : Z) :
  shouldLoadAllMembers h = true →
  raw_member_count data = Some n →
  n ≠ store_length2 (members (client h)) (raw_guild_id data) →
  let mc := memberChunks h in
  let g := raw_guild_id data in
  g ∉ chunks_done mc →
  memberChunks (GUILD_CREATE data h)
  = mkMemberChunks ({[g]} ∪ chunks_done mc)
      (({[g]} ∪ chunks_left mc) ∖ {[g]})
      (sending_add g (chunks_sending mc)) true.
Proof.
  intros Hshould Hcount Hne mc g Hdone. unfold GUILD_CREATE. cbv zeta.
  rewrite Hshould.
  set (upsert := match store_get (guilds (client h)) (raw_guild_id data) with
                 | Some _ => _ | None => _ end).
  assert (Hupsert : guild_id upsert.2 = g ∧ memberCount upsert.2 = n
                    ∧ members upsert.1 = members (client h)).
  { subst upsert.
    destruct (store_get _ _); simpl; by rewrite Hcount. }
  destruct upsert as [c1 guild]. cbn [fst snd] in Hupsert.
  destruct Hupsert as (Hid & Hn & Hmembers). cbn [memberChunks].
  unfold Guild_members_length. rewrite Hid, Hn, Hmembers. fold mc.
  assert (Hmismatch : bool_decide
            (store_length2 (members (client h)) g ≠ n) = true).
  { apply bool_decide_eq_true_2. intros Heq. apply Hne. symmetry. exact Heq. }
  rewrite Hmismatch.
  rewrite (bool_decide_eq_false_2 _ Hdone).
  rewrite bool_decide_eq_true_2; [done|].
  apply elem_of_union. left. by apply elem_of_singleton.
Qed.

(** X6. When all members are to be loaded, the guilds that become available
    within one window of the timer are requested together: after one or
    more GUILD_CREATE events for distinct guilds that are in neither the done
    nor the sending set and whose member count differs from the members
    cached, no request has gone out, the guilds are in the done set and
    out of the left set, they follow in the sending set, in the order of
    the events, the ids that were waiting there, and the timer is armed;
    when the timer fires, one request lists the sending set in that order,
    and the set is then empty. *)
Theorem GUILD_CREATE_requests_are_batched (ds : list RawGuild)
    (h : GatewayHandler) :
  shouldLoadAllMembers h = true →
  ds ≠ [] →
  NoDup (raw_guild_id <$> ds) →
  (∀ raw, raw ∈ ds →
     (raw_guild_id raw ∉ chunks_done (memberChunks h))
     ∧ (raw_guild_id raw ∉ chunks_sending (memberChunks h))
     ∧ ∃ n, raw_member_count raw = Some n
            ∧ n ≠ store_length2 (members (client h)) (raw_guild_id raw)) →
  let h' := foldl (λ acc raw, GUILD_CREATE raw acc) h ds in
  let ids : gset string := list_to_set (raw_guild_id <$> ds) in
  let sending := chunks_sending (memberChunks h) ++ (raw_guild_id <$> ds) in
  memberChunks h'
  = mkMemberChunks (ids ∪ chunks_done (memberChunks h))
      (chunks_left (memberChunks h) ∖ ids) sending true
  ∧ requestedGuildMembers (client h') = requestedGuildMembers (client h)
  ∧ requestedGuildMembers (client (memberChunks_timer_fire h'))
    = sending :: requestedGuildMembers (client h)
  ∧ chunks_sending (memberChunks (memberChunks_timer_fire h')) = []
  ∧ chunks_timer (memberChunks (memberChunks_timer_fire h')) = false.
Proof.
  intros Hshould Hne Hnodup Hds h' ids sending.
  assert (Hfold : ∀ ds0 h0,
            shouldLoadAllMembers h0 = true →
            members (client h0) = members (client h) →
            NoDup (raw_guild_id <$> ds0) →
            (∀ raw, raw ∈ ds0 →
               (raw_guild_id raw ∉ chunks_done (memberChunks h0))
               ∧ (raw_guild_id raw ∉ chunks_sending (memberChunks h0))
               ∧ ∃ n, raw_member_count raw = Some n
                      ∧ n ≠ store_length2 (members (client h))
                              (raw_guild_id raw)) →
            let r := foldl (λ acc raw, GUILD_CREATE raw acc) h0 ds0 in
            let ids0 : gset string := list_to_set (raw_guild_id <$> ds0) in
            memberChunks r
            = mkMemberChunks (ids0 ∪ chunks_done (memberChunks h0))
                (chunks_left (memberChunks h0) ∖ ids0)
                (chunks_sending (memberChunks h0) ++ (raw_guild_id <$> ds0))
                (match ds0 with
                 | [] => chunks_timer (memberChunks h0)
                 | _ :: _ => true
                 end)
            ∧ requestedGuildMembers (client r)
              = requestedGuildMembers (client h0)).
  { induction ds0 as [|raw ds0 IH]; intros h0 Hshould0 Hmembers Hnd Hds0.
    - cbn [foldl fmap list_fmap list_to_set foldr]. split; [|done].
      destruct (memberChunks h0). cbn. rewrite app_nil_r.
      f_equal; [by rewrite (left_id_L ∅ (∪)) | by rewrite difference_empty_L].
    - cbn [foldl]. destruct (GUILD_CREATE_frame raw h0) as (Hm & Hs & Hr & Hl).
      cbv zeta in Hm, Hs, Hr, Hl.
      cbn [fmap list_fmap] in Hnd. apply NoDup_cons in Hnd as [Hfresh Hnd].
      destruct (Hds0 raw) as (Hdone & Hsending & n & Hcount & Hn);
        [apply elem_of_cons; auto|].
      pose proof (GUILD_CREATE_queues raw h0 n Hshould0 Hcount) as Hq.
      rewrite Hmembers in Hq. specialize (Hq Hn Hdone). cbv zeta in Hq.
      unfold sending_add in Hq.
      rewrite (bool_decide_eq_false_2 _ Hsending) in Hq.
      set (h1 := GUILD_CREATE raw h0) in *.
      destruct (IH h1) as [IHmc IHr].
      + unfold shouldLoadAllMembers in *. by rewrite Hl, Hs.
      + by rewrite Hm.
      + exact Hnd.
      + intros raw' Hin'.
        destruct (Hds0 raw') as (Hdone' & Hsending' & Hcount');
          [apply elem_of_cons; auto|].
        assert (Hother : raw_guild_id raw' ≠ raw_guild_id raw).
        { intros Heq. apply Hfresh. rewrite <- Heq.
          by apply list_elem_of_fmap_2. }
        rewrite Hq. cbn [chunks_done chunks_sending].
        split; [set_solver|]. split; [|done].
        intros [?|Hlast]%elem_of_app; [done|].
        by apply list_elem_of_singleton in Hlast.
      + cbv zeta in IHmc, IHr. rewrite IHmc, IHr, Hr, Hq.
        cbn [chunks_done chunks_left chunks_sending chunks_timer].
        split; [|done]. cbn [fmap list_fmap list_to_set foldr].
        rewrite <- app_assoc. cbn [app].
        f_equal; [set_solver | set_solver |].
        by destruct ds0. }
  destruct (Hfold ds h Hshould eq_refl Hnodup Hds) as [Hmc Hr].
  cbv zeta in Hmc, Hr. fold h' ids sending in Hmc, Hr.
  assert (Htimer : match ds with
                   | [] => chunks_timer (memberChunks h)
                   | _ :: _ => true
                   end = true) by (by destruct ds).
  rewrite Htimer in Hmc. split; [done|]. split; [done|].
  unfold memberChunks_timer_fire. rewrite Hmc.
  cbn [chunks_timer chunks_sending chunks_done chunks_left].
  destruct sending as [|x xs] eqn:He.
  - exfalso. subst sending. apply app_eq_nil in He as [_ He].
    apply fmap_nil_inv in He. done.
  - cbn [client memberChunks chunks_sending chunks_timer]. simpl.
    by rewrite Hr.
Qed.

End ChunkBatching.

(** Two guilds show up within the delay: one request names both, in the
    order in which they showed up. *)
Lemma GUILD_CREATE_requests_are_batched_witness :
  let ds := [mkRawGuild "g2" (Some 5%Z) None None;
             mkRawGuild "g1" (Some 3%Z) None None] in
  let h' :=
    foldl (λ acc raw, GatewayDispatchHandler.GUILD_CREATE raw acc)
      initial_handler ds in
  requestedGuildMembers (client h') = []
  ∧ requestedGuildMembers (client (memberChunks_timer_fire h'))
    = [["g2"; "g1"]].
Proof.
  intros ds h'.
  assert (Hds : ∀ raw, raw ∈ ds →
            (raw_guild_id raw ∉ chunks_done (memberChunks initial_handler))
            ∧ (raw_guild_id raw
               ∉ chunks_sending (memberChunks initial_handler))
            ∧ ∃ n, raw_member_count raw = Some n
                   ∧ n ≠ store_length2 (members (client initial_handler))
                           (raw_guild_id raw)).
  { intros raw Hin. split; [apply not_elem_of_empty|].
    split; [apply not_elem_of_nil|].
    apply elem_of_cons in Hin as [->|Hin].
    - exists 5%Z. split; [reflexivity|]. vm_compute. discriminate.
    - apply list_elem_of_singleton in Hin as ->.
      exists 3%Z. split; [reflexivity|]. vm_compute. discriminate. }
  assert (Hnodup : NoDup (raw_guild_id <$> ds))
    by (apply (bool_decide_unpack _); vm_compute; exact I).
  destruct (GUILD_CREATE_requests_are_batched ds initial_handler eq_refl
              ltac:(discriminate) Hnodup Hds) as (_ & Hquiet & Hfire & _).
  split; [exact Hquiet | exact Hfire].
Defined.

(** ** GUILD_DELETE *)

Section GuildDeleteMore.
Import GatewayDispatchHandler.

(** The channel loop of the sweep, key by key. *)
Lemma sweep_channels_lookup (guildId : string)
    (l : list (string * Channel)) (c : ShardClient) (k : string) :
  let swept :=
    foldl (λ acc kv,
             if bool_decide (channel_guildId kv.2 = Some guildId)
             then sweep_channel kv.1 acc else acc)
      c l in
  enabled (channels swept) = enabled (channels c)
  ∧ enabled (messages swept) = enabled (messages c)
  ∧ ((∀ kv, kv ∈ l → channel_guildId kv.2 = Some guildId → kv.1 ≠ k) →
     cache (channels swept) !! k = cache (channels c) !! k
     ∧ cache (messages swept) !! k = cache (messages c) !! k)
  ∧ ((∃ kv, kv ∈ l ∧ channel_guildId kv.2 = Some guildId ∧ kv.1 = k) →
     cache (channels swept) !! k = None
     ∧ cache (messages swept) !! k = None).
Proof.
  revert c. induction l as [|kv l IH]; intros c; cbn [foldl].
  - split; [done|]. split; [done|]. split; [done|].
    intros (kv & Hin & _). by apply elem_of_nil in Hin.
  - set (c1 := if bool_decide (channel_guildId kv.2 = Some guildId)
               then sweep_channel kv.1 c else c).
    destruct (IH c1) as (Hec & Hem & Hother & Hswept).
    assert (Hc1 : enabled (channels c1) = enabled (channels c)
                  ∧ enabled (messages c1) = enabled (messages c))
      by (subst c1; by case_bool_decide).
    destruct Hc1 as [Hec1 Hem1].
    split; [congruence|]. split; [congruence|]. split.
    + intros Hkeep.
      destruct Hother as [Hch Hmsg].
      { intros kv' Hin. apply Hkeep, elem_of_cons. auto. }
      rewrite Hch, Hmsg. subst c1. case_bool_decide as Hg; [|done].
      assert (kv.1 ≠ k) by (apply Hkeep; [apply elem_of_cons; auto | done]).
      simpl. by rewrite !lookup_delete_ne.
    + intros (kv' & Hin & Hg & Hk).
      apply elem_of_cons in Hin as [->|Hin].
      * destruct (decide (Exists (λ kv0 : string * Channel,
                                    channel_guildId kv0.2 = Some guildId
                                    ∧ kv0.1 = k) l)) as [Hex|Hnex].
        -- apply Hswept. apply Exists_exists in Hex as (kv0 & Hin0 & Hg0 & Hk0).
           by exists kv0.
        -- destruct Hother as [Hch Hmsg].
           { intros kv0 Hin0 Hg0 Hk0. apply Hnex, Exists_exists.
             by exists kv0. }
           rewrite Hch, Hmsg. subst c1. rewrite bool_decide_eq_true_2 by done.
           simpl. subst k. by rewrite !lookup_delete_eq.
      * apply Hswept. by exists kv'.
Qed.

(** After the sweep no channel of the guild is cached and no message
    collection is filed under such a channel; the channels of other guilds
    and the direct-message channels are as before. *)
Lemma sweep_guild_channels (guildId : string) (c : ShardClient) :
  let c' := sweep_guild guildId c in
  (∀ k channel, store_get (channels c) k = Some channel →
     if bool_decide (channel_guildId channel = Some guildId)
     then store_get (channels c') k = None
          ∧ store_get (messages c') k = None
     else store_get (channels c') k = Some channel)
  ∧ (∀ k channel, store_get (channels c') k = Some channel →
                  store_get (channels c) k = Some channel).
Proof.
  unfold sweep_guild.
  set (swept := foldl _ c (store_entries (channels c))).
  set (cleared := set_voiceStates _ _).
  set (final := match messages_type cleared with
                | MessageCacheTypes.USER => _ | _ => cleared end).
  assert (Hfinal : channels final = channels swept
            ∧ enabled (messages final) = enabled (messages swept)
            ∧ ∀ k, cache (messages swept) !! k = None →
                   cache (messages final) !! k = None).
  { assert (Hcleared : channels cleared = channels swept
              ∧ enabled (messages cleared) = enabled (messages swept)
              ∧ ∀ k, cache (messages swept) !! k = None →
                     cache (messages cleared) !! k = None).
    { subst cleared. simpl. repeat split; try done.
      intros k Hk. rewrite lookup_delete. by case_decide. }
    subst final. destruct (messages_type cleared); try exact Hcleared.
    apply (foldl_invariant
             (λ x, channels x = channels swept
                   ∧ enabled (messages x) = enabled (messages swept)
                   ∧ ∀ k, cache (messages swept) !! k = None →
                          cache (messages x) !! k = None));
      [exact Hcleared|].
    intros a [i m] (Hch & He & Hmsg). cbn [fst snd].
    case_bool_decide; [|done]. simpl. repeat split; try done.
    intros k Hk. rewrite lookup_alter. case_decide; [|by apply Hmsg].
    subst k. by rewrite (Hmsg _ Hk). }
  destruct Hfinal as (Hch & Hem & Hmsg). cbv zeta.
  fold swept cleared final.
  unfold store_get. rewrite Hch, Hem.
  split.
  - intros k channel Hk.
    destruct (sweep_channels_lookup guildId (store_entries (channels c)) c k)
      as (Hec & Hemsg & Hother & Hswept).
    cbv zeta in Hec, Hemsg, Hother, Hswept. fold swept in Hec, Hemsg, Hother, Hswept.
    rewrite Hec, Hemsg.
    unfold store_entries in Hother, Hswept.
    destruct (enabled (channels c)); [|done].
    case_bool_decide as Hg.
    + destruct Hswept as [Hchk Hmsgk].
      { exists (k, channel). split; [by apply elem_of_map_to_list | done]. }
      split; [done|]. destruct (enabled (messages c)); [|done].
      by apply Hmsg.
    + destruct Hother as [Hchk _]; [|by rewrite Hchk].
      intros [k' ch'] Hin Hg' Hk'. simpl in Hg', Hk'. subst k'.
      apply elem_of_map_to_list in Hin. congruence.
  - intros k channel Hk.
    destruct (sweep_channels_lookup guildId (store_entries (channels c)) c k)
      as (Hec & _ & Hother & Hswept).
    cbv zeta in Hec, Hother, Hswept. fold swept in Hec, Hother, Hswept.
    rewrite Hec in Hk. unfold store_entries in Hother, Hswept.
    destruct (enabled (channels c)); [|done].
    destruct (decide (Exists (λ kv : string * Channel,
                                channel_guildId kv.2 = Some guildId ∧ kv.1 = k)
                        (map_to_list (cache (channels c)))))
      as [Hex|Hnex].
    + apply Exists_exists in Hex as (kv & Hin & Hg & Hkv).
      destruct Hswept as [Hnone _]; [by exists kv | congruence].
    + destruct Hother as [Hchk _]; [|by rewrite <- Hchk].
      intros kv Hin Hg Hkv. apply Hnex, Exists_exists. by exists kv.
Qed.

(** X7. GUILD_DELETE for a cached guild takes every channel of the guild out
    of the channel store, together with the message collection filed under
    the channel, and leaves every other channel cached as it was. *)
Theorem GUILD_DELETE_sweeps_channels (data : RawGuild) (h : GatewayHandler)
    (k : string) (channel : Channel) :
  store_has (guilds (client h)) (raw_guild_id data) = true →
  store_get (channels (client h)) k = Some channel →
  let c' := client (GUILD_DELETE data h) in
  if bool_decide (channel_guildId channel = Some (raw_guild_id data))
  then store_get (channels c') k = None ∧ store_get (messages c') k = None
  else store_get (channels c') k = Some channel.
Proof.
  intros Hhas Hk c'. subst c'. unfold GUILD_DELETE.
  apply store_has_get in Hhas as [guild Hguild].
  rewrite Hguild. cbv zeta. simpl negb. simpl orb. cbv iota.
  set (c1 := set_guilds _ (client h)).
  destruct (sweep_guild_channels (raw_guild_id data) c1) as [Hsweep _].
  specialize (Hsweep k channel Hk).
  set (c3 := if negb _ then _ else _).
  assert (Hc3 : channels c3 = channels (sweep_guild (raw_guild_id data) c1)
                ∧ messages c3 = messages (sweep_guild (raw_guild_id data) c1)).
  { subst c3. by destruct (negb _). }
  destruct Hc3 as [Hch Hmsg]. simpl. by rewrite Hch, Hmsg.
Qed.

(** X8. Whether GUILD_DELETE keeps the guild: with the guild store enabled, an
    event flagged unavailable leaves the guild cached and marked
    unavailable, also when the guild was not cached before; an event
    without the flag leaves no guild under the id. *)
Theorem GUILD_DELETE_keeps_unavailable_guild (data : RawGuild)
    (h : GatewayHandler) :
  enabled (guilds (client h)) = true →
  let c' := client (GUILD_DELETE data h) in
  (default false (raw_unavailable data) = false →
   store_get (guilds c') (raw_guild_id data) = None)
  ∧ (raw_unavailable data = Some true →
     ∃ guild, store_get (guilds c') (raw_guild_id data) = Some guild
              ∧ unavailable guild = true
              ∧ guild_id guild = raw_guild_id data).
Proof.
  intros He c'. subst c'. unfold GUILD_DELETE. cbv zeta.
  set (upsert := match store_get (guilds (client h)) (raw_guild_id data) with
                 | Some _ => _ | None => _ end).
  assert (Hupsert : enabled (guilds upsert.1) = true
            ∧ (raw_unavailable data = Some true →
               ∃ guild, cache (guilds upsert.1) !! raw_guild_id data = Some guild
                        ∧ unavailable guild = true
                        ∧ guild_id guild = raw_guild_id data)).
  { subst upsert. unfold store_get. rewrite He.
    destruct (cache (guilds (client h)) !! raw_guild_id data) as [g|] eqn:Hg;
      cbn [fst]; unfold store_insert; simpl; rewrite ?He; simpl;
      (split; [done|]); intros Hflag.
    - rewrite lookup_alter_eq, Hg. simpl. eexists. split; [done|].
      unfold Guild_merge. simpl. by rewrite Hflag.
    - rewrite lookup_insert_eq. eexists. split; [done|].
      unfold Guild_new, Guild_merge. simpl. by rewrite Hflag. }
  destruct upsert as [c1 isNew]. cbn [fst] in Hupsert.
  destruct Hupsert as [He1 Hkept].
  set (c2 := if negb isNew || negb (enabled (guilds c1)) then _ else c1).
  assert (Hc2 : guilds c2 = guilds c1).
  { subst c2. destruct (negb isNew || negb (enabled (guilds c1))); [|done].
    by destruct (sweep_guild_frame (raw_guild_id data) c1) as (_ & Hg & _). }
  split.
  - intros Hflag. rewrite Hflag. simpl. rewrite Hc2.
    unfold store_get. simpl. rewrite He1. apply lookup_delete_eq.
  - intros Hflag. rewrite Hflag. simpl. rewrite Hc2.
    unfold store_get. rewrite He1. by apply Hkept.
Qed.

End GuildDeleteMore.

(** The channel of the example guild goes with the guild. *)
Lemma GUILD_DELETE_sweeps_channels_witness :
  store_get
    (channels
       (client
          (GatewayDispatchHandler.GUILD_DELETE example_guild_delete
             example_handler)))
    "c1" = None.
Proof.
  pose proof (GUILD_DELETE_sweeps_channels example_guild_delete
                example_handler "c1" (mkChannel "c1" (Some "g1") ∅)
                eq_refl eq_refl) as H.
  cbv zeta in H.
  assert (Hb : bool_decide
                 (channel_guildId (mkChannel "c1" (Some "g1") ∅)
                  = Some (raw_guild_id example_guild_delete)) = true)
    by (vm_compute; reflexivity).
  rewrite Hb in H. exact (proj1 H).
Defined.

(** The example guild becomes unavailable and stays cached. *)
Lemma GUILD_DELETE_keeps_unavailable_guild_witness :
  ∃ guild,
    store_get
      (guilds
         (client
            (GatewayDispatchHandler.GUILD_DELETE
               (mkRawGuild "g1" None None (Some true)) example_handler)))
      "g1" = Some guild
    ∧ unavailable guild = true ∧ guild_id guild = "g1".
Proof.
  exact (proj2 (GUILD_DELETE_keeps_unavailable_guild
                  (mkRawGuild "g1" None None (Some true)) example_handler
                  eq_refl) eq_refl).
Defined.

(** ** GUILD_MEMBER_REMOVE *)

Section GuildMemberRemove.
Import GatewayDispatchHandler GatewayRawEvents.

(** The stores after GUILD_MEMBER_REMOVE, one by one. *)
Lemma GUILD_MEMBER_REMOVE_stores (data : GuildMemberRemove)
    (h : GatewayHandler) :
  let g := guild_member_remove_guild_id data in
  let raw := guild_member_remove_user data in
  let u := raw_user_id raw in
  let c := client h in
  let c' := client (GUILD_MEMBER_REMOVE data h) in
  let users1 :=
    match store_get (users c) u with
    | Some old => store_update u (λ _, User_merge raw old) (users c)
    | None => users c
    end in
  let guilds1 :=
    if store_has (guilds c) g then
      store_update g
        (λ guild, mkGuild (guild_id guild) (Number_sub (memberCount guild) 1)
                    (guild_roles guild) (unavailable guild))
        (guilds c)
    else guilds c in
  let members1 := store_delete2 g u (members c) in
  let shares :=
    existsb (λ kv : string * Guild, store_has2 members1 (guild_id kv.2) u)
      (store_entries guilds1)
    || existsb (λ kv : string * Channel, bool_decide (u ∈ recipients kv.2))
         (store_entries (channels c))
    || store_has (relationships c) u in
  members c' = members1
  ∧ voiceStates c' = store_delete2 (Some g) u (voiceStates c)
  ∧ guilds c' = guilds1
  ∧ channels c' = channels c
  ∧ relationships c' = relationships c
  ∧ messages c' = messages c
  ∧ users c' = (if shares then users1 else store_delete u users1).
Proof.
  intros g raw u c c' users1 guilds1 members1 shares.
  subst c'. unfold GUILD_MEMBER_REMOVE. fold g raw u c.
  assert (Huser : ∀ old, user_id (User_merge raw old) = u) by done.
  assert (Hnew : user_id (User_new raw) = u) by done.
  assert (Hrest : ∀ c1 : ShardClient,
            users c1 = users1 → guilds c1 = guilds c →
            members c1 = members c → voiceStates c1 = voiceStates c →
            channels c1 = channels c → relationships c1 = relationships c →
            messages c1 = messages c →
            ∀ c2 : ShardClient,
              c2 = (if store_has (guilds c1) g then
                      set_guilds
                        (store_update g
                           (λ guild, mkGuild (guild_id guild)
                                       (Number_sub (memberCount guild) 1)
                                       (guild_roles guild) (unavailable guild)))
                        c1
                    else c1) →
            ∀ c3 : ShardClient,
              c3 = match store_get (presences c2) u with
                   | Some presence =>
                       if Nat.eqb
                            (size (guildIds (Presence_deleteGuildId g presence)))
                            0
                       then set_presences (store_delete u)
                              (set_presences
                                 (store_update u
                                    (λ _, Presence_deleteGuildId g presence))
                                 c2)
                       else set_presences
                              (store_update u
                                 (λ _, Presence_deleteGuildId g presence))
                              c2
                   | None => c2
                   end →
            ∀ c5 : ShardClient,
              c5 = set_voiceStates (store_delete2 (Some g) u)
                     (set_members (store_delete2 g u)
                        (set_typings (Typing_stop u) c3)) →
            ∀ c6 : ShardClient,
              c6 = (if existsb (λ kv, Guild_members_has c5 kv.2 u)
                         (store_entries (guilds c5))
                    then c5
                    else if existsb
                              (λ kv, bool_decide (u ∈ recipients kv.2))
                              (store_entries (channels c5))
                    then c5
                    else if store_has (relationships c5) u then c5
                    else set_users (store_delete u) c5) →
            let c7 := emit ClientEvents.GUILD_MEMBER_REMOVE c6 in
            members c7 = members1
            ∧ voiceStates c7 = store_delete2 (Some g) u (voiceStates c)
            ∧ guilds c7 = guilds1
            ∧ channels c7 = channels c
            ∧ relationships c7 = relationships c
            ∧ messages c7 = messages c
            ∧ users c7 = (if shares then users1 else store_delete u users1)).
  { intros c1 Hus Hgs Hms Hvs Hcs Hrs Hmsgs c2 Hc2 c3 Hc3 c5 Hc5 c6 Hc6 c7.
    subst c7. cbn [emit members voiceStates guilds channels relationships
                    messages users].
    assert (H2 : users c2 = users1 ∧ guilds c2 = guilds1
              ∧ members c2 = members c ∧ voiceStates c2 = voiceStates c
              ∧ channels c2 = channels c ∧ relationships c2 = relationships c
              ∧ messages c2 = messages c).
    { subst c2 guilds1. rewrite Hgs. destruct (store_has (guilds c) g); simpl;
        by rewrite ?Hgs. }
    clear Hc2 Hus Hgs Hms Hvs Hcs Hrs Hmsgs.
    destruct H2 as (Hus & Hgs & Hms & Hvs & Hcs & Hrs & Hmsgs).
    assert (H3 : users c3 = users1 ∧ guilds c3 = guilds1
              ∧ members c3 = members c ∧ voiceStates c3 = voiceStates c
              ∧ channels c3 = channels c ∧ relationships c3 = relationships c
              ∧ messages c3 = messages c).
    { subst c3. destruct (store_get (presences c2) u); [|done].
      by destruct (Nat.eqb _ 0). }
    clear Hc3 Hus Hgs Hms Hvs Hcs Hrs Hmsgs.
    destruct H3 as (Hus & Hgs & Hms & Hvs & Hcs & Hrs & Hmsgs).
    assert (H5 : users c5 = users1 ∧ guilds c5 = guilds1
              ∧ members c5 = members1
              ∧ voiceStates c5 = store_delete2 (Some g) u (voiceStates c)
              ∧ channels c5 = channels c ∧ relationships c5 = relationships c
              ∧ messages c5 = messages c).
    { subst c5 members1. simpl. by rewrite Hms, Hvs. }
    clear Hc5 Hus Hgs Hms Hvs Hcs Hrs Hmsgs.
    destruct H5 as (Hus & Hgs & Hms & Hvs & Hcs & Hrs & Hmsgs).
    unfold Guild_members_has in Hc6. rewrite Hgs, Hms, Hcs, Hrs in Hc6.
    subst shares c6.
    destruct (existsb _ (store_entries guilds1)); [by simpl|].
    destruct (existsb _ (store_entries (channels c))); [by simpl|].
    destruct (store_has (relationships c) u); simpl; by rewrite ?Hus. }
  subst users1. fold u.
  destruct (store_get (users c) u) as [old|]; cbv beta iota zeta;
    rewrite ?Huser, ?Hnew; cbn [client with_client].
  - exact (Hrest (set_users (store_update u (λ _, User_merge raw old)) c)
             eq_refl eq_refl eq_refl eq_refl eq_refl eq_refl eq_refl
             _ eq_refl _ eq_refl _ eq_refl _ eq_refl).
  - exact (Hrest c eq_refl eq_refl eq_refl eq_refl eq_refl eq_refl eq_refl
             _ eq_refl _ eq_refl _ eq_refl _ eq_refl).
Qed.

Lemma store_get2_delete2 {K V : Type} `{Countable K}
    (s : Store K (gmap string V)) (k k' : K) (i i' : string) :
  store_get2 (store_delete2 k i s) k' i'
  = if bool_decide (k' = k ∧ i' = i) then None else store_get2 s k' i'.
Proof.
  unfold store_get2, store_get, store_delete2. simpl.
  destruct (enabled s); [|by case_bool_decide].
  rewrite lookup_alter. case_decide as Hk.
  - subst k'. destruct (cache s !! k) as [inner|]; simpl.
    + rewrite lookup_delete. case_decide as Hi.
      * subst i'. by rewrite bool_decide_eq_true_2.
      * rewrite bool_decide_eq_false_2; [done|]. by intros [_ ?].
    + by case_bool_decide.
  - rewrite bool_decide_eq_false_2; [done|]. by intros [? _].
Qed.

(** X9. GUILD_MEMBER_REMOVE takes the member and the voice state of the
    user in the guild out of their stores.  The members of other users are
    as before; the members the user has in other guilds stay cached, with
    what a member holds itself as before.  For a cached guild with a member
    count above [- 2 ^ 53] and up to [2 ^ 53] the count goes down by
    exactly one, whether or not the member was cached, and is not kept from
    going below zero. *)
Theorem GUILD_MEMBER_REMOVE_removes_member (data : GuildMemberRemove)
    (h : GatewayHandler) :
  let g := guild_member_remove_guild_id data in
  let u := raw_user_id (guild_member_remove_user data) in
  let c' := client (GUILD_MEMBER_REMOVE data h) in
  store_get2 (members c') g u = None
  ∧ store_get2 (voiceStates c') (Some g) u = None
  ∧ (∀ g' u', u' ≠ u →
       store_get2 (members c') g' u' = store_get2 (members (client h)) g' u')
  ∧ (∀ g', g' ≠ g →
       Member_own_fields <$> store_get2 (members c') g' u
       = Member_own_fields <$> store_get2 (members (client h)) g' u)
  ∧ (∀ guild, store_get (guilds (client h)) g = Some guild →
       (- 2 ^ 53 < memberCount guild ≤ 2 ^ 53)%Z →
       store_get (guilds c') g
       = Some (mkGuild (guild_id guild) (memberCount guild - 1)
                 (guild_roles guild) (unavailable guild))).
Proof.
  intros g u c'.
  destruct (GUILD_MEMBER_REMOVE_stores data h)
    as (Hms & Hvs & Hgs & _). cbv zeta in Hms, Hvs, Hgs.
  subst c'. fold g u in Hms, Hvs, Hgs. rewrite Hms, Hvs, Hgs.
  rewrite !store_get2_delete2. split; [by rewrite bool_decide_eq_true_2|].
  split; [by rewrite bool_decide_eq_true_2|]. split; [|split].
  - intros g' u' Hne. rewrite store_get2_delete2.
    rewrite bool_decide_eq_false_2; [done|]. by intros [_ ?].
  - intros g' Hne. rewrite store_get2_delete2.
    rewrite bool_decide_eq_false_2; [done|]. by intros [? _].
  - intros guild Hguild Hrange. unfold store_has. rewrite Hguild.
    unfold store_get, store_update in *. simpl.
    destruct (enabled (guilds (client h))); [|done].
    rewrite lookup_alter_eq, Hguild. simpl.
    rewrite Number_sub_exact by lia. done.
Qed.

(** X10. Whether GUILD_MEMBER_REMOVE keeps the user: the user stays in the user
    store, merged with the payload, when a cached guild other than the one
    left still has it as a cached member, or a cached channel has it as a
    recipient, or a relationship with it is cached; it is taken out of the
    user store when none of these holds.  No other user is touched. *)
Theorem GUILD_MEMBER_REMOVE_evicts_unshared_user (data : GuildMemberRemove)
    (h : GatewayHandler) :
  let g := guild_member_remove_guild_id data in
  let raw := guild_member_remove_user data in
  let u := raw_user_id raw in
  let c := client h in
  let c' := client (GUILD_MEMBER_REMOVE data h) in
  let shared : Prop :=
    (∃ k guild, store_get (guilds c) k = Some guild
                ∧ guild_id guild ≠ g
                ∧ store_has2 (members c) (guild_id guild) u = true)
    ∨ (∃ k channel, store_get (channels c) k = Some channel
                    ∧ u ∈ recipients channel)
    ∨ store_has (relationships c) u = true in
  (shared → store_get (users c') u = User_merge raw <$> store_get (users c) u)
  ∧ (¬ shared → store_get (users c') u = None)
  ∧ (∀ u', u' ≠ u → store_get (users c') u' = store_get (users c) u').
Proof.
  intros g raw u c c' shared.
  destruct (GUILD_MEMBER_REMOVE_stores data h)
    as (_ & _ & _ & _ & _ & _ & Hus). cbv zeta in Hus.
  subst c'. fold g raw u c in Hus.
  set (users1 := match store_get (users c) u with
                 | Some old => store_update u (λ _, User_merge raw old) (users c)
                 | None => users c
                 end) in Hus.
  set (guilds1 := if store_has (guilds c) g then _ else guilds c) in Hus.
  set (shares := _ || _ || _) in Hus.
  assert (Husers1 : ∀ u', store_get users1 u'
            = if bool_decide (u' = u)
              then User_merge raw <$> store_get (users c) u
              else store_get (users c) u').
  { intros u'. subst users1. unfold store_get.
    destruct (enabled (users c)) eqn:He; simpl.
    - destruct (cache (users c) !! u) as [old|] eqn:Hold; simpl.
      + rewrite He, lookup_alter. case_bool_decide as Hu.
        * subst u'. rewrite decide_True by done. by rewrite Hold.
        * by rewrite decide_False by done.
      + rewrite He. case_bool_decide as Hu; [by subst u'|done].
    - rewrite He. by case_bool_decide. }
  assert (Hshares : shares = true ↔ shared).
  { subst shares shared. rewrite !orb_true_iff, !existsb_exists.
    assert (Hguilds : ∀ k guild',
              (k, guild') ∈ store_entries guilds1 →
              ∃ guild, store_get (guilds c) k = Some guild
                       ∧ guild_id guild' = guild_id guild).
    { intros k guild' Hin. subst guilds1. unfold store_has in Hin.
      unfold store_entries, store_get in *.
      destruct (enabled (guilds c)) eqn:He.
      - destruct (cache (guilds c) !! g) as [old|] eqn:Hold; simpl in Hin;
          rewrite ?He in Hin; apply elem_of_map_to_list in Hin.
        + rewrite lookup_alter in Hin. case_decide as Hk.
          * subst k. rewrite Hold in Hin. simpl in Hin.
            injection Hin as <-. by exists old.
          * by exists guild'.
        + by exists guild'.
      - simpl in Hin. rewrite He in Hin. by apply elem_of_nil in Hin. }
    assert (Hguilds' : ∀ k guild,
              store_get (guilds c) k = Some guild →
              ∃ guild', (k, guild') ∈ store_entries guilds1
                        ∧ guild_id guild' = guild_id guild).
    { intros k guild Hk. subst guilds1. unfold store_has.
      unfold store_entries, store_get in *.
      destruct (enabled (guilds c)) eqn:He; [|done].
      destruct (cache (guilds c) !! g) as [old|] eqn:Hold; simpl;
        rewrite ?He.
      + destruct (decide (k = g)) as [->|Hk'].
        * eexists. split.
          -- apply elem_of_map_to_list. rewrite lookup_alter_eq, Hold. done.
          -- simpl. congruence.
        * exists guild. split; [|done].
          apply elem_of_map_to_list. by rewrite lookup_alter_ne.
      + exists guild. split; [|done]. by apply elem_of_map_to_list. }
    assert (Hmember : ∀ x, store_has2 (store_delete2 g u (members c)) x u = true
                           ↔ x ≠ g ∧ store_has2 (members c) x u = true).
    { intros x. unfold store_has2. rewrite store_get2_delete2.
      case_bool_decide as Hx.
      - destruct Hx as [-> _]. split; [done | by intros [? _]].
      - split; [intros Hs; split; [|done] | by intros [_ ?]].
        intros ->. by apply Hx. }
    split.
    - intros [[Hg|Hc]|Hr].
      + left. destruct Hg as ([k guild'] & Hin & Hhas).
        apply list_elem_of_In in Hin. cbn [snd] in Hhas.
        apply Hmember in Hhas as [Hne Hhas].
        destruct (Hguilds k guild' Hin) as (guild & Hk & Hid).
        exists k, guild. rewrite <- Hid. by repeat split.
      + right. left. destruct Hc as ([k channel] & Hin & Hrec).
        apply list_elem_of_In in Hin. cbn [snd] in Hrec.
        apply bool_decide_eq_true_1 in Hrec.
        exists k, channel. split; [|done].
        unfold store_entries, store_get in *.
        destruct (enabled (channels c)); [by apply elem_of_map_to_list|].
        by apply elem_of_nil in Hin.
      + by right; right.
    - intros [Hg|[Hc|Hr]].
      + left. left. destruct Hg as (k & guild & Hk & Hne & Hhas).
        destruct (Hguilds' k guild Hk) as (guild' & Hin & Hid).
        exists (k, guild'). split; [by apply list_elem_of_In|].
        cbn [snd]. apply Hmember. by rewrite Hid.
      + left. right. destruct Hc as (k & channel & Hk & Hrec).
        exists (k, channel). split.
        * apply list_elem_of_In. unfold store_entries, store_get in *.
          destruct (enabled (channels c)); [by apply elem_of_map_to_list|done].
        * by apply bool_decide_eq_true_2.
      + by right. }
  rewrite Hus. split; [|split].
  - intros Hshared. apply Hshares in Hshared. rewrite Hshared.
    rewrite Husers1. by rewrite bool_decide_eq_true_2.
  - intros Hnot. destruct shares eqn:Hs; [by destruct Hnot; apply Hshares|].
    apply store_get_delete.
  - intros u' Hne.
    assert (Hget : store_get (store_delete u users1) u' = store_get users1 u').
    { unfold store_get, store_delete. simpl.
      destruct (enabled users1); [|done]. by rewrite lookup_delete_ne. }
    destruct shares; rewrite ?Hget, Husers1;
      by rewrite bool_decide_eq_false_2.
Qed.

End GuildMemberRemove.

(** The member u1 leaves the example guild of five. *)
Lemma GUILD_MEMBER_REMOVE_removes_member_witness :
  let data := GatewayRawEvents.mkGuildMemberRemove "g1" (mkRawUser "u1" None None) in
  let c' :=
    client (GatewayDispatchHandler.GUILD_MEMBER_REMOVE data example_handler) in
  store_get2 (members c') "g1" "u1" = None
  ∧ store_get2 (members c') "g1" "u2" = Some example_member_plain
  ∧ memberCount <$> store_get (guilds c') "g1" = Some 4%Z.
Proof.
  intros data c'.
  pose proof (GUILD_MEMBER_REMOVE_removes_member data example_handler) as H.
  subst data c'.
  cbn [GatewayRawEvents.guild_member_remove_guild_id
       GatewayRawEvents.guild_member_remove_user raw_user_id] in H.
  destruct H as (Hgone & _ & Hothers & _ & Hcount).
  split; [exact Hgone|]. split.
  - rewrite (Hothers "g1" "u2") by discriminate.
    vm_compute. reflexivity.
  - assert (Hg : store_get (guilds (client example_handler)) "g1"
                 = Some example_guild) by (vm_compute; reflexivity).
    rewrite (Hcount example_guild Hg); [reflexivity|].
    change (memberCount example_guild) with 5%Z. lia.
Defined.

(** The user u2 is cached through the example guild alone and goes with
    its membership; the user u1 stays. *)
Lemma GUILD_MEMBER_REMOVE_evicts_unshared_user_witness :
  let data := GatewayRawEvents.mkGuildMemberRemove "g1" (mkRawUser "u2" None None) in
  let c' :=
    client (GatewayDispatchHandler.GUILD_MEMBER_REMOVE data example_handler) in
  store_get (users c') "u2" = None
  ∧ store_get (users c') "u1" = Some (example_user "u1").
Proof.
  intros data c'.
  pose proof (GUILD_MEMBER_REMOVE_evicts_unshared_user data example_handler)
    as H.
  subst data c'.
  cbn [GatewayRawEvents.guild_member_remove_guild_id
       GatewayRawEvents.guild_member_remove_user raw_user_id] in H.
  destruct H as (_ & Hevicted & Hothers).
  split.
  - apply Hevicted.
    intros [(k & guild & Hget & Hne & _) | [(k & channel & Hget & Hin) | Hrel]].
    + change (store_get (guilds (client example_handler)) k)
        with (({[ "g1" := example_guild ]} : gmap string Guild) !! k) in Hget.
      apply lookup_singleton_Some in Hget as [_ <-]. by apply Hne.
    + change (store_get (channels (client example_handler)) k)
        with (({[ "c1" := mkChannel "c1" (Some "g1") ∅ ]}
               : gmap string Channel) !! k) in Hget.
      apply lookup_singleton_Some in Hget as [_ <-].
      by apply elem_of_empty in Hin.
    + vm_compute in Hrel. discriminate.
  - rewrite (Hothers "u1") by discriminate. vm_compute. reflexivity.
Defined.

Section MemberAddRemove.
Import GatewayDispatchHandler GatewayRawEvents.

(** The guild store after GUILD_MEMBER_ADD. *)
Lemma GUILD_MEMBER_ADD_guilds (data : GuildMemberAdd) (h : GatewayHandler) :
  guilds (client (GUILD_MEMBER_ADD data h))
  = (if store_has (guilds (client h)) (guild_member_add_guild_id data) then
       store_update (guild_member_add_guild_id data)
         (λ g, mkGuild (guild_id g) (Number_add (memberCount g) 1)
                 (guild_roles g) (unavailable g))
         (guilds (client h))
     else guilds (client h)).
Proof.
  unfold GUILD_MEMBER_ADD. cbv zeta.
  set (c1 := match store_get2 _ _ _ with Some _ => _ | None => _ end).
  assert (Hc1 : guilds c1 = guilds (client h)).
  { subst c1. destruct (store_get2 _ _ _) as [member|].
    - destruct (Member_merge_GuildMemberAdd data (client h) member)
        as (Hgs & _).
      destruct (Member_merge _ _) as [c2 member']. simpl in Hgs. simpl.
      exact Hgs.
    - unfold Member_new.
      destruct (Member_merge_GuildMemberAdd data (client h)
                  (mkMember None false "" None 0 false None 0
                     (mkUser "" "" false))) as (Hgs & _).
      destruct (Member_merge _ _) as [c2 member]. simpl in Hgs.
      unfold members_insert. simpl. exact Hgs. }
  rewrite Hc1. destruct (store_has (guilds (client h)) _); simpl;
    by rewrite ?Hc1.
Qed.

(** X11. A member who joins and leaves: GUILD_MEMBER_ADD followed by
    GUILD_MEMBER_REMOVE for the same guild leaves the guild store as it
    was, the member count included, when the count of the guild, if the
    guild is cached, is from [- 2 ^ 53] to below [2 ^ 53]; and when it is
    the same user no member is cached for it under the guild. *)
Theorem GUILD_MEMBER_ADD_then_REMOVE (add : GuildMemberAdd)
    (remove : GuildMemberRemove) (h : GatewayHandler) :
  guild_member_remove_guild_id remove = guild_member_add_guild_id add →
  let c' := client (GUILD_MEMBER_REMOVE remove (GUILD_MEMBER_ADD add h)) in
  ((∀ guild,
      store_get (guilds (client h)) (guild_member_add_guild_id add)
      = Some guild →
      (- 2 ^ 53 ≤ memberCount guild < 2 ^ 53)%Z) →
   guilds c' = guilds (client h))
  ∧ (raw_user_id (guild_member_remove_user remove)
     = raw_user_id (raw_member_user (guild_member_add_member add)) →
     store_get2 (members c') (guild_member_add_guild_id add)
       (raw_user_id (raw_member_user (guild_member_add_member add)))
     = None).
Proof.
  intros Hg c'. subst c'. split.
  - destruct (GUILD_MEMBER_REMOVE_stores remove (GUILD_MEMBER_ADD add h))
      as (_ & _ & Hgs & _). cbv zeta in Hgs.
    rewrite Hgs, GUILD_MEMBER_ADD_guilds, Hg.
    set (g := guild_member_add_guild_id add).
    destruct (guilds (client h)) as [e m] eqn:Hstore.
    unfold store_has, store_get, store_update. simpl.
    destruct e; simpl; [|done].
    destruct (m !! g) as [guild|] eqn:Hguild; simpl; intros Hrange.
    + rewrite lookup_alter_eq, Hguild. simpl. f_equal.
      apply map_eq. intros k. destruct (decide (k = g)) as [->|Hk].
      * rewrite !lookup_alter_eq, Hguild. specialize (Hrange guild eq_refl).
        destruct guild as [i n r a]. simpl in *. do 2 f_equal.
        rewrite (Number_add_exact n 1) by lia.
        rewrite Number_sub_exact by lia. lia.
      * by rewrite !lookup_alter_ne.
    + by rewrite Hguild.
  - intros Hu.
    destruct (GUILD_MEMBER_REMOVE_stores remove (GUILD_MEMBER_ADD add h))
      as (Hms & _). cbv zeta in Hms.
    rewrite Hms, Hg, Hu, store_get2_delete2.
    by rewrite bool_decide_eq_true_2.
Qed.

End MemberAddRemove.

(** A user joins the example guild and leaves it again. *)
Lemma GUILD_MEMBER_ADD_then_REMOVE_witness :
  let c' :=
    client
      (GatewayDispatchHandler.GUILD_MEMBER_REMOVE example_member_remove
         (GatewayDispatchHandler.GUILD_MEMBER_ADD example_member_add
            example_handler)) in
  guilds c' = guilds (client example_handler)
  ∧ store_get2 (members c') "g1" "u3" = None.
Proof.
  intros c'.
  destruct (GUILD_MEMBER_ADD_then_REMOVE example_member_add
              example_member_remove example_handler eq_refl) as [Hg Hm].
  split; [|exact (Hm eq_refl)].
  apply Hg. intros guild Hguild.
  assert (Hget : store_get (guilds (client example_handler))
                   (GatewayRawEvents.guild_member_add_guild_id
                      example_member_add)
                 = Some example_guild) by (vm_compute; reflexivity).
  rewrite Hget in Hguild. injection Hguild as <-.
  change (memberCount example_guild) with 5%Z. lia.
Defined.

(** ** GUILD_ROLE_CREATE *)

Section GuildRoleCreate.
Import GatewayDispatchHandler GatewayRawEvents.

(** X12. GUILD_ROLE_CREATE files the role in the cached guild, merged into the
    role the guild had under the id or made new with the guild id of the
    event, and leaves the other roles of the guild alone; in every member
    cached under the guild whose stored role collection has an entry under
    the role id (a member that joined with the id before the role was
    known), the entry now holds the role, and the other entries and the
    other members are as before. *)
Theorem GUILD_ROLE_CREATE_fills_member_roles (data : GuildRoleCreate)
    (h : GatewayHandler) :
  let g := guild_role_create_guild_id data in
  let raw := guild_role_create_role data in
  let c := client h in
  let c' := client (GUILD_ROLE_CREATE data h) in
  let role :=
    match store_get (guilds c) g with
    | Some guild =>
        match guild_roles guild !! role_id raw with
        | Some role => Role_merge raw role
        | None => Role_new g raw
        end
    | None => Role_new g raw
    end in
  (∀ guild, store_get (guilds c) g = Some guild →
     store_get (guilds c') g
     = Some (mkGuild (guild_id guild) (memberCount guild)
               (<[role_id raw := role]> (guild_roles guild))
               (unavailable guild)))
  ∧ (∀ u member, store_get2 (members c) g u = Some member →
       ∃ member', store_get2 (members c') g u = Some member'
         ∧ _roles member'
           = (λ roles, match roles !! role_id raw with
                       | Some _ => <[role_id raw := Some role]> roles
                       | None => roles
                       end) <$> _roles member)
  ∧ (∀ g' u, g' ≠ g →
       store_get2 (members c') g' u = store_get2 (members c) g' u).
Proof.
  intros g raw c c' role. subst c'. unfold GUILD_ROLE_CREATE. fold g raw c.
  assert (Hid : role_id role = role_id raw).
  { subst role. destruct (store_get (guilds c) g) as [guild|]; [|done].
    by destruct (guild_roles guild !! role_id raw). }
  set (first := match store_get (guilds c) g with
                | Some guild => _ | None => (c, Role_new g raw) end).
  assert (Hfirst : first.2 = role ∧ members first.1 = members c
            ∧ ∀ guild, store_get (guilds c) g = Some guild →
                store_get (guilds first.1) g
                = Some (mkGuild (guild_id guild) (memberCount guild)
                          (<[role_id raw := role]> (guild_roles guild))
                          (unavailable guild))).
  { subst first role. destruct (store_get (guilds c) g) as [guild|] eqn:Hg.
    - cbn [fst snd]. split; [done|]. split; [done|].
      intros guild' [= <-].
      set (role := match guild_roles guild !! role_id raw with
                   | Some role => Role_merge raw role
                   | None => Role_new g raw end) in *.
      assert (Hrid : role_id role = role_id raw)
        by (subst role; by destruct (guild_roles guild !! role_id raw)).
      unfold store_get, store_update in *. simpl.
      destruct (enabled (guilds c)); [|done].
      by rewrite lookup_alter_eq, Hg, Hrid.
    - by cbn [fst snd]. }
  destruct first as [c1 role1]. cbn [fst snd] in Hfirst.
  destruct Hfirst as (-> & Hms & Hgs). cbv zeta.
  set (c2 := match store_get (members c1) g with
             | Some _ => _ | None => c1 end).
  assert (Hc2 : guilds c2 = guilds c1
            ∧ ∀ g' u, store_get2 (members c2) g' u
                = if bool_decide (g' = g)
                  then Member_roles_fill role <$> store_get2 (members c) g u
                  else store_get2 (members c) g' u).
  { subst c2. rewrite Hms.
    destruct (store_get (members c) g) as [inner|] eqn:Hinner; simpl.
    - split; [done|]. intros g' u. rewrite Hms.
      unfold store_get2, store_get, store_update in *. simpl.
      destruct (enabled (members c)); [|by case_bool_decide].
      rewrite lookup_alter. case_bool_decide as Hg'.
      + subst g'. rewrite decide_True by done. rewrite Hinner. simpl.
        by rewrite lookup_fmap.
      + by rewrite decide_False by done.
    - split; [done|]. intros g' u. rewrite Hms.
      case_bool_decide as Hg'; [|done]. subst g'.
      unfold store_get2. by rewrite Hinner. }
  destruct Hc2 as [Hgs2 Hms2]. cbn [client with_client emit guilds members].
  split; [|split].
  - intros guild Hguild. rewrite Hgs2. by apply Hgs.
  - intros u member Hmember. rewrite Hms2, bool_decide_eq_true_2 by done.
    rewrite Hmember. eexists. split; [done|].
    unfold Member_roles_fill. rewrite Hid.
    destruct (_roles member) as [roles|] eqn:Hroles; [|by rewrite Hroles].
    simpl. destruct (roles !! role_id raw); [done|]. by rewrite Hroles.
  - intros g' u Hne. rewrite Hms2. by rewrite bool_decide_eq_false_2.
Qed.

End GuildRoleCreate.

(** The role r1 of the example guild comes again, with a new position. *)
Lemma GUILD_ROLE_CREATE_fills_member_roles_witness :
  let data := GatewayRawEvents.mkGuildRoleCreate "g1" (mkRole "r1" "" 255 16 2) in
  let c' :=
    client (GatewayDispatchHandler.GUILD_ROLE_CREATE data example_handler) in
  ∃ member',
    store_get2 (members c') "g1" "u1" = Some member'
    ∧ (_roles member' ≫= λ roles, roles !! "r1")
      = Some (Some (mkRole "r1" "g1" 255 16 2)).
Proof.
  intros data c'.
  pose proof (GUILD_ROLE_CREATE_fills_member_roles data example_handler) as H.
  subst data c'.
  cbn [GatewayRawEvents.guild_role_create_guild_id
       GatewayRawEvents.guild_role_create_role role_id] in H.
  destruct H as (_ & Hmembers & _).
  assert (Hm : store_get2 (members (client example_handler)) "g1" "u1"
               = Some example_member_roles) by (vm_compute; reflexivity).
  destruct (Hmembers "u1" example_member_roles Hm)
    as (member' & Hmember & Hroles).
  exists member'. split; [exact Hmember|].
  rewrite Hroles. vm_compute. reflexivity.
Defined.

(** ** MESSAGE_DELETE_BULK *)

Section MessageDeleteBulk.
Import GatewayDispatchHandler GatewayRawEvents.

Lemma MESSAGE_DELETE_BULK_step (k : string) (c0 : ShardClient)
    (p0 : gmap string (option Message)) (x : string) :
  let a :=
    match messages_find (messages c0) (Some k) x with
    | Some (k1, message) =>
        (set_messages (store_delete2 k1 x) c0, <[x := Some message]> p0)
    | None => (c0, <[x := None]> p0)
    end in
  (∀ k' id, store_get2 (messages a.1) k' id
            = if bool_decide (k' = k ∧ id = x) then None
              else store_get2 (messages c0) k' id)
  ∧ a.2 = <[x := store_get2 (messages c0) k x]> p0.
Proof.
  unfold messages_find.
  destruct (store_get2 (messages c0) k x) as [message|] eqn:Hget; simpl.
  - split; [|done]. intros k' id. by rewrite store_get2_delete2.
  - split; [|done]. intros k' id. case_bool_decide as Hk; [|done].
    by destruct Hk as [-> ->].
Qed.

Lemma occurrences_cons (id x : string) (rest : list string) :
  occurrences id (x :: rest)
  = (if bool_decide (x = id) then 1 else 0) + occurrences id rest.
Proof.
  unfold occurrences. case_bool_decide as Hx.
  - by rewrite filter_cons_True.
  - by rewrite filter_cons_False.
Qed.

Lemma occurrences_elem (id : string) (ids : list string) :
  id ∈ ids ↔ 0 < occurrences id ids.
Proof.
  induction ids as [|x rest IH].
  - split; [intros Hin; by apply elem_of_nil in Hin | cbn; lia].
  - rewrite occurrences_cons, elem_of_cons, IH.
    case_bool_decide as Hx; [|split; [intros [?|?]|]; try done; lia].
    split; [lia|]. intros _. by left.
Qed.

Lemma MESSAGE_DELETE_BULK_fold (k : string) (ids : list string) :
  ∀ (c0 : ShardClient) (p0 : gmap string (option Message)),
  let r :=
    foldl (λ (acc : ShardClient * gmap string (option Message)) messageId,
             match messages_find (messages acc.1) (Some k) messageId with
             | Some (k1, message) =>
                 (set_messages (store_delete2 k1 messageId) acc.1,
                  <[messageId := Some message]> acc.2)
             | None => (acc.1, <[messageId := None]> acc.2)
             end)
      (c0, p0) ids in
  (∀ k' id, store_get2 (messages r.1) k' id
            = if bool_decide (k' = k ∧ id ∈ ids) then None
              else store_get2 (messages c0) k' id)
  ∧ (∀ id, r.2 !! id
           = if bool_decide (id ∈ ids)
             then Some (if bool_decide (occurrences id ids = 1)
                        then store_get2 (messages c0) k id else None)
             else p0 !! id).
Proof.
  induction ids as [|x rest IH]; intros c0 p0.
  - cbn [foldl fst snd]. split.
    + intros k' id. case_bool_decide as Hin; [|done].
      destruct Hin as [_ Hin]. by apply elem_of_nil in Hin.
    + intros id. case_bool_decide as Hin; [|done]. by apply elem_of_nil in Hin.
  - cbn [foldl fst snd].
    destruct (MESSAGE_DELETE_BULK_step k c0 p0 x) as [Hc1 Hp1].
    cbv zeta in Hc1, Hp1.
    set (a := match messages_find (messages c0) (Some k) x with
              | Some (k1, message) => _ | None => _ end) in *.
    destruct a as [c1 p1]. cbn [fst snd] in Hc1, Hp1.
    destruct (IH c1 p1) as [IHc IHp]. cbv zeta in IHc, IHp. split.
    + intros k' id. rewrite IHc, Hc1.
      destruct (decide (k' = k)) as [->|Hk].
      * destruct (decide (id = x)) as [->|Hid].
        -- rewrite (bool_decide_eq_true_2 (k = k ∧ x = x)) by done.
           rewrite (bool_decide_eq_true_2 (k = k ∧ x ∈ x :: rest))
             by (split; [done|by left]).
           by destruct (bool_decide (k = k ∧ x ∈ rest)).
        -- rewrite (bool_decide_eq_false_2 (_ ∧ id = x)) by (by intros [_ ?]).
           destruct (decide (id ∈ rest)) as [Hin|Hin].
           ++ rewrite !bool_decide_eq_true_2; [done| |done].
              split; [done|]. by right.
           ++ rewrite !bool_decide_eq_false_2; [done| |by intros [_ ?]].
              intros [_ [?|?]%elem_of_cons]; done.
      * rewrite (bool_decide_eq_false_2 (k' = k ∧ id ∈ rest))
          by (by intros [? _]).
        rewrite (bool_decide_eq_false_2 (k' = k ∧ id = x))
          by (by intros [? _]).
        by rewrite (bool_decide_eq_false_2 (k' = k ∧ id ∈ x :: rest))
          by (by intros [? _]).
    + intros id. rewrite IHp, Hc1, Hp1, occurrences_cons.
      destruct (decide (id ∈ rest)) as [Hin|Hin].
      * rewrite (bool_decide_eq_true_2 (id ∈ rest)) by done.
        rewrite (bool_decide_eq_true_2 (id ∈ x :: rest)) by (by right).
        pose proof (proj1 (occurrences_elem id rest) Hin) as Hocc.
        f_equal. destruct (decide (id = x)) as [->|Hid].
        -- rewrite (bool_decide_eq_true_2 (k = k ∧ x = x)) by done.
           rewrite (bool_decide_eq_true_2 (x = x)) by done.
           rewrite (bool_decide_eq_false_2 (1 + _ = 1)) by lia.
           by destruct (bool_decide (occurrences x rest = 1)).
        -- rewrite (bool_decide_eq_false_2 (k = k ∧ id = x))
             by (by intros [_ ?]).
           by rewrite (bool_decide_eq_false_2 (x = id)) by done.
      * rewrite (bool_decide_eq_false_2 (id ∈ rest)) by done.
        assert (Hocc : occurrences id rest = 0).
        { destruct (occurrences id rest) eqn:Ho; [done|].
          exfalso. apply Hin, occurrences_elem. lia. }
        destruct (decide (id = x)) as [->|Hid].
        -- rewrite lookup_insert_eq.
           rewrite (bool_decide_eq_true_2 (x ∈ x :: rest)) by (by left).
           rewrite (bool_decide_eq_true_2 (x = x)) by done.
           by rewrite Hocc, bool_decide_eq_true_2.
        -- rewrite lookup_insert_ne by done.
           rewrite bool_decide_eq_false_2; [done|].
           intros [?|?]%elem_of_cons; done.
Qed.

(** X13. With the messages cached per channel or per guild,
    MESSAGE_DELETE_BULK empties exactly the listed slots of the collection
    the event names and touches no other message; the collection it hands
    to the listeners has one entry per listed id: the message as it was
    cached, or null, for an id listed once, and null for an id listed more
    than once, whose message is gone when its last turn comes. *)
Theorem MESSAGE_DELETE_BULK_removes_listed (data : MessageDeleteBulk)
    (h : GatewayHandler) (k : string) :
  let c := client h in
  let ids := message_delete_bulk_ids data in
  messages_cacheKey (messages_type c) (message_delete_bulk_channel_id data)
    (message_delete_bulk_guild_id data) = Some k →
  (∀ k' id,
     store_get2 (messages (client (MESSAGE_DELETE_BULK data h))) k' id
     = if bool_decide (k' = k ∧ id ∈ ids) then None
       else store_get2 (messages c) k' id)
  ∧ (∀ id,
       (MESSAGE_DELETE_BULK_loop data c).2 !! id
       = if bool_decide (id ∈ ids)
         then Some (if bool_decide (occurrences id ids = 1)
                    then store_get2 (messages c) k id else None)
         else None).
Proof.
  intros c ids Hkey.
  destruct (MESSAGE_DELETE_BULK_fold k ids c ∅) as [Hc Hp].
  cbv zeta in Hc, Hp.
  unfold MESSAGE_DELETE_BULK, MESSAGE_DELETE_BULK_loop, with_client.
  cbn [client emit messages]. fold c ids. rewrite Hkey. split.
  - exact Hc.
  - intros id. rewrite Hp. by rewrite lookup_empty.
Qed.

End MessageDeleteBulk.

(** The cached message m1 is listed twice and the cached message m2 once,
    with the unknown id m9. *)
Lemma MESSAGE_DELETE_BULK_removes_listed_witness :
  let data :=
    GatewayRawEvents.mkMessageDeleteBulk "c1" (Some "g1")
      ["m1"; "m9"; "m1"] in
  store_get2
    (messages
       (client
          (GatewayDispatchHandler.MESSAGE_DELETE_BULK data example_handler)))
    "g1" "m1" = None
  ∧ (GatewayDispatchHandler.MESSAGE_DELETE_BULK_loop data
       (client example_handler)).2 !! "m1"
    = Some None
  ∧ (GatewayDispatchHandler.MESSAGE_DELETE_BULK_loop data
       (client example_handler)).2 !! "m9"
    = Some None.
Proof.
  intros data.
  destruct (MESSAGE_DELETE_BULK_removes_listed data example_handler "g1"
              eq_refl) as [Hstore Hpayload].
  split; [|split].
  - etrans; [exact (Hstore "g1" "m1") | vm_compute; reflexivity].
  - etrans; [exact (Hpayload "m1") | vm_compute; reflexivity].
  - etrans; [exact (Hpayload "m9") | vm_compute; reflexivity].
Defined.

(** ** MESSAGE_DELETE *)

Section MessageDelete.
Import GatewayDispatchHandler GatewayRawEvents.

(** X14. A MESSAGE_DELETE_BULK that lists one id leaves the message store as the
    MESSAGE_DELETE of that id does, in each of the caching modes. *)
Theorem MESSAGE_DELETE_BULK_of_one_is_MESSAGE_DELETE (id channelId : string)
    (guildId : option string) (h : GatewayHandler) :
  messages
    (client
       (MESSAGE_DELETE_BULK (mkMessageDeleteBulk channelId guildId [id]) h))
  = messages (client (MESSAGE_DELETE (mkMessageDelete channelId guildId id) h)).
Proof.
  unfold MESSAGE_DELETE_BULK, MESSAGE_DELETE_BULK_loop, MESSAGE_DELETE,
    with_client.
  cbn [client emit messages foldl fst snd message_delete_bulk_ids
       message_delete_bulk_channel_id message_delete_bulk_guild_id
       message_delete_id message_delete_channel_id message_delete_guild_id].
  by destruct (messages_find _ _ id) as [[k message]|].
Qed.

End MessageDelete.

(** ** Reactions *)

Section Reactions.
Import GatewayDispatchHandler GatewayRawEvents.

(** X15. MESSAGE_REACTION_REMOVE on a cached message that has the reaction takes
    the reaction off the message whatever its count was: the new count is
    the smaller of [count - 1] and zero, which is never above zero.  The
    other reactions of the message stay, the collection is dropped when
    none is left, and no other message changes. *)
Theorem MESSAGE_REACTION_REMOVE_drops_reaction (data : MessageReaction)
    (h : GatewayHandler) (k : string) (message : Message)
    (reactions : gmap string Reaction) :
  let c := client h in
  let messageId := reaction_message_id data in
  let emojiId := emojiId_of (reaction_emoji_data data) in
  let c' := client (MESSAGE_REACTION_REMOVE data h) in
  messages_find (messages c)
    (messages_cacheKey (messages_type c) (reaction_channel_id data)
       (reaction_guild_id data))
    messageId = Some (k, message) →
  _reactions message = Some reactions →
  is_Some (reactions !! emojiId) →
  store_get2 (messages c') k messageId
  = Some (Message_with_reactions
            (if Nat.eqb (size (delete emojiId reactions)) 0 then None
             else Some (delete emojiId reactions))
            message)
  ∧ (∀ k' i, ¬ (k' = k ∧ i = messageId) →
       store_get2 (messages c') k' i = store_get2 (messages c) k' i).
Proof.
  intros c messageId emojiId c' Hfind Hreactions [reaction Hreaction].
  subst c'. unfold MESSAGE_REACTION_REMOVE. fold c messageId emojiId.
  rewrite Hfind, Hreactions, Hreaction.
  cbn [client with_client emit messages set_messages count].
  assert (Hmin : (Z.min (Number_sub (count reaction) 1) 0 <=? 0)%Z = true)
    by (apply Z.leb_le; lia).
  rewrite Hmin, delete_insert_eq.
  apply messages_find_get2 in Hfind. split.
  - rewrite store_get2_update2, bool_decide_eq_true_2 by done.
    by rewrite Hfind.
  - intros k' i Hne. by rewrite store_get2_update2, bool_decide_eq_false_2.
Qed.

Variable Reaction_new : ShardClient → MessageReaction → Reaction.

(** X16. MESSAGE_REACTION_ADD on a cached message files the reaction under
    the emoji: the reaction the message had there, or else the one the
    constructor of the reaction class builds, with its count, when that is
    from [- 2 ^ 53] to below [2 ^ 53], raised by exactly one, and marked
    as ours when the user is the client's own or the reaction was ours
    already; the other reactions of the message and the other messages are
    as before. *)
Theorem MESSAGE_REACTION_ADD_counts (data : MessageReaction)
    (h : GatewayHandler) (k : string) (message : Message) :
  let c := client h in
  let messageId := reaction_message_id data in
  let emojiId := emojiId_of (reaction_emoji_data data) in
  let c' := client (MESSAGE_REACTION_ADD Reaction_new data h) in
  let before := default ∅ (_reactions message) in
  let old := default (Reaction_new c data) (before !! emojiId) in
  messages_find (messages c)
    (messages_cacheKey (messages_type c) (reaction_channel_id data)
       (reaction_guild_id data))
    messageId = Some (k, message) →
  (- 2 ^ 53 ≤ count old < 2 ^ 53)%Z →
  (∃ message' after,
     store_get2 (messages c') k messageId = Some message'
     ∧ _reactions message' = Some after
     ∧ count <$> after !! emojiId = Some (count old + 1)%Z
     ∧ me <$> after !! emojiId
       = Some (is_me c (reaction_user_id data) || me old)
     ∧ ∀ e, e ≠ emojiId → after !! e = before !! e)
  ∧ (∀ k' i, ¬ (k' = k ∧ i = messageId) →
       store_get2 (messages c') k' i = store_get2 (messages c) k' i).
Proof.
  intros c messageId emojiId c' before old Hfind Hrange.
  subst c'. unfold MESSAGE_REACTION_ADD. fold c messageId emojiId.
  rewrite Hfind. cbn [client with_client emit messages set_messages].
  apply messages_find_get2 in Hfind.
  assert (Hold : default (Reaction_new c data)
                   (Some (k, message) ≫= λ km,
                      _reactions km.2 ≫= λ reactions, reactions !! emojiId)
                 = old).
  { subst old before. simpl.
    destruct (_reactions message) as [reactions|]; simpl; [done|].
    by rewrite lookup_empty. }
  rewrite Hold. split.
  - eexists _, _. split; [|split; [|split; [|split]]].
    + rewrite store_get2_update2, bool_decide_eq_true_2 by done.
      by rewrite Hfind.
    + reflexivity.
    + rewrite lookup_insert_eq. cbn [fmap option_fmap option_map count].
      f_equal. apply Number_add_exact. lia.
    + by rewrite lookup_insert_eq.
    + intros e He. by rewrite lookup_insert_ne.
  - intros k' i Hne. by rewrite store_get2_update2, bool_decide_eq_false_2.
Qed.

End Reactions.

(** The reaction e1 of the example message, counted twice, is gone after
    one removal, and the message has no reaction collection left. *)
Lemma MESSAGE_REACTION_REMOVE_drops_reaction_witness :
  count <$> (_reactions example_message ≫= λ reactions, reactions !! "e1")
  = Some 2%Z
  ∧ store_get2
      (messages
         (client
            (GatewayDispatchHandler.MESSAGE_REACTION_REMOVE
               (example_reaction "e1") example_handler)))
      "g1" "m1"
    = Some (Message_with_reactions None example_message).
Proof.
  split; [vm_compute; reflexivity|].
  destruct (MESSAGE_REACTION_REMOVE_drops_reaction (example_reaction "e1")
              example_handler "g1" example_message
              {[ "e1" := mkReaction "e1" 2 false ]} eq_refl eq_refl
              ltac:(eexists; vm_compute; reflexivity)) as [Hm _].
  etrans; [exact Hm | vm_compute; reflexivity].
Defined.

(** The reaction e1 of the example message is counted a third time. *)
Lemma MESSAGE_REACTION_ADD_counts_witness :
  ∃ message' after,
    store_get2
      (messages
         (client
            (GatewayDispatchHandler.MESSAGE_REACTION_ADD
               example_Reaction_new (example_reaction "e1") example_handler)))
      "g1" "m1" = Some message'
    ∧ _reactions message' = Some after
    ∧ count <$> after !! "e1" = Some 3%Z.
Proof.
  destruct (MESSAGE_REACTION_ADD_counts example_Reaction_new
              (example_reaction "e1") example_handler "g1" example_message
              eq_refl ltac:(vm_compute; split; [discriminate|reflexivity]))
    as [(message' & after & Hm & Hr & Hcount & _) _].
  exists message', after. split; [exact Hm|]. split; [exact Hr|].
  etrans; [exact Hcount | vm_compute; reflexivity].
Defined.

(** ** CHANNEL_DELETE *)

Section ChannelDelete.
Import GatewayDispatchHandler.
Variable isText : Channel → bool.
Variable isGuildChannel : Channel → bool.

(** X17. With the messages cached per guild, CHANNEL_DELETE of a cached text
    channel of a guild takes the channel out of the channel store and, out
    of the guild's message collection, exactly the messages of that
    channel: the messages of the guild's other channels and the collections
    of the other guilds are as before. *)
Theorem CHANNEL_DELETE_sweeps_channel_messages (data : Channel)
    (h : GatewayHandler) (channel : Channel) (g : string) :
  let c := client h in
  let c' := client (CHANNEL_DELETE isText isGuildChannel data h) in
  store_get (channels c) (channel_id data) = Some channel →
  isText channel = true →
  isGuildChannel channel = true →
  channel_guildId channel = Some g →
  messages_type c = MessageCacheTypes.GUILD →
  store_get (channels c') (channel_id data) = None
  ∧ (∀ i, store_get2 (messages c') g i
          = store_get2 (messages c) g i ≫= λ m,
              if bool_decide (message_channelId m = channel_id channel)
              then None else Some m)
  ∧ (∀ k i, k ≠ g →
       store_get2 (messages c') k i = store_get2 (messages c) k i).
Proof.
  intros c c' Hchannel Htext Hguild Hg Hmode. subst c'.
  unfold CHANNEL_DELETE. fold c. rewrite Hchannel.
  cbn [messages_type set_channels]. rewrite Htext, Hmode, Hguild, Hg.
  cbn [client with_client emit channels messages set_messages set_channels].
  split; [|split].
  - apply store_get_delete.
  - intros i. unfold store_get2, store_get, store_update. simpl.
    destruct (enabled (messages c)); [|done].
    rewrite lookup_alter_eq.
    destruct (cache (messages c) !! g) as [inner|]; [|done]. simpl.
    rewrite map_lookup_filter. destruct (inner !! i) as [m|]; [|done]. simpl.
    case_bool_decide as Hm.
    + by rewrite option_guard_False by (by intros ?).
    + by rewrite option_guard_True.
  - intros k i Hk. unfold store_get2, store_get, store_update. simpl.
    destruct (enabled (messages c)); [|done].
    by rewrite lookup_alter_ne.
Qed.

End ChannelDelete.

(** The channel of the example message is deleted. *)
Lemma CHANNEL_DELETE_sweeps_channel_messages_witness :
  let c' :=
    client
      (GatewayDispatchHandler.CHANNEL_DELETE (λ _, true)
         (λ channel, bool_decide (is_Some (channel_guildId channel)))
         (mkChannel "c1" (Some "g1") ∅) example_handler) in
  store_get (channels c') "c1" = None
  ∧ store_get2 (messages c') "g1" "m1" = None.
Proof.
  intros c'.
  destruct (CHANNEL_DELETE_sweeps_channel_messages (λ _, true)
              (λ channel, bool_decide (is_Some (channel_guildId channel)))
              (mkChannel "c1" (Some "g1") ∅) example_handler
              (mkChannel "c1" (Some "g1") ∅) "g1"
              eq_refl eq_refl ltac:(by apply bool_decide_eq_true_2)
              eq_refl eq_refl)
    as (Hchannel & Hmessages & _).
  split; [exact Hchannel|].
  etrans; [exact (Hmessages "m1") | vm_compute; reflexivity].
Defined.

(** ** VOICE_STATE_UPDATE *)

Section VoiceStateUpsert.
Import GatewayDispatchHandler GatewayRawEvents.

Lemma store_get2_insert2 {K V : Type} `{Countable K}
    (s : Store K (gmap string V)) (k k' : K) (i i' : string) (v : V) :
  enabled s = true →
  store_get2 (store_insert2 k i v s) k' i'
  = if bool_decide (k' = k ∧ i' = i) then Some v else store_get2 s k' i'.
Proof.
  intros He. unfold store_get2, store_get, store_insert2. rewrite He. simpl.
  destruct (decide (k' = k)) as [->|Hk].
  - rewrite lookup_insert_eq. simpl. destruct (decide (i' = i)) as [->|Hi].
    + rewrite lookup_insert_eq. by rewrite bool_decide_eq_true_2.
    + rewrite lookup_insert_ne by done.
      rewrite bool_decide_eq_false_2 by (by intros [_ ?]).
      by destruct (cache s !! k).
  - rewrite lookup_insert_ne by done.
    by rewrite bool_decide_eq_false_2 by (by intros [? _]).
Qed.

(** X18. A VOICE_STATE_UPDATE that names a channel leaves the user's voice state
    cached under the server id of the event ([guild_id || channel_id]),
    with the fields of the payload merged into the state that was cached
    there, or into a new one; no other voice state changes. *)
Theorem VOICE_STATE_UPDATE_caches_joined_state (data : VoiceStateUpdate)
    (h : GatewayHandler) :
  let c := client h in
  let c' := client (VOICE_STATE_UPDATE data h) in
  let userId := voice_state_user_id data in
  let serverId :=
    Js.or_else (voice_state_guild_id data) (voice_state_channel_id data) in
  enabled (voiceStates c) = true →
  Js.falsy (voice_state_channel_id data) = false →
  store_get2 (voiceStates c') serverId userId
  = Some (VoiceState_merge data
            (default (mkVoiceState None None "")
               (store_get2 (voiceStates c) serverId userId)))
  ∧ (∀ k i, ¬ (k = serverId ∧ i = userId) →
       store_get2 (voiceStates c') k i = store_get2 (voiceStates c) k i).
Proof.
  intros c c' userId serverId He Hjoined. subst c'.
  unfold VOICE_STATE_UPDATE. fold c userId serverId. rewrite Hjoined.
  destruct (store_get2 (voiceStates c) serverId userId) as [v|] eqn:Hv.
  - cbn [client with_client emit voiceStates set_voiceStates default]. split.
    + rewrite store_get2_update2, bool_decide_eq_true_2 by done.
      by rewrite Hv.
    + intros k i Hne.
      by rewrite store_get2_update2, bool_decide_eq_false_2.
  - cbn [client with_client emit voiceStates set_voiceStates default].
    assert (Hsid : VoiceState_serverId (VoiceState_new data) = serverId).
    { subst serverId. unfold VoiceState_serverId, VoiceState_new,
        VoiceState_merge. simpl.
      by destruct (voice_state_guild_id data). }
    rewrite Hsid. change (voice_userId (VoiceState_new data)) with userId.
    split.
    + by rewrite store_get2_insert2, bool_decide_eq_true_2.
    + intros k i Hne.
      by rewrite store_get2_insert2, bool_decide_eq_false_2.
Qed.

End VoiceStateUpsert.

(** The user u2 joins a voice channel of the example guild. *)
Lemma VOICE_STATE_UPDATE_caches_joined_state_witness :
  store_get2
    (voiceStates
       (client
          (GatewayDispatchHandler.VOICE_STATE_UPDATE example_voice_joined
             example_handler)))
    (Some "g1") "u2"
  = Some (mkVoiceState (Some "c2") (Some "g1") "u2").
Proof.
  exact (proj1 (VOICE_STATE_UPDATE_caches_joined_state example_voice_joined
                  example_handler eq_refl eq_refl)).
Defined.

(** ** The member structure *)

Section MemberAccessors.

Lemma foldl_roles_dom (guild : option Guild) (value : list string) :
  ∀ (roles : gmap string (option Role)) (id : string),
  is_Some
    (foldl (λ roles roleId,
              <[roleId := guild ≫= λ g, guild_roles g !! roleId]> roles)
       roles value !! id)
  ↔ is_Some (roles !! id) ∨ id ∈ value.
Proof.
  induction value as [|x rest IH]; intros roles id; simpl.
  - split; [by left|]. intros [?|Hin]; [done|]. by apply elem_of_nil in Hin.
  - rewrite IH. destruct (decide (id = x)) as [->|Hne].
    + rewrite lookup_insert_eq. split; [intros _; right; by left|].
      intros _. by left.
    + rewrite lookup_insert_ne by done. rewrite elem_of_cons. naive_solver.
Qed.

Lemma foldl_roles_listed (guild : option Guild) (value : list string) :
  ∀ (roles : gmap string (option Role)) (id : string),
  id ∈ value →
  foldl (λ roles roleId,
           <[roleId := guild ≫= λ g, guild_roles g !! roleId]> roles)
    roles value !! id
  = Some (guild ≫= λ g, guild_roles g !! id).
Proof.
  induction value as [|x rest IH]; intros roles id Hin; simpl.
  - by apply elem_of_nil in Hin.
  - destruct (decide (id ∈ rest)) as [Hrest|Hrest]; [by apply IH|].
    apply elem_of_cons in Hin as [->|?]; [|done].
    assert (Hkeep : ∀ (l : list string) (r : gmap string (option Role)) v,
              x ∉ l → r !! x = Some v →
              foldl (λ roles roleId,
                       <[roleId := guild ≫= λ g, guild_roles g !! roleId]>
                         roles) r l !! x = Some v).
    { clear. induction l as [|y l IHl]; intros r v Hx Hr; simpl; [done|].
      apply not_elem_of_cons in Hx as [Hxy Hx]. apply IHl; [done|].
      by rewrite lookup_insert_ne. }
    apply Hkeep; [done|]. by rewrite lookup_insert_eq.
Qed.

(** X19. After [mergeValue] of a role list, the roles of the member are exactly
    the guild id and the listed ids, whatever the member had before, an
    empty list leaving the guild id alone; each listed id holds the role the
    cached guild has under it, or null. *)
Theorem Member_mergeValue_ROLES_keys (c : ShardClient) (m : Member)
    (value : list string) :
  let m' := (Member_mergeValue c m (ROLES value)).2 in
  (∀ id, is_Some (Member_roles c m' !! id) ↔ id = guildId m ∨ id ∈ value)
  ∧ (∀ id, id ∈ value →
       Member_roles c m' !! id
       = Some (Member_guild c m ≫= λ g, guild_roles g !! id)).
Proof.
  destruct value as [|x rest].
  - simpl. split.
    + intros id. unfold Member_roles. simpl. split.
      * intros [v Hv]. left. destruct (decide (id = guildId m)); [done|].
        by rewrite lookup_insert_ne in Hv.
      * intros [->|Hin]; [|by apply elem_of_nil in Hin].
        by rewrite lookup_insert_eq.
    + intros id Hin. by apply elem_of_nil in Hin.
  - cbv zeta. cbn [Member_mergeValue snd]. unfold Member_roles.
    cbn [_roles Member_with_roles]. split.
    + intros id. rewrite foldl_roles_dom. split.
      * intros [[v Hv]|Hin]; [|by right].
        left. destruct (decide (id = guildId m)); [done|].
        by rewrite lookup_insert_ne in Hv.
      * intros [->|Hin]; [|by right]. left. by rewrite lookup_insert_eq.
    + intros id Hin. by apply foldl_roles_listed.
Qed.

(** What the loop of [highestRole] holds after any run of entries. *)
Lemma highestRole_fold (entries : list (string * option Role)) :
  match Member_highestRole entries with
  | Some top =>
      (∃ id, (id, Some top) ∈ entries)
      ∧ ∀ id role, (id, Some role) ∈ entries →
          (role_position role ≤ role_position top)%Z
  | None => ∀ id role, (id, Some role) ∉ entries
  end.
Proof.
  unfold Member_highestRole.
  induction entries as [|[id0 entry] entries IH] using rev_ind.
  - simpl. intros id role Hin. by apply elem_of_nil in Hin.
  - rewrite foldl_app. cbn [foldl]. unfold highestRole_step at 1. cbn [snd].
    destruct (foldl highestRole_step None entries) as [top|].
    + destruct IH as [[idt Htop] Hmax]. destruct entry as [role|].
      * destruct (role_position top <? role_position role)%Z eqn:Hlt.
        -- apply Z.ltb_lt in Hlt. split.
           ++ exists id0. apply elem_of_app. right. by left.
           ++ intros id r [Hin|Hin]%elem_of_app.
              ** specialize (Hmax _ _ Hin). lia.
              ** apply list_elem_of_singleton in Hin as [= -> ->]. lia.
        -- apply Z.ltb_ge in Hlt. split.
           ++ exists idt. apply elem_of_app. by left.
           ++ intros id r [Hin|Hin]%elem_of_app.
              ** by apply (Hmax id).
              ** by apply list_elem_of_singleton in Hin as [= -> ->].
      * split.
        -- exists idt. apply elem_of_app. by left.
        -- intros id r [Hin|Hin]%elem_of_app; [by apply (Hmax id)|].
           by apply list_elem_of_singleton in Hin.
    + destruct entry as [role|].
      * split.
        -- exists id0. apply elem_of_app. right. by left.
        -- intros id r [Hin|Hin]%elem_of_app; [by apply IH in Hin|].
           apply list_elem_of_singleton in Hin as [= -> ->]. lia.
      * intros id r [Hin|Hin]%elem_of_app; [by apply IH in Hin|].
        by apply list_elem_of_singleton in Hin.
Qed.

(** X20. The highest role of a member is one of the member's roles and no role
    of the member has a position above it, in whatever order the role
    collection yields its entries; it is null only when every entry is
    null. *)
Theorem Member_highestRole_is_maximal (c : ShardClient) (m : Member)
    (entries : list (string * option Role)) :
  entries ≡ₚ map_to_list (Member_roles c m) →
  match Member_highestRole entries with
  | Some top =>
      (∃ id, Member_roles c m !! id = Some (Some top))
      ∧ ∀ id role, Member_roles c m !! id = Some (Some role) →
          (role_position role ≤ role_position top)%Z
  | None => ∀ id, Member_roles c m !! id ≠ None →
                  Member_roles c m !! id = Some None
  end.
Proof.
  intros Hperm. pose proof (highestRole_fold entries) as Hfold.
  destruct (Member_highestRole entries) as [top|].
  - destruct Hfold as [[id Htop] Hmax]. split.
    + exists id. apply elem_of_map_to_list. by rewrite <- Hperm.
    + intros id' role Hrole. apply (Hmax id').
      rewrite Hperm. by apply elem_of_map_to_list.
  - intros id Hid.
    destruct (Member_roles c m !! id) as [[role|]|] eqn:Hrole; [|done|done].
    exfalso. apply (Hfold id role).
    rewrite Hperm. by apply elem_of_map_to_list.
Qed.

(** X21. The color role of a member has a color and is never placed above the
    member's highest role; without a color role the member's color is
    zero. *)
Theorem Member_colorRole_below_highestRole
    (entries : list (string * option Role)) :
  match Member_colorRole entries with
  | Some role =>
      role_color role ≠ 0%Z
      ∧ Member_color entries = role_color role
      ∧ ∃ top, Member_highestRole entries = Some top
          ∧ (role_position role ≤ role_position top)%Z
  | None => Member_color entries = 0%Z
  end.
Proof.
  assert (Hin : ∀ role, Member_colorRole entries = Some role →
            role_color role ≠ 0%Z ∧ ∃ id, (id, Some role) ∈ entries).
  { unfold Member_colorRole.
    induction entries as [|[id0 entry] entries IH] using rev_ind;
      [done|].
    intros role. rewrite foldl_app. cbn [foldl].
    unfold colorRole_step at 1. cbn [snd].
    assert (Hold : foldl colorRole_step None entries = Some role →
              role_color role ≠ 0%Z
              ∧ ∃ id, (id, Some role) ∈ entries ++ [(id0, entry)]).
    { intros Hr. destruct (IH role Hr) as [Hc [id Hid]]. split; [done|].
      exists id. apply elem_of_app. by left. }
    assert (Hnew : ∀ r, entry = Some r → role_color r ≠ 0%Z →
              role_color r ≠ 0%Z
              ∧ ∃ id, (id, Some r) ∈ entries ++ [(id0, entry)]).
    { intros r -> Hc. split; [done|]. exists id0.
      apply elem_of_app. right. by left. }
    destruct entry as [r|]; [|exact Hold].
    destruct (role_color r =? 0)%Z eqn:Hcolor; [exact Hold|].
    apply Z.eqb_neq in Hcolor.
    destruct (foldl colorRole_step None entries) as [top|].
    - destruct (role_position top <? role_position r)%Z; [|exact Hold].
      intros [= <-]. by apply Hnew.
    - intros [= <-]. by apply Hnew. }
  unfold Member_color.
  destruct (Member_colorRole entries) as [role|]; [|done].
  destruct (Hin role eq_refl) as [Hcolor [id Hid]].
  split; [done|]. split; [done|].
  pose proof (highestRole_fold entries) as Hfold.
  destruct (Member_highestRole entries) as [top|].
  - exists top. split; [done|]. by apply (proj2 Hfold id).
  - by apply Hfold in Hid.
Qed.

Lemma toInt32_testbit (z i : Z) :
  (0 ≤ i < 32)%Z → Z.testbit (toInt32 z) i = Z.testbit z i.
Proof.
  intros Hi. unfold toInt32.
  rewrite <- (Z.mod_pow2_bits_low _ 32 i) by lia.
  rewrite <- (Z.mod_pow2_bits_low z 32 i) by lia.
  f_equal.
  rewrite Zminus_mod, Zmod_mod, <- Zminus_mod.
  f_equal. lia.
Qed.

(** X22. For a member that is not the owner, a permission bit below 32 is set in
    the member's permissions exactly when it is set in the start value or
    in the permissions of one of the member's roles, the results of the
    bitwise or being 32-bit integers. *)
Theorem Member_permissions_are_the_roles_bits (PERMISSIONS_ALL NONE : Z)
    (entries : list (string * option Role)) (i : Z) :
  (0 ≤ i < 32)%Z →
  Z.testbit (Member_permissions PERMISSIONS_ALL NONE false entries) i = true
  ↔ Z.testbit NONE i = true
    ∨ ∃ id role, (id, Some role) ∈ entries
        ∧ Z.testbit (role_permissions role) i = true.
Proof.
  intros Hi. unfold Member_permissions.
  induction entries as [|[id0 entry] entries IH] using rev_ind.
  - simpl. split; [by left|]. intros [?|(id & role & Hin & _)]; [done|].
    by apply elem_of_nil in Hin.
  - rewrite foldl_app. cbn [foldl snd]. destruct entry as [r|].
    + rewrite toInt32_testbit, Z.lor_spec, orb_true_iff, IH by done. split.
      * intros [[?|(id & role & Hin & Hbit)]|Hbit].
        -- by left.
        -- right. exists id, role. split; [|done]. apply elem_of_app. by left.
        -- right. exists id0, r. split; [|done].
           apply elem_of_app. right. by left.
      * intros [?|(id & role & [Hin|Hin]%elem_of_app & Hbit)].
        -- left. by left.
        -- left. right. by exists id, role.
        -- apply list_elem_of_singleton in Hin as [= -> ->]. by right.
    + rewrite IH. split.
      * intros [?|(id & role & Hin & Hbit)]; [by left|].
        right. exists id, role. split; [|done]. apply elem_of_app. by left.
      * intros [?|(id & role & [Hin|Hin]%elem_of_app & Hbit)]; [by left| |].
        -- right. by exists id, role.
        -- by apply list_elem_of_singleton in Hin.
Qed.

(** X23. The name of a member is the first of its names, and the user name is
    always the last of them. *)
Theorem Member_name_is_first_of_names (m : Member) :
  head (Member_names m) = Some (Member_name m)
  ∧ last (Member_names m) = Some (username (user m)).
Proof.
  unfold Member_names, Member_name.
  destruct (nick m) as [n|]; [|done]. by destruct (Js.truthy n).
Qed.

(** X24. [difference] of the hoisted role reports a change exactly when the
    value differs from the stored id; after the value is merged it reports
    none, and merging the reported old value gives the member back. *)
Theorem Member_difference_HOISTED_ROLE_round_trip (c : ShardClient)
    (m : Member) (value : option string) :
  let d := Member_difference_HOISTED_ROLE m value in
  let m' := (Member_mergeValue c m (HOISTED_ROLE value)).2 in
  (d.1 = true ↔ hoistedRoleId m ≠ value)
  ∧ Member_difference_HOISTED_ROLE m' value = (false, None)
  ∧ (d.1 = true → (Member_mergeValue c m' (HOISTED_ROLE d.2)).2 = m).
Proof.
  unfold Member_difference_HOISTED_ROLE. simpl. split; [|split].
  - case_bool_decide; simpl; [done|]. split; [done|]. intros Hne. done.
  - by rewrite bool_decide_eq_false_2 by (by intros ?).
  - case_bool_decide; simpl; [|done]. intros _. by destruct m.
Qed.

End MemberAccessors.

(** The example member's highest role is r1, at position 1. *)
Lemma Member_highestRole_is_maximal_witness :
  let entries := map_to_list (Member_roles example_client example_member_roles) in
  Member_highestRole entries = Some example_role
  ∧ ∀ id role,
      Member_roles example_client example_member_roles !! id = Some (Some role) →
      (role_position role ≤ 1)%Z.
Proof.
  intros entries.
  assert (Hh : Member_highestRole entries = Some example_role)
    by (vm_compute; reflexivity).
  split; [exact Hh|].
  pose proof (Member_highestRole_is_maximal example_client
                example_member_roles entries (reflexivity _)) as H.
  rewrite Hh in H. exact (proj2 H).
Defined.

(** The example roles give the permission bit 3, which only r1 has. *)
Lemma Member_permissions_are_the_roles_bits_witness :
  Z.testbit
    (Member_permissions 2146958847 0 false
       [("g1", Some example_everyone); ("r1", Some example_role)])
    3 = true.
Proof.
  apply (Member_permissions_are_the_roles_bits 2146958847 0
           [("g1", Some example_everyone); ("r1", Some example_role)] 3
           ltac:(lia)).
  right. exists "r1", example_role. split; [|reflexivity].
  apply elem_of_cons. right. apply elem_of_cons. by left.
Defined.

(** ** The cluster process and its child *)

Section ClusterMore.
Import ClusterIPCTypes ClusterProcess.

(** X25. An evaluate message of a child that is no request, and whose
    nonce none of the listeners on that child waits for, changes nothing:
    no promise is settled, no entry or listener removed, nothing sent or
    emitted.  A message with another operation leaves the promises of
    [eval], the pending entries, the listeners and what was sent as they
    are: when it comes from a child that was forked, ready, close and
    reconnecting are emitted as 'ready', as 'shardClose' with the data and
    the shard of the message, and as 'shardReconnecting', and respawn-all
    changes nothing. *)
Theorem child_message_unmatched_changes_nothing (child : nat)
    (m : IPCMessage) (st : t) :
  (op m = ClusterIPCOpCodes.EVAL → request m = false →
   (∀ l, l ∈ listeners st → listener_child l = child →
         listener_nonce l ≠ nonce (data m)) →
   child_message child m st = st)
  ∧ (op m ≠ ClusterIPCOpCodes.EVAL →
     child_message child m st
     = if (child <? forked st)%nat
       then match op m with
            | ClusterIPCOpCodes.READY => emit EmitReady st
            | ClusterIPCOpCodes.CLOSE =>
                emit (EmitShardClose (data m) (shard m)) st
            | ClusterIPCOpCodes.RECONNECTING => emit EmitShardReconnecting st
            | _ => st
            end
       else st).
Proof.
  split.
  - intros Hop Hrequest Hnonce. unfold child_message, onMessage.
    rewrite Hop, Hrequest.
    assert (Hinit : (if (child <? forked st)%nat then st else st) = st)
      by by destruct (_ <? _)%nat.
    rewrite Hinit.
    apply (foldl_invariant_elem (λ acc, acc = st)); [done|].
    intros acc l Hl ->.
    destruct (Nat.eqb (listener_child l) child) eqn:Hchild; [|done].
    apply Nat.eqb_eq in Hchild. unfold run_listener. rewrite Hop.
    destruct (String.eqb (nonce (data m)) (listener_nonce l)) eqn:Heq;
      [|done].
    apply String.eqb_eq in Heq. by destruct (Hnonce l Hl Hchild).
  - intros Hop. unfold child_message.
    set (init := if (child <? forked st)%nat then onMessage m st else st).
    assert (Hfold : foldl (λ acc l,
                             if Nat.eqb (listener_child l) child
                             then run_listener m l acc else acc)
                      init (listeners st) = init).
    { apply (foldl_invariant (λ acc, acc = init)); [done|].
      intros acc l ->. destruct (Nat.eqb _ _); [|done].
      unfold run_listener. by destruct (op m). }
    rewrite Hfold. subst init. unfold onMessage.
    destruct (_ <? _)%nat; [|done]. by destruct (op m).
Qed.



Lemma onExit_promises_length exit_code signal st :
  length (promises (onExit exit_code signal st)) = length (promises st).
Proof.
  unfold onExit. cbv zeta.
  set (heap := foldl _ (promises st) _).
  assert (Hheap : length heap = length (promises st)).
  { subst heap.
    apply (foldl_invariant (λ acc, length acc = length (promises st)));
      [done|].
    intros acc item Hacc. by rewrite settle_length. }
  destruct (respawn _); [rewrite run_promises|]; exact Hheap.
Qed.

(** X27. After the exit of the child the table of pending evaluations is empty.
    With respawning on, the process has a child that was never there
    before, and a call under any nonce, also one that was pending at the
    exit, sends a new request to it; with respawning off there is no child
    and the call is rejected without anything being sent. *)
Theorem eval_after_exit (exit_code : option Z) (signal : option string)
    (code : Code) (nonce : string) (st : t) :
  let st1 := onExit exit_code signal st in
  let r := eval code nonce st1 in
  _evalsWaiting st1 = ∅
  ∧ if respawn st
    then process st1 = Some (forked st)
         ∧ sent r.1
           = sent st
             ++ [(forked st,
                  mkIPCMessage ClusterIPCOpCodes.EVAL
                    (Eval_request (Code_text code) nonce) true None)]
         ∧ r.2 = length (promises st)
         ∧ promises r.1 !! r.2 = Some Pending
    else process st1 = None
         ∧ sent r.1 = sent st
         ∧ promises r.1 !! r.2
           = Some (Rejected
                     (mkErrorData (Some "Cannot eval without a child!")
                        (Some "Error") None)).
Proof.
  intros st1 r.
  pose proof (onExit_promises_length exit_code signal st) as Hlen.
  fold st1 in Hlen. subst r. revert Hlen. subst st1.
  unfold onExit. cbv zeta. set (heap := foldl _ (promises st) _).
  cbn [respawn]. destruct (respawn st).
  - unfold run. cbn [process forked respawn _evalsWaiting promises chained
                     listeners sent emitted].
    intros Hlen. split; [done|]. unfold eval.
    cbn [process _evalsWaiting]. rewrite lookup_empty.
    cbn [fst snd sent promises]. rewrite Hlen.
    split; [done|]. split; [done|]. split; [done|].
    rewrite <- Hlen. by apply list_lookup_middle.
  - cbn [promises _evalsWaiting process]. intros Hlen. split; [done|].
    unfold eval. cbn [process fst snd sent promises].
    split; [done|]. split; [done|]. by apply list_lookup_middle.
Qed.

End ClusterMore.

Section ChildMore.
Import ClusterIPCTypes.
Variable cluster_eval : string → ClusterProcessChild.EvalRun.
Variable send_error : IPCMessage → option ErrorData.

(** X28. Whatever the child sends while it handles a message is an evaluate
    message that is not a request, names no shard and carries the code and
    the nonce of the message it answers, the nonce being what the caller's
    listener matches on; it sends at most two such messages, and none
    unless the message is an evaluate request. *)
Theorem onMessage_replies_echo_request (m : IPCMessage)
    (p : ClusterProcessChild.t) :
  ∃ replies,
    ClusterProcessChild.sent
      (ClusterProcessChild.onMessage cluster_eval send_error m p)
    = ClusterProcessChild.sent p ++ replies
    ∧ length replies ≤ 2
    ∧ (replies ≠ [] → op m = ClusterIPCOpCodes.EVAL ∧ request m = true)
    ∧ ∀ reply, reply ∈ replies →
        op reply = ClusterIPCOpCodes.EVAL ∧ request reply = false
        ∧ shard reply = None
        ∧ nonce (data reply) = nonce (data m)
        ∧ code (data reply) = code (data m).
Proof.
  assert (Hnone : ∃ replies : list IPCMessage,
            ClusterProcessChild.sent p = ClusterProcessChild.sent p ++ replies
            ∧ length replies ≤ 2
            ∧ (replies ≠ [] →
               op m = ClusterIPCOpCodes.EVAL ∧ request m = true)
            ∧ ∀ reply, reply ∈ replies →
                op reply = ClusterIPCOpCodes.EVAL ∧ request reply = false
                ∧ shard reply = None
                ∧ nonce (data reply) = nonce (data m)
                ∧ code (data reply) = code (data m)).
  { exists []. rewrite app_nil_r. split; [done|]. split; [simpl; lia|].
    split; [done|]. intros reply Hin. by apply elem_of_nil in Hin. }
  unfold ClusterProcessChild.onMessage.
  destruct (op m) eqn:Hop; try exact Hnone.
  destruct (request m) eqn:Hrequest; [|exact Hnone].
  assert (Hsome : ∀ replies : list IPCMessage,
            length replies ≤ 2 →
            (∀ reply, reply ∈ replies →
               ∃ d, reply = mkIPCMessage ClusterIPCOpCodes.EVAL d false None
                    ∧ nonce d = nonce (data m) ∧ code d = code (data m)) →
            length replies ≤ 2
            ∧ (replies ≠ [] → ClusterIPCOpCodes.EVAL = ClusterIPCOpCodes.EVAL
                              ∧ true = true)
            ∧ ∀ reply, reply ∈ replies →
                op reply = ClusterIPCOpCodes.EVAL ∧ request reply = false
                ∧ shard reply = None
                ∧ nonce (data reply) = nonce (data m)
                ∧ code (data reply) = code (data m)).
  { intros replies Hlen Hall. split; [done|]. split; [done|].
    intros reply Hin. destruct (Hall reply Hin) as (d & -> & Hn & Hc).
    done. }
  destruct (match shard m with
            | Some s => negb (bool_decide (s ∈ ClusterProcessChild.shards p))
            | None => false
            end).
  - exists [mkIPCMessage ClusterIPCOpCodes.EVAL (Eval_with_ignored (data m))
              false None].
    split.
    + unfold ClusterProcessChild.warn_on_error, ClusterProcessChild.sendIPC.
      cbn [fst snd]. by destruct (send_error _).
    + apply Hsome; [simpl; lia|].
      intros reply Hin. apply list_elem_of_singleton in Hin as ->.
        by eexists.
  - destruct (cluster_eval (code (data m))) as [value|[e|]].
    + unfold ClusterProcessChild.sendIPC. cbn [fst snd].
      destruct (send_error
                  (mkIPCMessage ClusterIPCOpCodes.EVAL
                     (Eval_with_result value (data m)) false None))
        as [e|].
      * exists [mkIPCMessage ClusterIPCOpCodes.EVAL
                  (Eval_with_result value (data m)) false None;
                mkIPCMessage ClusterIPCOpCodes.EVAL
                  (Eval_with_error e (data m)) false None].
        split.
        -- cbn [fmap option_fmap option_map].
           unfold ClusterProcessChild.warn_on_error. cbn [fst snd].
           destruct (send_error _); cbn [ClusterProcessChild.sent
             ClusterProcessChild.warn]; by rewrite <- app_assoc.
        -- apply Hsome; [simpl; lia|].
           intros reply [->|Hin]%elem_of_cons; [by eexists|].
           apply list_elem_of_singleton in Hin as ->. by eexists.
      * exists [mkIPCMessage ClusterIPCOpCodes.EVAL
                  (Eval_with_result value (data m)) false None].
        split; [done|]. apply Hsome; [simpl; lia|].
        intros reply Hin. apply list_elem_of_singleton in Hin as ->.
        by eexists.
    + exists [mkIPCMessage ClusterIPCOpCodes.EVAL
                (Eval_with_error e (data m)) false None].
      split.
      * cbn [fst snd]. unfold ClusterProcessChild.warn_on_error,
          ClusterProcessChild.sendIPC. cbn [fst snd].
        by destruct (send_error _).
      * apply Hsome; [simpl; lia|].
        intros reply Hin. apply list_elem_of_singleton in Hin as ->.
        by eexists.
    + exists []. cbn [fst snd ClusterProcessChild.warn
                      ClusterProcessChild.sent].
      rewrite app_nil_r. split; [done|]. apply Hsome; [simpl; lia|].
      intros reply Hin. by apply elem_of_nil in Hin.
Qed.

(** X29. An evaluation that throws an error on a child that takes the request is
    answered with one message, which the listener of the caller resolves to
    the pair of the error and [true]; an evaluation that throws null or
    undefined is not answered at all, the child only warns. *)
Theorem onMessage_thrown_value (m : IPCMessage) (p : ClusterProcessChild.t)
    (thrown : option ErrorData) :
  op m = ClusterIPCOpCodes.EVAL → request m = true → shard m = None →
  ignored (data m) = false →
  cluster_eval (code (data m)) = ClusterProcessChild.Throws thrown →
  let p' := ClusterProcessChild.onMessage cluster_eval send_error m p in
  match thrown with
  | Some e =>
      ∃ reply,
        ClusterProcessChild.sent p' = ClusterProcessChild.sent p ++ [reply]
        ∧ nonce (data reply) = nonce (data m)
        ∧ ClusterProcess.resolution_of (data reply) = Some (JsError e, true)
  | None =>
      ClusterProcessChild.sent p' = ClusterProcessChild.sent p
      ∧ ClusterProcessChild.warnings p' = S (ClusterProcessChild.warnings p)
  end.
Proof.
  intros Hop Hrequest Hshard Hignored Hthrows.
  unfold ClusterProcessChild.onMessage.
  rewrite Hop, Hrequest, Hshard, Hthrows. cbn [fst snd].
  destruct thrown as [e|].
  - eexists. split.
    + unfold ClusterProcessChild.warn_on_error, ClusterProcessChild.sendIPC.
      cbn [fst snd]. by destruct (send_error _).
    + split; [done|]. unfold ClusterProcess.resolution_of.
      cbn [data ignored error Eval_with_error]. by rewrite Hignored.
  - done.
Qed.

End ChildMore.

(** A reply under the nonce n2 while the call under n1 is pending, and
    the child telling that it is ready. *)
Lemma child_message_unmatched_changes_nothing_witness :
  let st :=
    (ClusterProcess.eval (ClusterProcess.CodeString "1 + 1") "n1"
       example_process).1 in
  let m :=
    ClusterIPCTypes.mkIPCMessage ClusterIPCOpCodes.EVAL
      (ClusterIPCTypes.Eval_with_result (ClusterIPCTypes.JsNumber 2)
         (ClusterIPCTypes.Eval_request "1 + 1" "n2"))
      false None in
  let ready :=
    ClusterIPCTypes.mkIPCMessage ClusterIPCOpCodes.READY
      (ClusterIPCTypes.Eval_request "" "") false None in
  ClusterProcess.child_message 0 m st = st
  ∧ ClusterProcess.child_message 0 ready st
    = ClusterProcess.emit ClusterProcess.EmitReady st.
Proof.
  intros st m ready. split.
  - apply (proj1 (child_message_unmatched_changes_nothing 0 m st));
      [reflexivity|reflexivity|].
    intros l Hl _.
    apply list_elem_of_singleton in Hl as ->. vm_compute. discriminate.
  - apply (proj2 (child_message_unmatched_changes_nothing 0 ready st)).
    discriminate.
Defined.


(** A worker whose code throws answers with the error. *)
Lemma onMessage_thrown_value_witness :
  let m :=
    ClusterIPCTypes.mkIPCMessage ClusterIPCOpCodes.EVAL
      (ClusterIPCTypes.Eval_request "boom()" "n1") true None in
  ∃ reply,
    ClusterProcessChild.sent
      (ClusterProcessChild.onMessage example_cluster_eval_throws
         example_send_error m example_child)
    = ClusterProcessChild.sent example_child ++ [reply]
    ∧ ClusterIPCTypes.nonce (ClusterIPCTypes.data reply) = "n1"
    ∧ ClusterProcess.resolution_of (ClusterIPCTypes.data reply)
      = Some (ClusterIPCTypes.JsError example_error, true).
Proof.
  intros m.
  exact (onMessage_thrown_value example_cluster_eval_throws example_send_error
           m example_child (Some example_error) eq_refl eq_refl eq_refl
           eq_refl eq_refl).
Defined.
